(** * The worker pool of [commons/worker.py] and the fault-window checks of
      [tests/ha/multi_pod_failure/test_multi_data_pod_failure.py]

    The pool is concurrent code: [nworkers] threads run [Workers.worker]
    against one shared [WorkQ], while the orchestrating thread calls
    [wenque] and [end_workers].  It is embedded as an interleaving
    semantics: every thread has a program counter, one step of a thread is
    one atomic action of the Python code (a semaphore operation, a
    [queue.Queue] operation, a handler call), and a run is a schedule, the
    list of the threads that move.  All step functions are executable.

    One thread, the orchestrating thread, calls [wenque] and [end_workers],
    one call after the other; the [WorkQ] objects it submits are made
    beforehand and live on a heap, so that the same object can be
    submitted more than once.  The pool's own queue is an object like any
    other: the caller can read [w_workq] and submit it as an item. *)

From stdpp Require Import base option list gmap strings pretty.
From Stdlib Require Import ZArith Lia.

Set Default Proof Using "Type".

(** ** Python values that travel through the pool *)

(** A callable is known by its name; an object by its address. *)
Definition handler := nat.
Definition addr := nat.

(** What a call does: it returns, or it raises. *)
Inductive outcome := Returns | Raises.

(** What [wenque] is given: [None], a reference to an object of the
    caller, or a reference to the pool's own queue, [self.w_workq].  An
    object of the caller is a [WorkQ] when the heap holds one at that
    address, and any other kind of object (no [get], no [func]) when it
    does not. *)
Inductive pyval := PNone | PObj (a : addr) | PSelf.

#[global] Instance outcome_eq_dec : EqDecision outcome.
Proof. solve_decision. Defined.
#[global] Instance pyval_eq_dec : EqDecision pyval.
Proof. solve_decision. Defined.

(** ** [class WorkQ(queue.Queue)] *)

(** The fields [WorkQ.__init__] sets, followed by the three fields of
    [queue.Queue] the code relies on: [maxsize], the deque [queue] and the
    counter [unfinished_tasks] that [task_done] and [join] use. *)
Record WorkQ (A : Type) := mkWorkQ {
  lock_req : bool;
  func : option handler;
  semaphore : nat;
  maxsize : nat;
  queue : list A;
  unfinished_tasks : nat
}.
Arguments mkWorkQ {A}.
Arguments lock_req {A}.
Arguments func {A}.
Arguments semaphore {A}.
Arguments maxsize {A}.
Arguments queue {A}.
Arguments unfinished_tasks {A}.

(** [WorkQ(func, maxsize)].  [threading.Semaphore] refuses a negative
    value with [ValueError], which is the [None] here. *)
Definition WorkQ_init {A} (f : option handler) (size : Z) : option (WorkQ A) :=
  if (size <? 0)%Z then None
  else Some {| lock_req := negb (size =? 0)%Z;
               func := f;
               semaphore := Z.to_nat size;
               maxsize := Z.to_nat size;
               queue := [];
               unfinished_tasks := 0 |}.

Definition set_semaphore {A} (n : nat) (q : WorkQ A) : WorkQ A :=
  mkWorkQ (lock_req q) (func q) n (maxsize q) (queue q) (unfinished_tasks q).

(** [WorkQ.put], first statement: [if self.lock_req: self.semaphore.acquire()].
    [None] is a caller that has to wait. *)
Definition put_acquire {A} (q : WorkQ A) : option (WorkQ A) :=
  if lock_req q then
    match semaphore q with
    | 0 => None
    | S n => Some (set_semaphore n q)
    end
  else Some q.

(** [queue.Queue.put]: waits while a bounded queue is full, then appends
    the item and counts it as unfinished. *)
Definition Queue_put {A} (x : A) (q : WorkQ A) : option (WorkQ A) :=
  if bool_decide (0 < maxsize q) && bool_decide (maxsize q ≤ length (queue q))
  then None
  else Some (mkWorkQ (lock_req q) (func q) (semaphore q) (maxsize q)
                     (queue q ++ [x]) (S (unfinished_tasks q))).

(** [queue.Queue.get]: waits while the queue is empty, then pops the
    oldest item. *)
Definition Queue_get {A} (q : WorkQ A) : option (A * WorkQ A) :=
  match queue q with
  | [] => None
  | x :: rest =>
      Some (x, mkWorkQ (lock_req q) (func q) (semaphore q) (maxsize q)
                       rest (unfinished_tasks q))
  end.

(** [WorkQ.task_done], first statement:
    [if self.lock_req: self.semaphore.release()]. *)
Definition task_done_release {A} (q : WorkQ A) : WorkQ A :=
  if lock_req q then set_semaphore (S (semaphore q)) q else q.

(** [queue.Queue.task_done]: one unfinished task less; [ValueError]
    ([None]) when there is none left to acknowledge. *)
Definition Queue_task_done {A} (q : WorkQ A) : option (WorkQ A) :=
  match unfinished_tasks q with
  | 0 => None
  | S n => Some (mkWorkQ (lock_req q) (func q) (semaphore q) (maxsize q)
                         (queue q) n)
  end.

(** [queue.Queue.join] returns once nothing is unfinished. *)
Definition Queue_join {A} (q : WorkQ A) : bool :=
  bool_decide (unfinished_tasks q = 0).

(** ** [class Workers] *)

(** Where a worker thread stands in [Workers.worker]. *)
Inductive wpc {Item : Type} :=
  | WGet                                  (* wq = self.w_workq.get() *)
  | WSentRelease                          (* wq is None: task_done, release *)
  | WSentAck                              (* wq is None: task_done, Queue.task_done *)
  | WBreak                                (* break: the loop is left, the thread still runs *)
  | WInnerGet (a : addr)                  (* wi = wq.get() *)
  | WCall (a : addr) (wi : Item)          (* wq.func(wi) is running *)
  | WInnerRelease (a : addr)              (* wq.task_done(), release *)
  | WInnerAck (a : addr)                  (* wq.task_done(), Queue.task_done *)
  | WOuterRelease (a : addr)              (* self.w_workq.task_done(), release *)
  | WOuterAck (a : addr)                  (* self.w_workq.task_done(), Queue.task_done *)
  | WSelfGet                              (* wq is self.w_workq: wi = wq.get() *)
  | WSelfCall (v : pyval)                 (* wq is self.w_workq: wq.func(wi) is running *)
  | WSelfRelease (v : pyval)              (* wq is self.w_workq: wq.task_done(), release *)
  | WSelfAck (v : pyval)                  (* wq is self.w_workq: wq.task_done(), Queue.task_done *)
  | WSelfOuterRelease                     (* then self.w_workq.task_done(), release *)
  | WSelfOuterAck                         (* then self.w_workq.task_done(), Queue.task_done *)
  | WExited                               (* worker has returned: the thread has ended *)
  | WRaised (at_pc : wpc).                (* killed by an exception raised at at_pc *)
Arguments wpc : clear implicits.

(** What the orchestrating thread may call, and where it stands. *)
Inductive cmd := Wenque (v : pyval) | EndWorkers.

(** [put] is entered from [wenque] and from the first loop of
    [end_workers]; in the loop [remaining] more sentinels follow. *)
Inductive caller := FromWenque | FromEndWorkers (remaining : nat).

Inductive mpc :=
  | MIdle                                 (* between two calls *)
  | MPutAcquire (v : pyval) (k : caller)  (* in put: semaphore.acquire() *)
  | MPutEnqueue (v : pyval) (k : caller)  (* in put: queue.Queue.put *)
  | MJoinQueue                            (* self.w_workq.join() *)
  | MJoinThread (i : nat).                (* self.w_workers[i].join() *)

(** One call of the handler, as an observer sees it. *)
Record call {Item : Type} := mkCall {
  call_queue : addr;
  call_func : option handler;
  call_arg : Item;
  call_outcome : outcome
}.
Arguments call : clear implicits.
Arguments mkCall {Item}.

(** One call of the [func] of the pool's own queue, on an item of that
    queue. *)
Record pool_call := mkPoolCall {
  pool_call_func : option handler;
  pool_call_arg : pyval;
  pool_call_outcome : outcome
}.

(** The pool, the heap of the [WorkQ] objects the caller made, the
    orchestrating thread with the calls it still has to make, and five
    history variables: the items put on the pool's queue; the items taken
    at the top of the loop (line 61) and acknowledged by the last statement
    of their turn (line 63 or 68); the calls of the [func] of a [WorkQ] of
    the caller that ended; and, for the turns whose item was the pool's own
    queue, the items that [wq.get()] took from it (line 65) and that
    [wq.task_done()] acknowledged (line 67), and the calls of the pool's
    [func] that ended. *)
Record state {Item : Type} := mkState {
  w_workq : WorkQ pyval;
  w_workers : list (wpc Item);
  heap : gmap addr (WorkQ Item);
  main : mpc;
  prog : list cmd;
  submitted : list pyval;
  acked : list pyval;
  calls : list (call Item);
  inner_acked : list pyval;
  pool_calls : list pool_call
}.
Arguments state : clear implicits.
Arguments mkState {Item}.

Section Model.
Context {Item : Type}.

(** What each callable does on each argument: an element of a [WorkQ] of
    the caller, or an item of the pool's queue. *)
Variable behav : handler → Item + pyval → outcome.

Implicit Types (s : state Item) (w : wpc Item) (q : WorkQ pyval).

Definition set_workq q s : state Item :=
  mkState q (w_workers s) (heap s) (main s) (prog s)
          (submitted s) (acked s) (calls s) (inner_acked s) (pool_calls s).
Definition set_worker (i : nat) w s : state Item :=
  mkState (w_workq s) (<[i:=w]> (w_workers s)) (heap s) (main s) (prog s)
          (submitted s) (acked s) (calls s) (inner_acked s) (pool_calls s).
Definition set_heap (a : addr) (wq : WorkQ Item) s : state Item :=
  mkState (w_workq s) (w_workers s) (<[a:=wq]> (heap s)) (main s) (prog s)
          (submitted s) (acked s) (calls s) (inner_acked s) (pool_calls s).
Definition set_main (m : mpc) s : state Item :=
  mkState (w_workq s) (w_workers s) (heap s) m (prog s)
          (submitted s) (acked s) (calls s) (inner_acked s) (pool_calls s).
Definition set_prog (p : list cmd) s : state Item :=
  mkState (w_workq s) (w_workers s) (heap s) (main s) p
          (submitted s) (acked s) (calls s) (inner_acked s) (pool_calls s).
Definition log_submitted (v : pyval) s : state Item :=
  mkState (w_workq s) (w_workers s) (heap s) (main s) (prog s)
          (submitted s ++ [v]) (acked s) (calls s) (inner_acked s) (pool_calls s).
Definition log_acked (v : pyval) s : state Item :=
  mkState (w_workq s) (w_workers s) (heap s) (main s) (prog s)
          (submitted s) (acked s ++ [v]) (calls s) (inner_acked s) (pool_calls s).
Definition log_call (c : call Item) s : state Item :=
  mkState (w_workq s) (w_workers s) (heap s) (main s) (prog s)
          (submitted s) (acked s) (calls s ++ [c]) (inner_acked s) (pool_calls s).
Definition log_inner_acked (v : pyval) s : state Item :=
  mkState (w_workq s) (w_workers s) (heap s) (main s) (prog s)
          (submitted s) (acked s) (calls s) (inner_acked s ++ [v]) (pool_calls s).
Definition log_pool_call (c : pool_call) s : state Item :=
  mkState (w_workq s) (w_workers s) (heap s) (main s) (prog s)
          (submitted s) (acked s) (calls s) (inner_acked s) (pool_calls s ++ [c]).

(** [start_workers(nworkers, func)]: the queue is [WorkQ(func, nworkers)]
    and [range(nworkers)] threads are started, all at the top of
    [worker].  The caller's objects are on [h]; [p] is what the
    orchestrating thread goes on to call. *)
Definition start_workers (nworkers : Z) (f : option handler)
    (h : gmap addr (WorkQ Item)) (p : list cmd) : option (state Item) :=
  q ← WorkQ_init f nworkers;
  Some (mkState q (replicate (Z.to_nat nworkers) WGet) h MIdle p [] [] [] [] []).

(** [wq.func(wi)]: calling [None] raises [TypeError]. *)
Definition apply_func (f : option handler) (wi : Item) : outcome :=
  match f with
  | None => Raises
  | Some h => behav h (inl wi)
  end.

(** The same when [wq] is the pool's own queue and [wi] one of its
    items. *)
Definition apply_pool_func (f : option handler) (v : pyval) : outcome :=
  match f with
  | None => Raises
  | Some h => behav h (inr v)
  end.

(** One atomic action of worker thread [i] in [Workers.worker].  [None]:
    the thread waits, or it has ended.  After [break] the thread still has
    to return from [worker]: until then it is alive.  When the item taken
    is the pool's own queue, [wq.get()] takes the next item of that queue,
    [wq.func] is the callable given to [start_workers], and both
    [task_done] calls are on the pool's queue. *)
Definition worker (i : nat) s : option (state Item) :=
  w ← w_workers s !! i;
  match w with
  | WGet =>
      '(v, q) ← Queue_get (w_workq s);
      Some (set_worker i (match v with
                          | PNone => WSentRelease
                          | PObj a => WInnerGet a
                          | PSelf => WSelfGet
                          end) (set_workq q s))
  | WSentRelease =>
      Some (set_worker i WSentAck (set_workq (task_done_release (w_workq s)) s))
  | WSentAck =>
      match Queue_task_done (w_workq s) with
      | Some q => Some (set_worker i WBreak (log_acked PNone (set_workq q s)))
      | None => Some (set_worker i (WRaised WSentAck) s)
      end
  | WBreak => Some (set_worker i WExited s)
  | WInnerGet a =>
      match heap s !! a with
      | None => Some (set_worker i (WRaised (WInnerGet a)) s)
      | Some wq =>
          '(wi, wq') ← Queue_get wq;
          Some (set_worker i (WCall a wi) (set_heap a wq' s))
      end
  | WCall a wi =>
      wq ← heap s !! a;
      match apply_func (func wq) wi with
      | Returns =>
          Some (set_worker i (WInnerRelease a)
                  (log_call (mkCall a (func wq) wi Returns) s))
      | Raises =>
          Some (set_worker i (WRaised (WCall a wi))
                  (log_call (mkCall a (func wq) wi Raises) s))
      end
  | WInnerRelease a =>
      wq ← heap s !! a;
      Some (set_worker i (WInnerAck a) (set_heap a (task_done_release wq) s))
  | WInnerAck a =>
      wq ← heap s !! a;
      match Queue_task_done wq with
      | Some wq' => Some (set_worker i (WOuterRelease a) (set_heap a wq' s))
      | None => Some (set_worker i (WRaised (WInnerAck a)) s)
      end
  | WOuterRelease a =>
      Some (set_worker i (WOuterAck a)
              (set_workq (task_done_release (w_workq s)) s))
  | WOuterAck a =>
      match Queue_task_done (w_workq s) with
      | Some q => Some (set_worker i WGet (log_acked (PObj a) (set_workq q s)))
      | None => Some (set_worker i (WRaised (WOuterAck a)) s)
      end
  | WSelfGet =>
      '(v, q) ← Queue_get (w_workq s);
      Some (set_worker i (WSelfCall v) (set_workq q s))
  | WSelfCall v =>
      let f := func (w_workq s) in
      match apply_pool_func f v with
      | Returns =>
          Some (set_worker i (WSelfRelease v) (log_pool_call (mkPoolCall f v Returns) s))
      | Raises =>
          Some (set_worker i (WRaised (WSelfCall v))
                  (log_pool_call (mkPoolCall f v Raises) s))
      end
  | WSelfRelease v =>
      Some (set_worker i (WSelfAck v) (set_workq (task_done_release (w_workq s)) s))
  | WSelfAck v =>
      match Queue_task_done (w_workq s) with
      | Some q => Some (set_worker i WSelfOuterRelease (log_inner_acked v (set_workq q s)))
      | None => Some (set_worker i (WRaised (WSelfAck v)) s)
      end
  | WSelfOuterRelease =>
      Some (set_worker i WSelfOuterAck (set_workq (task_done_release (w_workq s)) s))
  | WSelfOuterAck =>
      match Queue_task_done (w_workq s) with
      | Some q => Some (set_worker i WGet (log_acked PSelf (set_workq q s)))
      | None => Some (set_worker i (WRaised WSelfOuterAck) s)
      end
  | WExited => None
  | WRaised _ => None
  end.

(** A thread that [Thread.join] no longer waits for. *)
Definition terminated w : bool :=
  match w with
  | WExited | WRaised _ => true
  | _ => false
  end.

(** The first loop of [end_workers] with [n] iterations to go. *)
Definition end_loop (n : nat) : mpc :=
  match n with
  | 0 => MJoinQueue
  | S n' => MPutAcquire PNone (FromEndWorkers n')
  end.

(** The second loop of [end_workers], about to join thread [i] of [n]. *)
Definition join_loop (i n : nat) : mpc :=
  if bool_decide (i < n) then MJoinThread i else MIdle.

(** One atomic action of the orchestrating thread: entering [wenque] or
    [end_workers], then the statements of [WorkQ.put] and of
    [end_workers]. *)
Definition orchestrator s : option (state Item) :=
  match main s with
  | MIdle =>
      match prog s with
      | [] => None
      | Wenque v :: p => Some (set_main (MPutAcquire v FromWenque) (set_prog p s))
      | EndWorkers :: p =>
          Some (set_main (end_loop (length (w_workers s))) (set_prog p s))
      end
  | MPutAcquire v k =>
      q ← put_acquire (w_workq s);
      Some (set_main (MPutEnqueue v k) (set_workq q s))
  | MPutEnqueue v k =>
      q ← Queue_put v (w_workq s);
      Some (set_main (match k with
                      | FromWenque => MIdle
                      | FromEndWorkers n => end_loop n
                      end) (log_submitted v (set_workq q s)))
  | MJoinQueue =>
      if Queue_join (w_workq s) then Some (set_main (join_loop 0 (length (w_workers s))) s)
      else None
  | MJoinThread i =>
      w ← w_workers s !! i;
      if terminated w then Some (set_main (join_loop (S i) (length (w_workers s))) s)
      else None
  end.

(** The threads, and one step of the one the scheduler picks. *)
Inductive tid := Main | Worker (i : nat).

Definition thread_step (t : tid) s : option (state Item) :=
  match t with
  | Main => orchestrator s
  | Worker i => worker i s
  end.

(** A run under a schedule. *)
Fixpoint run (sch : list tid) s : option (state Item) :=
  match sch with
  | [] => Some s
  | t :: sch' => s' ← thread_step t s; run sch' s'
  end.

(** [k] steps of thread [t]. *)
Definition steps (k : nat) (t : tid) : list tid := replicate k t.

Definition step s s' : Prop := ∃ t, thread_step t s = Some s'.
Definition reachable s s' : Prop := rtc step s s'.

(** Nothing can move. *)
Definition deadlocked s : Prop := ∀ t, thread_step t s = None.

(** The orchestrating thread has returned from its last call. *)
Definition returned s : Prop := main s = MIdle ∧ prog s = [].

(** *** What is counted *)

(** The items a worker has taken from the pool's queue and not yet
    acknowledged there: one, or two when the first was the pool's own
    queue and [wq.get()] took a second. *)
Fixpoint held w : list pyval :=
  match w with
  | WGet | WBreak | WExited => []
  | WSentRelease | WSentAck => [PNone]
  | WInnerGet a | WCall a _ | WInnerRelease a | WInnerAck a
  | WOuterRelease a | WOuterAck a => [PObj a]
  | WSelfGet | WSelfOuterRelease | WSelfOuterAck => [PSelf]
  | WSelfCall v | WSelfRelease v | WSelfAck v => [PSelf; v]
  | WRaised w' => held w'
  end.

(** The same, while the admission slot taken for the item is still
    held: up to the release in [task_done]. *)
Fixpoint unreleased w : list pyval :=
  match w with
  | WGet | WBreak | WExited | WSentAck | WOuterAck _ | WSelfOuterAck => []
  | WSentRelease => [PNone]
  | WInnerGet a | WCall a _ | WInnerRelease a | WInnerAck a
  | WOuterRelease a => [PObj a]
  | WSelfGet | WSelfAck _ | WSelfOuterRelease => [PSelf]
  | WSelfCall v | WSelfRelease v => [PSelf; v]
  | WRaised w' => unreleased w'
  end.

(** The task whose handler has returned and which is not yet
    acknowledged on the pool's queue. *)
Fixpoint finishing w : list addr :=
  match w with
  | WInnerRelease a | WInnerAck a | WOuterRelease a | WOuterAck a => [a]
  | WRaised w' => finishing w'
  | _ => []
  end.

(** The item whose turn a worker is executing: it is inside a handler. *)
Definition running w : list pyval :=
  match w with
  | WCall a _ => [PObj a]
  | WSelfCall _ => [PSelf]
  | _ => []
  end.

(** A worker that left its loop through [break]. *)
Definition exited w : list unit :=
  match w with
  | WBreak | WExited => [()]
  | _ => []
  end.

(** The item on which the pool's [func] has returned and which is not yet
    acknowledged by [wq.task_done()]. *)
Fixpoint self_finishing w : list pyval :=
  match w with
  | WSelfRelease v | WSelfAck v => [v]
  | WRaised w' => self_finishing w'
  | _ => []
  end.

(** A worker that has taken the pool's own queue as its item and has not
    yet come back from the call of its [func]. *)
Definition self_waiting w : list unit :=
  match w with
  | WSelfGet | WSelfCall _ => [()]
  | _ => []
  end.

Definition held_all s : list pyval := w_workers s ≫= held.
Definition unreleased_all s : list pyval := w_workers s ≫= unreleased.
Definition finishing_all s : list addr := w_workers s ≫= finishing.
Definition self_finishing_all s : list pyval := w_workers s ≫= self_finishing.
Definition executing_count s : nat := length (w_workers s ≫= running).

(** The slot the orchestrating thread holds between [acquire] and
    [queue.Queue.put]. *)
Definition pending (m : mpc) : nat :=
  match m with
  | MPutEnqueue _ _ => 1
  | _ => 0
  end.

(** The tasks among items, and the tasks whose handler returned. *)
Definition tasks (l : list pyval) : list addr :=
  omap (λ v, match v with PObj a => Some a | _ => None end) l.

(** The sentinels among items. *)
Definition sentinels (l : list pyval) : list unit :=
  omap (λ v, match v with PNone => Some () | _ => None end) l.

(** The references to the pool's own queue among items, and how many an
    item counts for. *)
Definition selves (l : list pyval) : list unit :=
  omap (λ v, match v with PSelf => Some () | _ => None end) l.
Definition is_self (v : pyval) : nat :=
  match v with PSelf => 1 | _ => 0 end.

Definition returned_tasks (l : list (call Item)) : list addr :=
  omap (λ c, match call_outcome c with
             | Returns => Some (call_queue c)
             | Raises => None
             end) l.

(** The items on which the pool's [func] returned. *)
Definition pool_returned (l : list pool_call) : list pyval :=
  omap (λ c, match pool_call_outcome c with
             | Returns => Some (pool_call_arg c)
             | Raises => None
             end) l.

(** *** The accounting the pool keeps *)

(** What holds of the pool in every state it can reach: the queue was made
    by [WorkQ(func, nworkers)]; every admission slot is free, in the hands
    of the orchestrating thread, queued, or with a worker that has not
    released it; [unfinished_tasks] counts the queued and the held items;
    every item put is queued, held or acknowledged; the acknowledged
    tasks, with those being acknowledged, are those whose handler
    returned; and as many workers have left their loop as [None]s were
    acknowledged at the top of it. *)
Record pool_inv s : Prop := {
  inv_workers : length (w_workers s) = maxsize (w_workq s);
  inv_lock_req : lock_req (w_workq s) = negb (bool_decide (maxsize (w_workq s) = 0));
  inv_slots :
    if lock_req (w_workq s)
    then semaphore (w_workq s) + pending (main s) + length (queue (w_workq s))
         + length (unreleased_all s) = maxsize (w_workq s)
    else semaphore (w_workq s) = 0;
  inv_unfinished :
    unfinished_tasks (w_workq s) = length (queue (w_workq s)) + length (held_all s);
  inv_submitted :
    submitted s ≡ₚ queue (w_workq s) ++ held_all s ++ acked s ++ inner_acked s;
  inv_results : tasks (acked s) ++ finishing_all s ≡ₚ returned_tasks (calls s);
  inv_exits : length (sentinels (acked s)) = length (w_workers s ≫= exited)
}.

(** What holds in every reachable state of the turns whose item is the
    pool's own queue: the items acknowledged by [wq.task_done()], with
    those on the way there, are those on which the pool's [func] returned;
    the pool's [func] was called at most as often as the pool's queue was
    taken as an item; and every such call was a call of the callable that
    [start_workers] stored. *)
Record alias_inv s : Prop := {
  inv_pool_results :
    inner_acked s ++ self_finishing_all s ≡ₚ pool_returned (pool_calls s);
  inv_pool_calls :
    length (pool_calls s) + length (w_workers s ≫= self_waiting)
    ≤ length (selves (held_all s ++ acked s ++ inner_acked s));
  inv_pool_func :
    Forall (λ c, pool_call_func c = func (w_workq s)) (pool_calls s)
}.

(** The number of threads and the fields [start_workers] sets once. *)
Definition frame s : nat * bool * option handler * nat :=
  (length (w_workers s), lock_req (w_workq s), func (w_workq s), maxsize (w_workq s)).

(** *** One shutdown after a sequence of submissions *)

(** The orchestrating thread has left the first loop of [end_workers], and
    it has left [self.w_workq.join()]. *)
Definition sentinels_sent s : Prop :=
  main s = MJoinQueue ∨ (∃ i, main s = MJoinThread i) ∨ returned s.
Definition queue_joined s : Prop :=
  (∃ i, main s = MJoinThread i) ∨ returned s.

(** Where the orchestrating thread stands while it submits [vs], calls
    [end_workers] and goes on with [rest], and what it has put on the queue
    by then.  The last case of [MIdle] is the return from [end_workers]. *)
Definition shutdown_inv (vs : list pyval) (rest : list cmd) s : Prop :=
  let n := length (w_workers s) in
  match main s with
  | MIdle =>
      (∃ sent todo, vs = sent ++ todo
         ∧ prog s = (Wenque <$> todo) ++ EndWorkers :: rest
         ∧ submitted s = sent)
      ∨ (prog s = rest
         ∧ submitted s = vs ++ replicate n PNone
         ∧ unfinished_tasks (w_workq s) = 0
         ∧ Forall (λ w, terminated w = true) (w_workers s))
  | MPutAcquire v FromWenque | MPutEnqueue v FromWenque =>
      ∃ sent todo, vs = sent ++ v :: todo
        ∧ prog s = (Wenque <$> todo) ++ EndWorkers :: rest
        ∧ submitted s = sent
  | MPutAcquire v (FromEndWorkers k) | MPutEnqueue v (FromEndWorkers k) =>
      v = PNone ∧ prog s = rest ∧ k < n
      ∧ submitted s = vs ++ replicate (n - S k) PNone
  | MJoinQueue =>
      prog s = rest ∧ submitted s = vs ++ replicate n PNone
  | MJoinThread i =>
      prog s = rest ∧ submitted s = vs ++ replicate n PNone
      ∧ unfinished_tasks (w_workq s) = 0
      ∧ i < n
      ∧ Forall (λ w, terminated w = true) (take i (w_workers s))
  end.

(** [end_workers] has returned and nothing is left to do on the pool. *)
Definition shut_down s : Prop :=
  main s = MIdle
  ∧ unfinished_tasks (w_workq s) = 0
  ∧ Forall (λ w, terminated w = true) (w_workers s).

(** A second [end_workers] on a pool that is shut down: the sentinels pile
    up on the queue, and the orchestrating thread is in [put] or in
    [self.w_workq.join()]. *)
Definition second_shutdown_inv s : Prop :=
  let n := length (w_workers s) in
  prog s = []
  ∧ Forall (λ w, terminated w = true) (w_workers s)
  ∧ match main s with
    | MPutAcquire v (FromEndWorkers k) | MPutEnqueue v (FromEndWorkers k) =>
        v = PNone ∧ k < n ∧ queue (w_workq s) = replicate (n - S k) PNone
    | MJoinQueue => 0 < n ∧ queue (w_workq s) = replicate n PNone
    | _ => False
    end.

(** Every call recorded is a call of the [func] of the [WorkQ] it names. *)
Definition calls_by_inner_func s : Prop :=
  ∀ c, c ∈ calls s → func <$> heap s !! call_queue c = Some (call_func c).

(** *** A schedule that serves every task and shuts the pool down *)

(** The [WorkQ] after a worker took its first element, ran the handler on
    it and acknowledged it. *)
Definition after_task (wq : WorkQ Item) : WorkQ Item :=
  mkWorkQ (lock_req wq) (func wq)
          (if lock_req wq then S (semaphore wq) else semaphore wq)
          (maxsize wq) (tail (queue wq)) (pred (unfinished_tasks wq)).

(** Every item is a [WorkQ] that, when its turn comes, holds an element
    its own [func] returns on. *)
Fixpoint good_tasks (h : gmap addr (WorkQ Item)) (vs : list pyval) : Prop :=
  match vs with
  | [] => True
  | PNone :: _ | PSelf :: _ => False
  | PObj a :: vs' =>
      ∃ wq wi, h !! a = Some wq
        ∧ head (queue wq) = Some wi
        ∧ unfinished_tasks wq ≠ 0
        ∧ apply_func (func wq) wi = Returns
        ∧ good_tasks (<[a := after_task wq]> h) vs'
  end.

(** Each submission is served by worker 0 before the next one is made;
    then [end_workers] puts its sentinels, each worker takes one, and the
    orchestrating thread joins the queue and the threads. *)
Definition sch_serve (vs : list pyval) : list tid :=
  vs ≫= λ _, steps 3 Main ++ steps 7 (Worker 0).
Definition sch_end_workers (n : nat) : list tid :=
  steps (1 + 2 * n) Main ++ (seq 0 n ≫= λ i, steps 4 (Worker i)) ++ steps (1 + n) Main.
Definition sch_sequential (n : nat) (vs : list pyval) : list tid :=
  sch_serve vs ++ sch_end_workers n.

(** The same up to [self.w_workq.join()], but the last of the [S n] workers
    stops after its [break]: the orchestrating thread leaves the [join] of
    the queue while that thread is alive. *)
Definition sch_linger (n : nat) (vs : list pyval) : list tid :=
  sch_serve vs ++ steps (1 + 2 * S n) Main
  ++ (seq 0 n ≫= λ i, steps 4 (Worker i)) ++ steps 3 (Worker n) ++ [Main].

(** The states the schedule passes through, for a pool of [S n] workers.
    At rest: every slot free, the queue empty, every worker at the top of
    its loop, the orchestrating thread between two calls. *)
Definition at_rest (n : nat) f (h : gmap addr (WorkQ Item)) p sub ack cl : state Item :=
  mkState (mkWorkQ true f (S n) (S n) [] 0) (replicate (S n) WGet) h MIdle p sub ack cl
          [] [].

(** In the first loop of [end_workers], [S k] sentinels still to put. *)
Definition loading (n : nat) f (h : gmap addr (WorkQ Item)) p sub ack cl (k : nat)
    : state Item :=
  mkState (mkWorkQ true f (S k) (S n) (replicate (n - k) PNone) (n - k))
          (replicate (S n) WGet) h (MPutAcquire PNone (FromEndWorkers k)) p
          (sub ++ replicate (n - k) PNone) ack cl [] [].

(** In [self.w_workq.join()]: the first [i] workers have taken their
    sentinel and left, [j] sentinels wait for the other [j] workers. *)
Definition taking (n : nat) f (h : gmap addr (WorkQ Item)) p sub ack cl (i j : nat)
    : state Item :=
  mkState (mkWorkQ true f i (S n) (replicate j PNone) j)
          (replicate i WExited ++ replicate j WGet) h MJoinQueue p
          (sub ++ replicate (S n) PNone) (ack ++ replicate i PNone) cl [] [].

(** Every worker has left; the orchestrating thread is at [m]. *)
Definition all_exited (n : nat) f (h : gmap addr (WorkQ Item)) p sub ack cl (m : mpc)
    : state Item :=
  mkState (mkWorkQ true f (S n) (S n) [] 0) (replicate (S n) WExited) h m p
          (sub ++ replicate (S n) PNone) (ack ++ replicate (S n) PNone) cl [] [].

(** Every worker but the last has left; the last has acknowledged its
    sentinel and not yet returned. *)
Definition last_lingers (n : nat) f (h : gmap addr (WorkQ Item)) p sub ack cl (m : mpc)
    : state Item :=
  mkState (mkWorkQ true f (S n) (S n) [] 0) (replicate n WExited ++ [WBreak]) h m p
          (sub ++ replicate (S n) PNone) (ack ++ replicate (S n) PNone) cl [] [].
End Model.

(** ** Waiting for the message of a background activity *)

(** The loop of the test scenarios,
    [resp = tuple(); while len(resp) != n: resp = output.get(timeout=...)].
    A message is the list of its fields.  [arrivals] are the messages that
    reach the queue in time, oldest first; behind the last of them [get]
    times out and raises [queue.Empty], which nothing in the test catches:
    that is [None].  The result is the message the loop ends with and what
    is left on the queue. *)
Fixpoint await_len {A} (n : nat) (resp : list A) (arrivals : list (list A))
    : option (list A * list (list A)) :=
  if length resp =? n then Some (resp, arrivals)
  else match arrivals with
       | [] => None
       | m :: rest => await_len n m rest
       end.

(** The loop as the test writes it, from the empty tuple. *)
Definition await_message {A} (n : nat) (arrivals : list (list A))
    : option (list A * list (list A)) :=
  await_len n [] arrivals.

(** ** The fault window *)

(** [event = threading.Event()]: a flag, [set()], [clear()], [is_set()].
    None of them raises. *)
Record Event := mkEvent { flag : bool }.

Definition Event_init : Event := mkEvent false.
Definition event_set (e : Event) : Event := mkEvent true.
Definition event_clear (e : Event) : Event := mkEvent false.
Definition is_set (e : Event) : bool := flag e.

(** What the orchestrating thread does to the window. *)
Inductive signal := SignalOpen | SignalClose.

Definition event_signal (e : Event) (sg : signal) : Event :=
  match sg with
  | SignalOpen => event_set e
  | SignalClose => event_clear e
  end.

Definition event_signals (e : Event) (sgs : list signal) : Event :=
  foldl event_signal e sgs.

(** The state machine in the words of the specification, to compare the
    event with: CLOSED, then OPEN, then CLOSED for good; any other signal
    is a usage error, [None]. *)
Inductive window_phase := ClosedInitial | WindowOpen | ClosedFinal.

Definition window_signal (ph : window_phase) (sg : signal) : option window_phase :=
  match ph, sg with
  | ClosedInitial, SignalOpen => Some WindowOpen
  | WindowOpen, SignalClose => Some ClosedFinal
  | _, _ => None
  end.

Fixpoint window_signals (ph : window_phase) (sgs : list signal) : option window_phase :=
  match sgs with
  | [] => Some ph
  | sg :: sgs' => ph' ← window_signal ph sg; window_signals ph' sgs'
  end.

(** ** Operations against the fault window *)

Inductive op_outcome := Success | Failure.

(** The phase a reader of the window sees. *)
Inductive phase := Closed | Open.

#[global] Instance op_outcome_eq_dec : EqDecision op_outcome.
Proof. solve_decision. Defined.
#[global] Instance phase_eq_dec : EqDecision phase.
Proof. solve_decision. Defined.

(** The interval during which the destructive action is in flight. *)
Record FaultWindow := mkFaultWindow { opened_at : Z; closed_at : Z }.

(** One completed operation: the task, its outcome (what its log shows),
    when it started and ended, and the phase of the window it observed
    when it started. *)
Record OperationResult := mkOperationResult {
  task_id : nat;
  op_result : op_outcome;
  start_ts : Z;
  end_ts : Z;
  phase_at_start : phase
}.

(** The interval of the operation and the window have a moment in common. *)
Definition intersects (r : OperationResult) (w : FaultWindow) : Prop :=
  (start_ts r ≤ closed_at w)%Z ∧ (opened_at w ≤ end_ts r)%Z.

#[global] Instance intersects_dec r w : Decision (intersects r w).
Proof. unfold intersects. apply _. Defined.

(** The message of a background activity: [responses["pass_res"]] and
    [responses["fail_res"]]. *)
Record responses := mkResponses {
  pass_res : list OperationResult;
  fail_res : list OperationResult
}.


Definition has_failure (r : OperationResult) : bool :=
  bool_decide (op_result r = Failure).

(** Modelled from the spec: [HAK8s.check_s3bench_log] is not among the
    sources.  By the messages of the assertions on its result, its second
    component lists the logs that contain failures, and with
    [pass_logs=False] the logs that contain none. *)
Definition check_s3bench_log (file_paths : list OperationResult) (pass_logs : bool)
    : bool * list OperationResult :=
  (true, filter (λ r, has_failure r = pass_logs) file_paths).

(** Steps 7.2 and 7.3 of [test_ios_during_data_kpods_down_safe]: the two
    assertions on the logs of the message.  [None] is a failed assertion. *)
Definition verify_inflight (resp : responses) : option unit :=
  let pass_logs := pass_res resp in
  let fail_logs := fail_res resp in
  let r1 := check_s3bench_log pass_logs true in
  if bool_decide (length r1.2 ≠ 0) then None       (* assert_false(len(resp[1])) *)
  else
    let r2 := check_s3bench_log fail_logs false in
    if bool_decide (length r2.2 ≤ length fail_logs) then Some ()
    else None.                                     (* assert_true(len(resp[1]) <= len(fail_logs)) *)

(** ** Small scenarios *)

(** Callable [0] returns on every argument; any other callable raises. *)
Definition demo_behav (f : handler) (x : nat + pyval) : outcome :=
  if decide (f = 0) then Returns else Raises.

(** [q = WorkQ(f, 1); q.put(x)]. *)
Definition demo_workq (f : handler) (x : nat) : WorkQ nat :=
  mkWorkQ true (Some f) 0 1 [x] 1.

(** Two tasks for callable [0], at addresses 0 and 2, and one for callable
    [1], at address 1. *)
Definition demo_heap : gmap addr (WorkQ nat) :=
  <[0 := demo_workq 0 7]> (<[1 := demo_workq 1 8]> (<[2 := demo_workq 0 9]> ∅)).

(** The state the pool is in after [sch], started with [n] workers and
    the orchestrating thread about to run [p]. *)
Definition demo_run (n : Z) (p : list cmd) (sch : list tid) : option (state nat) :=
  s ← start_workers n None demo_heap p; run demo_behav sch s.

(** Two workers; two good tasks are submitted, run one after the other,
    and the pool is shut down. *)
Definition sch_two_tasks : list tid :=
  steps 6 Main ++ steps 7 (Worker 0) ++ steps 7 (Worker 1).
Definition sch_shutdown_two : list tid :=
  steps 5 Main ++ steps 4 (Worker 0) ++ steps 4 (Worker 1) ++ steps 3 Main.

(** Two workers, each inside the handler of one of the two tasks. *)
Definition sch_both_running : list tid :=
  steps 6 Main ++ steps 2 (Worker 0) ++ steps 2 (Worker 1).

(** One worker, shut down, and [end_workers] called again up to its
    [join]. *)
Definition sch_double_shutdown : list tid :=
  steps 3 Main ++ steps 4 (Worker 0) ++ steps 2 Main ++ steps 3 Main.

(** One worker takes the task whose handler raises. *)
Definition sch_raise : list tid := steps 3 Main ++ steps 3 (Worker 0).

(** The pool as [start_workers(n)] leaves it, with [p] to run. *)
Definition demo_start (n : nat) (p : list cmd) : state nat :=
  mkState (mkWorkQ (negb (bool_decide (n = 0))) None n n [] 0)
          (replicate n WGet) demo_heap MIdle p [] [] [] [] [].

Definition demo_after (n : nat) (p : list cmd) (sch : list tid) : state nat :=
  default (demo_start n p) (run demo_behav sch (demo_start n p)).

Definition prog_two_tasks : list cmd := [Wenque (PObj 0); Wenque (PObj 2); EndWorkers].

(** Both tasks done and the pool shut down. *)
Definition demo_done : state nat :=
  demo_after 2 prog_two_tasks (sch_two_tasks ++ sch_shutdown_two).

(** Both workers inside a handler. *)
Definition demo_running : state nat :=
  demo_after 2 prog_two_tasks sch_both_running.

(** The second [end_workers] in its [join]. *)
Definition demo_hung : state nat :=
  demo_after 1 [EndWorkers; EndWorkers] sch_double_shutdown.

(** The worker inside the handler that is going to raise, with a second
    task to be submitted. *)
Definition prog_bad_task : list cmd := [Wenque (PObj 1); Wenque (PObj 0)].
Definition demo_calling_bad : state nat :=
  demo_after 1 prog_bad_task (steps 3 Main ++ steps 2 (Worker 0)).

(** One task queued, the worker at the top of its loop. *)
Definition demo_queued : state nat :=
  demo_after 1 [Wenque (PObj 0)] (steps 3 Main).

(** [wenque(None)] by the caller, the worker at the top of its loop. *)
Definition prog_none_first : list cmd := [Wenque PNone; Wenque (PObj 0)].

(** A pool of two workers whose callable is [0], and three submissions: a
    task, the pool's own queue, and a second task.  First the task and the
    pool's queue are queued; then the first task is served and the second
    queued behind the pool's queue. *)
Definition demo_start_with (f : option handler) (n : nat) (p : list cmd) : state nat :=
  mkState (mkWorkQ (negb (bool_decide (n = 0))) f n n [] 0)
          (replicate n WGet) demo_heap MIdle p [] [] [] [] [].
Definition prog_own_queue : list cmd :=
  [Wenque (PObj 0); Wenque PSelf; Wenque (PObj 2)].
Definition demo_own_queue_start : state nat := demo_start_with (Some 0) 2 prog_own_queue.
Definition demo_task_first : state nat :=
  default demo_own_queue_start (run demo_behav (steps 6 Main) demo_own_queue_start).
Definition demo_own_queue_first : state nat :=
  default demo_own_queue_start
    (run demo_behav (steps 6 Main ++ steps 7 (Worker 0) ++ steps 3 Main)
       demo_own_queue_start).

(** One worker and [end_workers]: the sentinel is acknowledged, the
    orchestrating thread has left the [join] of the queue, and the worker
    has not yet returned. *)
Definition demo_joining : state nat :=
  demo_after 1 [EndWorkers] (steps 3 Main ++ steps 3 (Worker 0) ++ [Main]).

(** The capacity of the queue of a pool of [nworkers] workers. *)
Definition capacity (nworkers : Z) : option nat :=
  maxsize <$> (w_workq <$> start_workers (Item:=nat) nworkers None ∅ []).

Definition demo_before : OperationResult := mkOperationResult 1 Success 10 50 Closed.
Definition demo_inside : OperationResult := mkOperationResult 2 Failure 120 260 Open.


(** * [commons/report_client.py] *)

(** What a call ends with: a value, or an exception. *)
Inductive result (E A : Type) := Ok (a : A) | Raise (e : E).
Arguments Ok {E A}.
Arguments Raise {E A}.

(** ** [class SingletonMixin] *)

Module SingletonMixin.

(** [CTException(errorcodes.CT_SINGLETON_NOT_INITIALIZED)], or whatever
    the constructor of the derived class raised. *)
Inductive error {E : Type} := CT_SINGLETON_NOT_INITIALIZED | Constructor (e : E).
Arguments error : clear implicits.

(** The class attribute [__instance], [None] at first, and as a history
    variable the objects the constructor has made. *)
Record cls_state {Inst : Type} := mkCls {
  instance : option Inst;
  made : list Inst
}.
Arguments cls_state : clear implicits.
Arguments mkCls {Inst}.

Section Mixin.
Context {Inst Args E : Type}.
(** [bool(obj)] of an instance, and [cls( *args, **kwargs)]. *)
Variable truthy : Inst → bool.
Variable construct : Args → result E Inst.

Implicit Types (st : cls_state Inst).

(** The test [cls.__instance] of the [if]s: an object that is true. *)
Definition is_set st : bool := from_option truthy false (instance st).

Definition get_instance st : result (error E) Inst :=
  match instance st with
  | Some i => if truthy i then Ok i else Raise CT_SINGLETON_NOT_INITIALIZED
  | None => Raise CT_SINGLETON_NOT_INITIALIZED
  end.

(** [cls.__instance = cls( *args, **kwargs)]; an exception of the
    constructor leaves the attribute as it is. *)
Definition assign_new (a : Args) st : result (error E) unit * cls_state Inst :=
  match construct a with
  | Ok i => (Ok (), mkCls (Some i) (made st ++ [i]))
  | Raise e => (Raise (Constructor e), st)
  end.

Definition init_instance (a : Args) st : result (error E) unit * cls_state Inst :=
  if is_set st then (Ok (), st)
  else (* with cls.__instance_lock: *)
    if is_set st then (Ok (), st)
    else assign_new a st.

Definition reinit_instance (a : Args) st : result (error E) unit * cls_state Inst :=
  if negb (is_set st) then (Raise CT_SINGLETON_NOT_INITIALIZED, st)
  else assign_new a st.

Definition clear_instance st : result (error E) unit * cls_state Inst :=
  if negb (is_set st) then (Raise CT_SINGLETON_NOT_INITIALIZED, st)
  else (Ok (), mkCls None (made st)).

(** [init_instance] called with each of [l] in turn, exceptions caught. *)
Definition init_all (l : list Args) st : cls_state Inst :=
  foldl (λ st a, (init_instance a st).2) st l.

(** *** Several threads in [init_instance] *)

(** Where a thread stands in [init_instance]. *)
Inductive ipc :=
  | ICheck (a : Args)         (* if cls.__instance: return *)
  | IAcquire (a : Args)       (* with cls.__instance_lock: *)
  | IRecheck (a : Args)       (* if cls.__instance: return *)
  | IConstruct (a : Args)     (* cls( *args, **kwargs) *)
  | IAssign (i : Inst)        (* cls.__instance = ... *)
  | IRelease                  (* leaving the with block *)
  | IReleaseRaising (e : E)   (* leaving the with block, exception in flight *)
  | IReturned
  | IRaised (e : E).

Record conc := mkConc {
  shared : cls_state Inst;
  locked : bool;
  callers : list ipc
}.

Definition set_caller (j : nat) (pc : ipc) (c : conc) : conc :=
  mkConc (shared c) (locked c) (<[j:=pc]> (callers c)).

(** One atomic action of thread [j]; [None]: it waits for the lock or
    has ended. *)
Definition init_step (j : nat) (c : conc) : option conc :=
  pc ← callers c !! j;
  match pc with
  | ICheck a =>
      Some (set_caller j (if is_set (shared c) then IReturned else IAcquire a) c)
  | IAcquire a =>
      if locked c then None
      else Some (mkConc (shared c) true (<[j:=IRecheck a]> (callers c)))
  | IRecheck a =>
      Some (set_caller j (if is_set (shared c) then IRelease else IConstruct a) c)
  | IConstruct a =>
      match construct a with
      | Ok i => Some (mkConc (mkCls (instance (shared c)) (made (shared c) ++ [i]))
                             (locked c) (<[j:=IAssign i]> (callers c)))
      | Raise e => Some (set_caller j (IReleaseRaising e) c)
      end
  | IAssign i =>
      Some (mkConc (mkCls (Some i) (made (shared c))) (locked c)
                   (<[j:=IRelease]> (callers c)))
  | IRelease => Some (mkConc (shared c) false (<[j:=IReturned]> (callers c)))
  | IReleaseRaising e => Some (mkConc (shared c) false (<[j:=IRaised e]> (callers c)))
  | IReturned | IRaised _ => None
  end.

Fixpoint init_run (sch : list nat) (c : conc) : option conc :=
  match sch with
  | [] => Some c
  | j :: sch' => c' ← init_step j c; init_run sch' c'
  end.

(** Every thread about to enter [init_instance] on a fresh class. *)
Definition init_start (l : list Args) : conc :=
  mkConc (mkCls None []) false (ICheck <$> l).

(** Inside the [with] block; building the instance; back from the call. *)
Definition in_lock (pc : ipc) : list unit :=
  match pc with
  | IRecheck _ | IConstruct _ | IAssign _ | IRelease | IReleaseRaising _ => [()]
  | _ => []
  end.
Definition building (pc : ipc) : list unit :=
  match pc with
  | IConstruct _ | IAssign _ => [()]
  | _ => []
  end.
Definition assigning (pc : ipc) : list Inst :=
  match pc with
  | IAssign i => [i]
  | _ => []
  end.
Definition passed (pc : ipc) : list unit :=
  match pc with
  | IRelease | IReturned => [()]
  | _ => []
  end.

(** What the lock keeps: one thread at most inside the block; an instance
    is built only while none is set; every object made is the one that is
    set or the one about to be, and is true; a thread that is through
    found or left an instance. *)
Record conc_inv (c : conc) : Prop := {
  ci_lock : length (callers c ≫= in_lock) = (if locked c then 1 else 0);
  ci_one : length (callers c ≫= building)
           + length (option_list (instance (shared c))) ≤ 1;
  ci_made : made (shared c)
            ≡ₚ option_list (instance (shared c)) ++ (callers c ≫= assigning);
  ci_true : Forall (λ i, truthy i = true) (made (shared c));
  ci_passed : length (callers c ≫= passed) = 0 ∨ instance (shared c) ≠ None
}.
End Mixin.
End SingletonMixin.

(** ** [class ReportClient] *)

(** The values that go into a payload. *)
#[warnings="-register-all"] Inductive value :=
  | VNone
  | VBool (b : bool)
  | VInt (n : Z)
  | VStr (s : string)
  | VList (l : list value)
  | VDict (d : list (string * value)).

(** [**data_kwargs], and [d.get(key, default)]. *)
Abbreviation kwargs := (gmap string value).
Definition dict_get (d : kwargs) (key : string) (dflt : value) : value :=
  default dflt (d !! key).

Module ReportClient.
Import SingletonMixin.

Definition REPORT_SRV : string := "http://cftic2.pun.seagate.com:5000/".
Definition REPORT_SRV_CREATE : string := REPORT_SRV +:+ "reportsdb/create".
Definition REPORT_SRV_UPDATE : string := REPORT_SRV +:+ "reportsdb/update".

Inductive exn := TypeError.

Section Client.
(** [requests.session()], and the requests of [web_utils] with the status
    code of their response. *)
Context {Session : Type}.
Variable new_session : Session.
Variable http_post_request http_patch_request :
  string → list (string * value) → list (string * string) → Z.

Record client := mkClient { session : Session }.

(** [ReportClient( *args, **kwargs)]: [__init__(self)] takes no argument. *)
Definition new (a : list value * kwargs) : result exn client :=
  match a.1, map_to_list a.2 with
  | [], [] => Ok (mkClient new_session)
  | _, _ => Raise TypeError
  end.

(** An object without [__bool__] and [__len__] is true. *)
Definition truthy (c : client) : bool := true.

Definition create_payload (data_kwargs : kwargs) : list (string * value) :=
  [("OSVersion", dict_get data_kwargs "os" (VStr "CentOS"));
   ("buildNo", dict_get data_kwargs "build" (VStr "0003"));
   ("buildType", dict_get data_kwargs "build_type" (VStr "Release"));
   ("clientHostname", dict_get data_kwargs "client_hostname" (VStr "autoclient"));
   ("executionType", dict_get data_kwargs "execution_type" (VStr "Automated"));
   ("healthCheckResult", dict_get data_kwargs "health_chk_res" (VStr "Pass"));
   ("isRegression", dict_get data_kwargs "is_regression" (VBool false));
   ("issueID", dict_get data_kwargs "issue_id" (VStr "EOS-000"));
   ("issueType", dict_get data_kwargs "issue_type" (VStr "Dev"));
   ("logCollectionDone", dict_get data_kwargs "are_logs_collected" (VBool true));
   ("logPath", dict_get data_kwargs "log_path" (VStr "DemoPath"));
   ("noOfNodes", dict_get data_kwargs "nodes" (VInt 4));
   ("nodesHostname", dict_get data_kwargs "nodes_hostnames"
      (VList [VStr "sm7-r18.pun.seagate.com"; VStr "sm8-r18.pun.seagate.com"]));
   ("testComponent", dict_get data_kwargs "test_component" (VStr "S3"));
   ("testExecutionID", dict_get data_kwargs "test_exec_id" (VStr "TEST-0000"));
   ("testExecutionTime", dict_get data_kwargs "test_exec_time" (VInt 0));
   ("testID", dict_get data_kwargs "test_exec_time" (VStr "TEST-0000"));
   ("testIDLabels", dict_get data_kwargs "test_exec_time"
      (VList [VStr "Demo"; VStr "Labels"]));
   ("testName", dict_get data_kwargs "test_name" (VStr "Demo test"));
   ("testPlanID", dict_get data_kwargs "test_plan_id" (VStr "TEST-0000"));
   ("testResult", dict_get data_kwargs "test_result" (VStr "Pass"));
   ("testStartTime", dict_get data_kwargs "start_time"
      (VStr "2021-01-02T09:01:38+00:00"));
   ("testTags", dict_get data_kwargs "tags" (VList [VStr "Demo"; VStr "Tags"]));
   ("testTeam", dict_get data_kwargs "test_team" (VStr "CFT"));
   ("testType", dict_get data_kwargs "test_type" (VStr "Pytest"));
   ("db_username", dict_get data_kwargs "db_username" VNone);
   ("db_password", dict_get data_kwargs "db_password" VNone)].

Definition headers : list (string * string) :=
  [("Content-Type", "application/json")].

Definition create_db_entry (self : client) (data_kwargs : kwargs) : Z :=
  http_post_request REPORT_SRV_CREATE (create_payload data_kwargs) headers.

Definition update_payload (data_kwargs : kwargs) : list (string * value) :=
  let new_build_type := dict_get data_kwargs "update_build_type" VNone in
  [("filter", VDict [("buildType", dict_get data_kwargs "build_type" (VStr "Release"))]);
   ("update", VDict [("$set", VDict [("buildType", new_build_type);
                                     ("OSVersion", dict_get data_kwargs "os" VNone)])]);
   ("db_username", VStr "");
   ("db_password", VStr "")].

Definition update_db_entry (self : client) (data_kwargs : kwargs) : Z :=
  http_patch_request REPORT_SRV_UPDATE (update_payload data_kwargs) headers.

(** The module's functions [init_report_client] and [report_client]. *)
Definition init_report_client (st : cls_state client)
  : result (error exn) unit * cls_state client :=
  init_instance truthy new ([], {["init_params" := VNone]}) st.

Definition report_client (server : value) (st : cls_state client)
  : result (error exn) client :=
  get_instance truthy st.

(** [init_report_client] called [n] times, exceptions caught. *)
Definition init_report_client_times (n : nat) (st : cls_state client)
  : cls_state client :=
  Nat.iter n (λ st, (init_report_client st).2) st.

(** The keyword arguments that [create_db_entry] and [update_db_entry]
    read. *)
Definition create_reads : list string :=
  ["os"; "build"; "build_type"; "client_hostname"; "execution_type";
   "health_chk_res"; "is_regression"; "issue_id"; "issue_type";
   "are_logs_collected"; "log_path"; "nodes"; "nodes_hostnames";
   "test_component"; "test_exec_id"; "test_exec_time"; "test_name";
   "test_plan_id"; "test_result"; "start_time"; "tags"; "test_team";
   "test_type"; "db_username"; "db_password"].
Definition update_reads : list string :=
  ["update_build_type"; "build_type"; "os"].

(** The value of a key of a payload. *)
Definition payload_get (p : list (string * value)) (key : string) : option value :=
  (λ r, r.2.2) <$> list_find (λ kv, kv.1 = key) p.
End Client.
End ReportClient.

(** * Python calls *)

Module Py.

(** The exception classes that occur, and for the others whether they
    derive from [Exception] or from [BaseException] alone. *)
Inductive exc_class :=
  | CTException | TypeError | IndexError | ValueError | AttributeError
  | AssertionError | OSError | Empty
  | OtherException (name : string)
  | OtherBaseException (name : string).

(** A raised exception, with its [args]. *)
Record exc := mkExc { class_of : exc_class; args : list value }.

Definition is_Exception (e : exc) : bool :=
  match class_of e with
  | OtherBaseException _ => false
  | _ => true
  end.

(** A computation on a state [St] that returns or raises. *)
Definition M (St A : Type) : Type := St → result exc A * St.

Definition ret {St A} (a : A) : M St A := λ st, (Ok a, st).
Definition raise {St A} (e : exc) : M St A := λ st, (Raise e, st).
Definition bind {St A B} (m : M St A) (k : A → M St B) : M St B :=
  λ st, match m st with
        | (Ok a, st') => k a st'
        | (Raise e, st') => (Raise e, st')
        end.
(** [try: m except ...: h], where [h] decides whether it catches. *)
Definition try_except {St A} (m : M St A) (h : exc → M St A) : M St A :=
  λ st, match m st with
        | (Ok a, st') => (Ok a, st')
        | (Raise e, st') => h e st'
        end.
Definition get {St} : M St St := λ st, (Ok st, st).
Definition modify {St} (f : St → St) : M St unit := λ st, (Ok (), f st).

(** [seq[0]] on a tuple. *)
Definition first_arg {St} (l : list value) : M St value :=
  match l with
  | a :: _ => ret a
  | [] => raise (mkExc IndexError [VStr "tuple index out of range"])
  end.

(** [range(n)]. *)
Definition range (n : Z) : list nat := seq 0 (Z.to_nat n).

(** [bool(v)], [len(v)] and [v[i]] on values, and dicts with string keys
    in insertion order. *)
Definition truthy (v : value) : bool :=
  match v with
  | VNone => false
  | VBool b => b
  | VInt n => negb (n =? 0)%Z
  | VStr s => negb (String.eqb s "")
  | VList l => match l with [] => false | _ => true end
  | VDict d => match d with [] => false | _ => true end
  end.

Definition len {St} (v : value) : M St nat :=
  match v with
  | VList l => ret (length l)
  | VDict d => ret (length d)
  | VStr s => ret (String.length s)
  | _ => raise (mkExc TypeError [VStr "object has no len()"])
  end.

Definition getitem {St} (v : value) (i : nat) : M St value :=
  match v with
  | VList l =>
      match l !! i with
      | Some x => ret x
      | None => raise (mkExc IndexError [VStr "list index out of range"])
      end
  | VStr s =>
      match String.get i s with
      | Some c => ret (VStr (String c EmptyString))
      | None => raise (mkExc IndexError [VStr "string index out of range"])
      end
  | VDict _ => raise (mkExc (OtherException "KeyError") [VInt (Z.of_nat i)])
  | _ => raise (mkExc TypeError [VStr "object is not subscriptable"])
  end.

Fixpoint vdict_get (d : list (string * value)) (key : string) : option value :=
  match d with
  | [] => None
  | (k, v) :: d' => if String.eqb k key then Some v else vdict_get d' key
  end.

Fixpoint vdict_set (d : list (string * value)) (key : string) (v : value)
  : list (string * value) :=
  match d with
  | [] => [(key, v)]
  | (k, v') :: d' =>
      if String.eqb k key then (k, v) :: d' else (k, v') :: vdict_set d' key v
  end.

(** [assert_utils.assert_true(cond, msg)].  Modelled from the spec: the
    module is not among the sources; an assertion that does not hold is a
    hard failure of the test (§7), here an AssertionError with the message. *)
Definition assert_true {St} (cond : bool) (msg : value) : M St unit :=
  if cond then ret () else raise (mkExc AssertionError [msg]).

Definition no_attribute {St A} (name : string) : M St A :=
  raise (mkExc AttributeError [VStr ("no attribute '" +:+ name +:+ "'")]).

(** [d[key]] and [d.get(key)] on a dict; a key that is no string is not
    in it. *)
Definition dict_item {St} (d : list (string * value)) (key : string) : M St value :=
  match vdict_get d key with
  | Some v => ret v
  | None => raise (mkExc (OtherException "KeyError") [VStr key])
  end.
Definition subscript {St} (v : value) (key : string) : M St value :=
  match v with
  | VDict d => dict_item d key
  | _ => raise (mkExc TypeError [VStr "object is not subscriptable"])
  end.
Definition dict_get_value {St} (v : value) (key : value) : M St value :=
  match v, key with
  | VDict d, VStr k => ret (default VNone (vdict_get d k))
  | VDict d, (VList _ | VDict _) =>
      raise (mkExc TypeError [VStr "unhashable type"])
  | VDict d, _ => ret VNone
  | _, _ => no_attribute "get"
  end.

Definition string_of {St} (v : value) : M St string :=
  match v with
  | VStr s => ret s
  | _ => raise (mkExc TypeError [VStr "expected str"])
  end.

(** [for x in v]: the elements of a list, the keys of a dict. *)
Definition iter {St} (v : value) : M St (list value) :=
  match v with
  | VList l => ret l
  | VDict d => ret ((λ kv, VStr kv.1) <$> d)
  | _ => raise (mkExc TypeError [VStr "object is not iterable"])
  end.

(** The binding of the arguments of a call to the parameters of a
    function [def f(p1, ..., pn=default)] without [*args] and [**kwargs]:
    positional arguments first, then the keywords, then the defaults; the
    result lists the parameters with their values.  Whatever is wrong with
    the call is a TypeError. *)
Definition type_error (msg : string) : exc := mkExc TypeError [VStr msg].

Fixpoint check_keywords (bound : list (string * value))
    (rest : list (string * option value)) (kwargs : list (string * value))
  : result exc unit :=
  match kwargs with
  | [] => Ok ()
  | (k, _) :: kwargs' =>
      if bool_decide (k ∈ bound.*1)
      then Raise (type_error ("got multiple values for argument '" +:+ k +:+ "'"))
      else if bool_decide (k ∈ rest.*1) then check_keywords bound rest kwargs'
      else Raise (type_error ("got an unexpected keyword argument '" +:+ k +:+ "'"))
  end.

Fixpoint bind_rest (rest : list (string * option value)) (kwargs : list (string * value))
  : result exc (list (string * value)) :=
  match rest with
  | [] => Ok []
  | (p, dflt) :: rest' =>
      match vdict_get kwargs p, dflt with
      | Some v, _ | None, Some v =>
          match bind_rest rest' kwargs with
          | Ok bound => Ok ((p, v) :: bound)
          | Raise e => Raise e
          end
      | None, None =>
          Raise (type_error ("missing a required argument: '" +:+ p +:+ "'"))
      end
  end.

Definition bind_args (params : list (string * option value)) (args : list value)
    (kwargs : list (string * value)) : result exc (list (string * value)) :=
  let bound := zip params.*1 args in
  let rest := drop (length args) params in
  match check_keywords bound rest kwargs with
  | Raise e => Raise e
  | Ok _ =>
      if length params <? length args
      then Raise (type_error "too many positional arguments")
      else
        match bind_rest rest kwargs with
        | Ok bound' => Ok (bound ++ bound')
        | Raise e => Raise e
        end
  end.

(** A relation between the states before and after that a computation
    keeps, whatever its outcome. *)
Definition preserves {St A} (R : relation St) (m : M St A) : Prop :=
  ∀ st r st', m st = (r, st') → R st st'.
End Py.

#[global] Instance py_ret {St} : MRet (Py.M St) := λ A, Py.ret.
#[global] Instance py_bind {St} : MBind (Py.M St) := λ A B k m, Py.bind m k.

(** * [libs/s3/s3_test_lib.py] *)

Module S3TestLib.
Import Py.

(** The calls that reach the S3 client. *)
Inductive s3call :=
  | CreateBucket (bucket_name : string)
  | BucketList
  | DeleteBucket (bucket_name : string) (force : bool)
  | ObjectUpload (bucket_name object_name file_path : string)
  | GetObject (bucket_name object_name : string)
  | UploadFile (file_path bucket_name object_name : string) (size : Z).

(** The methods of the base class [S3Lib] and of the boto3 client, on the
    world outside; the clock and the random numbers belong to it. *)
Class S3Lib (World : Type) := {
  s3_create_bucket : string → World → result exc value * World;
  s3_bucket_list : World → result exc (list string) * World;
  s3_delete_bucket : string → bool → World → result exc value * World;
  s3_object_upload : string → string → string → World → result exc value * World;
  s3_get_object : string → string → World → result exc value * World;
  s3_upload_file : string → string → string → World → result exc unit * World;
  time_str : World → string * World;
  rand : Z → Z → World → Z * World;
  (* the [args] of the OSError of an [open(path, 'wb')] that fails *)
  open_error : string → list value
}.

(** The world, the calls made so far (a history variable), the files of
    the local disk with their sizes, and the list objects of the heap. *)
Record state {World : Type} := mkState {
  world : World;
  calls : list s3call;
  files : gmap string Z;
  lists : gmap addr (list string)
}.
Arguments state : clear implicits.
Arguments mkState {World}.

(** An entry of the response of [create_multiple_buckets_with_objects]:
    the [Objects] of the dict is a reference to a list. *)
Record bucket_entry := mkEntry { Bucket : bool * value; Objects : addr }.

Record delete_response := mkResponse { Deleted : list string; CouldNotDelete : list string }.

Section Lib.
Context {World : Type} `{!S3Lib World}.
(** [errorcodes.S3_CLIENT_ERROR], the [args] of a [CTException] made from
    a code and a message, whether [open(path, 'wb')] succeeds, and the
    message of [randint] on an empty range. *)
Variable S3_CLIENT_ERROR : value.
Variable ct_args : value → value → list value.
Variable writable : string → bool.
Variable empty_range_msg : Z → Z → value.

Local Abbreviation M := (Py.M (state World)).

(** A call of the client, logged. *)
Definition client {A} (c : s3call) (op : World → result exc A * World) : M A :=
  λ st, let '(r, w) := op (world st) in
        (r, mkState w (calls st ++ [c]) (files st) (lists st)).

Definition now : M string :=
  λ st, let '(t, w) := time_str (world st) in
        (Ok t, mkState w (calls st) (files st) (lists st)).

(** [raise CTException(err.S3_CLIENT_ERROR, error.args[0])] in a handler
    [except Exception] ([base] false) or [except BaseException]. *)
Definition reraise {A} (base : bool) (error : exc) : M A :=
  if base || is_Exception error then
    a ← first_arg (args error);
    raise (mkExc CTException (ct_args S3_CLIENT_ERROR a))
  else raise error.

Definition create_bucket (bucket_name : string) : M (bool * value) :=
  try_except
    (response ← client (CreateBucket bucket_name) (s3_create_bucket bucket_name);
     ret (true, response))
    (reraise false).

Definition bucket_list : M (bool * list string) :=
  try_except
    (response ← client BucketList s3_bucket_list;
     ret (true, response))
    (reraise false).

Definition bucket_count : M (bool * nat) :=
  try_except
    (response ← client BucketList s3_bucket_list;
     ret (true, length response))
    (reraise false).

Definition object_upload (bucket_name object_name file_path : string)
  : M (bool * value) :=
  try_except
    (response ← client (ObjectUpload bucket_name object_name file_path)
                  (s3_object_upload bucket_name object_name file_path);
     ret (true, response))
    (reraise true).

Definition delete_bucket (bucket_name : string) (force : bool) : M (bool * value) :=
  try_except
    (response ← client (DeleteBucket bucket_name force)
                  (s3_delete_bucket bucket_name force);
     ret (true, response))
    (reraise false).

(** [ranges] is accepted and not passed on. *)
Definition get_object (bucket_name object_name : string) (ranges : value)
  : M (bool * value) :=
  try_except
    (response ← client (GetObject bucket_name object_name)
                  (s3_get_object bucket_name object_name);
     ret (true, response))
    (reraise false).

(** The loop of [delete_multiple_buckets] over the rest of the list. *)
Fixpoint delete_each (bucket_list : list string) (response_dict : delete_response)
  : M delete_response :=
  match bucket_list with
  | [] => ret response_dict
  | bucket :: rest =>
      response ← delete_bucket bucket true;
      if (response.1 : bool)
      then delete_each rest (mkResponse (Deleted response_dict ++ [bucket])
                                        (CouldNotDelete response_dict))
      else delete_each rest (mkResponse (Deleted response_dict)
                                        (CouldNotDelete response_dict ++ [bucket]))
  end.

Definition delete_multiple_buckets (bucket_list : list string)
  : M (bool * delete_response) :=
  response_dict ← delete_each bucket_list (mkResponse [] []);
  match CouldNotDelete response_dict with
  | _ :: _ => ret (false, response_dict)
  | [] => ret (true, response_dict)
  end.

Definition delete_all_buckets : M (bool * (bool * delete_response)) :=
  all_buckets ← bucket_list;
  response ← delete_multiple_buckets all_buckets.2;
  ret (true, response).

(** [list()] and [l.append(x)] on the heap. *)
Definition new_list : M addr :=
  λ st, let a := fresh (dom (lists st)) in
        (Ok a, mkState (world st) (calls st) (files st) (<[a:=[]]> (lists st))).
Definition list_append (a : addr) (x : string) : M unit :=
  modify (λ st, mkState (world st) (calls st) (files st)
                  (<[a := default [] (lists st !! a) ++ [x]]> (lists st))).

Definition auto_obj (obj : nat) : string := "auto-obj-" +:+ pretty obj.

(** The inner loop of [create_multiple_buckets_with_objects]. *)
Fixpoint upload_each (objs : list nat) (bucket_name file_path : string)
    (obj_list : addr) : M unit :=
  match objs with
  | [] => ret ()
  | obj :: rest =>
      let object_name := auto_obj obj in
      object_upload bucket_name object_name file_path;;
      list_append obj_list object_name;;
      upload_each rest bucket_name file_path obj_list
  end.

(** Its outer loop. *)
Fixpoint create_each (counts : list nat) (file_path : string) (obj_count : Z)
    (obj_list : addr) (response : list bucket_entry) : M (list bucket_entry) :=
  match counts with
  | [] => ret response
  | count :: rest =>
      t ← now;
      let bucket_name := "bvtbucket-" +:+ pretty count +:+ "-" +:+ t in
      resp_bucket ← create_bucket bucket_name;
      upload_each (range obj_count) bucket_name file_path obj_list;;
      create_each rest file_path obj_count obj_list
        (response ++ [mkEntry resp_bucket obj_list])
  end.

Definition create_multiple_buckets_with_objects (bucket_count : Z)
    (file_path : string) (obj_count : Z) : M (bool * list bucket_entry) :=
  obj_list ← new_list;
  response ← try_except
               (create_each (range bucket_count) file_path obj_count obj_list [])
               (reraise false);
  ret (true, response).

(** What an entry's [Objects] holds when the response is read. *)
Definition objects_of (st : state World) (e : bucket_entry) : list string :=
  default [] (lists st !! Objects e).

(** The local disk: [os.path.exists], [os.remove], and
    [with open(path, 'wb') as fout: fout.write(os.urandom(n))] with [n]
    the outcome of the argument's evaluation. *)
Definition path_exists (path : string) : M bool :=
  λ st, (Ok (bool_decide (is_Some (files st !! path))), st).
Definition set_files (f : gmap string Z → gmap string Z) : M unit :=
  modify (λ st, mkState (world st) (calls st) (f (files st)) (lists st)).
Definition os_remove (path : string) : M unit :=
  present ← path_exists path;
  if (present : bool) then set_files (delete path)
  else raise (mkExc OSError [VInt 2; VStr "No such file or directory"]).
Definition open_wb (path : string) : M unit :=
  if writable path then set_files (<[path:=0%Z]>)
  else raise (mkExc OSError (open_error path)).
Definition randint (a b : Z) : M Z :=
  if (a <=? b)%Z
  then λ st, let '(n, w) := rand a b (world st) in
             (Ok n, mkState w (calls st) (files st) (lists st))
  else raise (mkExc ValueError [empty_range_msg a b]).
Definition urandom (n : Z) : M Z :=
  if (n <? 0)%Z then raise (mkExc ValueError [VStr "negative argument not allowed"])
  else ret n.
Definition write_random (path : string) (min_size max_size : Z) : M unit :=
  open_wb path;;
  n ← randint (1024000 * min_size) (1024000 * max_size);
  size ← urandom n;
  set_files (<[path:=size]>).
Definition upload_file (file_path bucket_name object_name : string) : M unit :=
  st ← get;
  client (UploadFile file_path bucket_name object_name
            (default 0%Z (files st !! file_path)))
         (s3_upload_file file_path bucket_name object_name).

(** The loop of [put_random_size_objects]. *)
Fixpoint put_each (objs : list nat) (bucket_name object_name : string)
    (min_size max_size : Z) (file_path : string) (objects_list : list string)
  : M (list string) :=
  match objs with
  | [] => ret objects_list
  | obj :: rest =>
      t ← now;
      let objects := object_name +:+ "_" +:+ pretty obj +:+ "_" +:+ t in
      present ← path_exists file_path;
      (if (present : bool) then os_remove file_path else mret ());;
      write_random file_path min_size max_size;;
      upload_file file_path bucket_name objects;;
      os_remove file_path;;
      put_each rest bucket_name object_name min_size max_size file_path
        (objects_list ++ [objects])
  end.

Definition put_random_size_objects (bucket_name object_name : string)
    (min_size max_size object_count : Z) (file_path : string)
  : M (bool * list string) :=
  objects_list ← try_except
                   (put_each (range object_count) bucket_name object_name
                      min_size max_size file_path [])
                   (reraise true);
  ret (true, objects_list).

(** The sizes of the uploads among calls. *)
Definition upload_sizes (cs : list s3call) : list Z :=
  omap (λ c, match c with UploadFile _ _ _ size => Some size | _ => None end) cs.

(** A computation that leaves the disk and the heap alone. *)
Definition keeps_local {A} (m : M A) : Prop :=
  ∀ st r st', m st = (r, st') → files st' = files st ∧ lists st' = lists st.

(** [randint(a, b)] on a range that is not empty is within it. *)
Definition rand_in_range : Prop :=
  ∀ a b (w : World), (a ≤ b)%Z → (a ≤ (rand a b w).1 ≤ b)%Z.
End Lib.
End S3TestLib.

(** A store of bucket names for the scenarios: a bucket is made once,
    and deleted or written to when it is there; the clock stands still and
    [randint] gives the lower bound. *)
Definition no_such_bucket : Py.exc :=
  Py.mkExc (Py.OtherException "ClientError") [VStr "NoSuchBucket"].
#[global] Instance demo_s3 : S3TestLib.S3Lib (list string) := {|
  S3TestLib.s3_create_bucket b w :=
    if decide (b ∈ w)
    then (Raise (Py.mkExc (Py.OtherException "ClientError") [VStr "BucketAlreadyOwnedByYou"]), w)
    else (Ok VNone, w ++ [b]);
  S3TestLib.s3_bucket_list w := (Ok w, w);
  S3TestLib.s3_delete_bucket b force w :=
    if decide (b ∈ w) then (Ok VNone, filter (λ x, x ≠ b) w)
    else (Raise no_such_bucket, w);
  S3TestLib.s3_object_upload b o f w :=
    if decide (b ∈ w) then (Ok VNone, w) else (Raise no_such_bucket, w);
  S3TestLib.s3_get_object b o w :=
    (Raise (Py.mkExc (Py.OtherException "ClientError") [VStr "NoSuchKey"]), w);
  S3TestLib.s3_upload_file f b o w :=
    if decide (b ∈ w) then (Ok (), w) else (Raise no_such_bucket, w);
  S3TestLib.time_str w := ("1.5", w);
  S3TestLib.rand a b w := (a, w);
  S3TestLib.open_error path := [VInt 13; VStr "Permission denied"]
|}.

Definition demo_ct_args (code msg : value) : list value := [code; msg].
Definition demo_store (buckets : list string) (fs : gmap string Z)
  : S3TestLib.state (list string) :=
  S3TestLib.mkState buckets [] fs ∅.
Definition demo_deleted :=
  S3TestLib.delete_all_buckets (VStr "S3_CLIENT_ERROR") demo_ct_args
    (demo_store ["a"; "b"] ∅).
Definition demo_created :=
  S3TestLib.create_multiple_buckets_with_objects (VStr "S3_CLIENT_ERROR")
    demo_ct_args 2 "/tmp/f" 3 (demo_store [] ∅).
Definition demo_put :=
  S3TestLib.put_random_size_objects (VStr "S3_CLIENT_ERROR") demo_ct_args
    (λ _, true) (λ _ _, VStr "empty range for randrange()")
    "bkt" "obj" 1 2 2 "/tmp/f" (demo_store ["bkt"] {["/tmp/f" := 7%Z]}).

(** * [libs/prov/prov_k8s_cortx_deploy.py]: the class as its users see it *)

Module ProvDeployK8sCortxLib.
Import Py.

(** What [class ProvDeployK8sCortxLib] defines, and what [__init__] sets;
    the class has no base class and no [__getattr__]. *)
Definition methods : list string :=
  ["__init__"; "setup_k8s_cluster"; "prereq_vm"; "prereq_local_path_prov";
   "prereq_glusterfs"; "prereq_3rd_party_srv"; "docker_login"; "prereq_git";
   "deploy_cluster"; "deploy_cortx_cluster"].
Definition attributes : list string := ["deploy_cfg"].

(** [obj.name] on an instance. *)
Definition getattr {St} (name : string) : M St string :=
  if bool_decide (name ∈ methods ++ attributes) then ret name
  else raise (mkExc AttributeError
                [VStr ("'ProvDeployK8sCortxLib' object has no attribute '"
                       +:+ name +:+ "'")]).

(** A node ([LogicalNode]); what happens on the nodes and on the runner
    (a history variable); and what the library relies on: the commands of
    [commons.commands], the values of [PROV_CFG], the methods of the node,
    the Jenkins job, the health check and the local files. *)
Record node := mkNode { hostname : string; username : string; password : string }.

Inductive event :=
  | Cmd (host : string) (cmd : string)
  | MakeDir (host : string) (path : string)
  | CopyFile (host : string) (local_path remote_path : string)
  | HealthCheck (host : string)
  | BuildJob (job_name : string) (hosts : string) (taint : bool)
  | LoadSolution (path : string).

Class Env (World : Type) := {
  CMD_PING : string → string;
  CMD_LSBLK : string;
  CMD_OS_REL : string;
  CMD_KRNL_VER : string;
  CMD_MKFS_EXT4 : string;
  CMD_MOUNT_EXT4 : string → string → string;
  RPM_INSTALL_CMD : string → string;
  CMD_DOCKER_LOGIN : string → string → string;
  CMD_REMOVE_DIR : string → string;
  CMD_GIT_CLONE : string → string;
  CMD_GIT_CHECKOUT : string → string;
  min_disks : Z;
  in_os_release : string → bool;
  in_kernel : string → bool;
  local_path_prov : string;
  glusterfs_dir : list string;
  gluster_pkg : string;
  third_party_dir : list string;
  git_k8_repo : string → string → string;
  git_tag : string;
  deploy_cluster_cmd : string;
  git_remote_dir : string;
  job_name : string;
  auth_token : string;
  jenkins_url : string;
  execute_cmd : node → string → World → result exc (list string) * World;
  make_dir : node → string → World → result exc unit * World;
  copy_file_to_remote : node → string → string → World → result exc unit * World;
  path_exists : string → World → bool;
  (* Provisioner.build_job(...): output['url'] and output['result'] *)
  build_job : string → string → bool → string → string → World
              → result exc (string * string) * World;
  all_cluster_services_online : node → World → result exc (bool * value) * World;
  (* yaml.safe_load(open(path)) *)
  safe_load : string → World → result exc value * World;
  int_of : string → result exc Z;
  strip : string → string
}.

Record state {World : Type} := mkState { world : World; events : list event }.
Arguments state : clear implicits.
Arguments mkState {World}.

Section Lib.
Context {World : Type} `{!Env World}.

Local Abbreviation M := (Py.M (state World)).

Definition on {A} (ev : event) (op : World → result exc A * World) : M A :=
  λ st, let '(r, w) := op (world st) in (r, mkState w (events st ++ [ev])).

Definition run_cmd (node_obj : node) (cmd : string) : M (list string) :=
  on (Cmd (hostname node_obj) cmd) (execute_cmd node_obj cmd).

(** [lines[0]]. *)
Definition first_line (lines : list string) : M string :=
  match lines with
  | line :: _ => ret line
  | [] => raise (mkExc IndexError [VStr "list index out of range"])
  end.

Definition host_line (each : node) : string :=
  "hostname=" +:+ hostname each +:+ ",user=" +:+ username each
  +:+ ",pass=" +:+ password each.

(** [sep.join(lines)]. *)
Fixpoint join (sep : string) (lines : list string) : string :=
  match lines with
  | [] => ""
  | [line] => line
  | line :: rest => line +:+ sep +:+ join sep rest
  end.

Definition newline : string := String (Ascii.ascii_of_nat 10) "".
Definition dquote : string := String (Ascii.ascii_of_nat 34) "".

Definition setup_k8s_cluster (master_node_list worker_node_list : list node)
    (taint_master : bool) : M (bool * string) :=
  match master_node_list with
  | [] => ret (false, "Master Node List is empty")
  | master :: _ =>
      let hosts_input_str := [host_line master] in
      match worker_node_list with
      | [] => ret (false, "Worker Node List is empty")
      | _ :: _ =>
          let hosts_input_str := hosts_input_str ++ (host_line <$> worker_node_list) in
          let hosts := join newline hosts_input_str in
          output ← on (BuildJob job_name hosts taint_master)
                      (build_job job_name hosts taint_master auth_token jenkins_url);
          if String.eqb output.2 "SUCCESS" then ret (true, output.2)
          else ret (false, output.2)
      end
  end.

Definition prereq_vm (node_obj : node) : M (bool * string) :=
  run_cmd node_obj (CMD_PING (hostname node_obj));;
  count ← run_cmd node_obj CMD_LSBLK;
  first ← first_line count;
  disks ← (match int_of first with Ok n => ret n | Raise e => raise e end);
  if (disks <? min_disks)%Z
  then ret (false, "Need at least " +:+ pretty min_disks +:+ " disks for deployment")
  else
    lines ← run_cmd node_obj CMD_OS_REL;
    line ← first_line lines;
    let resp := strip line in
    if negb (in_os_release resp)
    then ret (false, "OS version is different than expected.")
    else
      lines ← run_cmd node_obj CMD_KRNL_VER;
      line ← first_line lines;
      let resp := strip line in
      if negb (in_kernel resp)
      then ret (false, "Kernel Version is different than expected.")
      else ret (true, "Prerequisite VM check successful").

Fixpoint umount_each (node_obj : node) (resp : list string) : M unit :=
  match resp with
  | [] => ret ()
  | mp :: rest => run_cmd node_obj ("umount " +:+ mp);; umount_each node_obj rest
  end.

Definition prereq_local_path_prov (node_obj : node) (disk_partition : string) : M unit :=
  on (MakeDir (hostname node_obj) local_path_prov) (make_dir node_obj local_path_prov);;
  let cmd := "lsblk | grep " +:+ dquote +:+ disk_partition +:+ dquote
             +:+ " |awk '{print $7}'" in
  resp ← run_cmd node_obj cmd;
  umount_each node_obj resp;;
  run_cmd node_obj CMD_MKFS_EXT4;;
  run_cmd node_obj (CMD_MOUNT_EXT4 disk_partition local_path_prov);;
  ret ().

Fixpoint make_dirs (node_obj : node) (dirs : list string) : M unit :=
  match dirs with
  | [] => ret ()
  | each :: rest =>
      on (MakeDir (hostname node_obj) each) (make_dir node_obj each);;
      make_dirs node_obj rest
  end.

Definition prereq_glusterfs (node_obj : node) : M unit :=
  make_dirs node_obj glusterfs_dir;;
  run_cmd node_obj (RPM_INSTALL_CMD gluster_pkg);;
  ret ().

Definition prereq_3rd_party_srv (node_obj : node) : M unit :=
  make_dirs node_obj third_party_dir.

Definition docker_login (node_obj : node) (docker_user docker_pswd : string) : M unit :=
  run_cmd node_obj (CMD_DOCKER_LOGIN docker_user docker_pswd);;
  ret ().

Definition prereq_git (node_obj : node) (git_id git_token : string) : M unit :=
  run_cmd node_obj (CMD_REMOVE_DIR "cortx-k8s");;
  let url := git_k8_repo git_id git_token in
  run_cmd node_obj (CMD_GIT_CLONE url);;
  let cmd := "cd cortx-k8s && " +:+ CMD_GIT_CHECKOUT git_tag in
  run_cmd node_obj cmd;;
  ret ().

Definition deploy_cluster (node_obj : node) (local_sol_path remote_code_path : string)
  : M (bool * value) :=
  let remote_path := remote_code_path +:+ "solution.yaml" in
  present ← (λ st, (Ok (path_exists local_sol_path (world st)), st));
  if (present : bool) then
    on (CopyFile (hostname node_obj) local_sol_path remote_path)
       (copy_file_to_remote node_obj local_sol_path remote_path);;
    let cmd := "cd " +:+ remote_code_path +:+ "; " +:+ deploy_cluster_cmd in
    resp ← run_cmd node_obj cmd;
    ret (true, VList (VStr <$> resp))
  else ret (false, VStr (local_sol_path +:+ " not found")).

(** The loop of [deploy_cortx_cluster] over the worker nodes. *)
Fixpoint prepare_workers (worker_node_list : list node) : M unit :=
  match worker_node_list with
  | [] => ret ()
  | node :: rest =>
      resp ← prereq_vm node;
      assert_true (resp.1 : bool) (VStr resp.2);;
      prereq_local_path_prov node "/dev/sdb";;
      prereq_glusterfs node;;
      prereq_3rd_party_srv node;;
      prepare_workers rest
  end.

(** [master_node_list[0]]. *)
Definition first_node (nodes : list node) : M node :=
  match nodes with
  | node :: _ => ret node
  | [] => raise (mkExc IndexError [VStr "list index out of range"])
  end.

Definition deploy_cortx_cluster (solution_file_path : string)
    (master_node_list worker_node_list : list node)
    (docker_username docker_password git_id git_token : string) : M (bool * value) :=
  on (LoadSolution solution_file_path) (safe_load solution_file_path);;
  if bool_decide (length master_node_list = 0)
  then ret (false, VStr "Minimum one master node needed for deployment")
  else if bool_decide (length worker_node_list = 0)
  then ret (false, VStr "Minimum one worker node needed for deployment")
  else
    prepare_workers worker_node_list;;
    master ← first_node master_node_list;
    docker_login master docker_username docker_password;;
    master ← first_node master_node_list;
    prereq_git master git_id git_token;;
    master ← first_node master_node_list;
    resp ← deploy_cluster master solution_file_path git_remote_dir;
    if (resp.1 : bool) then
      master ← first_node master_node_list;
      on (HealthCheck (hostname master)) (all_cluster_services_online master)
    else ret resp.

(** The node that an event is on; the runner has none. *)
Definition host_of (ev : event) : option string :=
  match ev with
  | Cmd host _ | MakeDir host _ | CopyFile host _ _ | HealthCheck host => Some host
  | BuildJob _ _ _ | LoadSolution _ => None
  end.

(** The events that a step adds are all of some kind. *)
Definition adds (P : event → Prop) : relation (state World) :=
  λ st st', ∃ evs, events st' = events st ++ evs ∧ Forall P evs.

(** The events on a host, and on one of the nodes of a list. *)
Definition on_host (host : string) (ev : event) : Prop := host_of ev = Some host.
Definition on_nodes (nodes : list node) (ev : event) : Prop :=
  ∃ n, n ∈ nodes ∧ host_of ev = Some (hostname n).
End Lib.
End ProvDeployK8sCortxLib.

(** * [tests/ha/multi_pod_failure/test_multi_data_pod_failure.py] *)

Module TestMultiDataPodFailure.
Import Py.

(** The calls that leave the test. *)
Inductive hacall :=
  | CheckClusterStatus (node : value)
  | RestartCluster (node : value)
  | GetConfigValue (node : value)
  | DeleteS3AccBucketsObjects (s3_clean : value)
  | DeleteKpod (kwargs : list (string * value))
  | RestorePod (pod_obj restore_method deployment_name deployment_backup : value)
  | GetAllPods (node : value)
  | GetPodHostname (node pod_name : value)
  | DeleteDeployment (node pod_name : value)
  | Sample (population : list value) (k : Z)
  | MakeDirs (path : string)
  | RemoveDirs (path : string)
  | ProvCall (name : string) (args : list value)
  | Construct (class : string) (kwargs : list (string * value)).

(** The libraries under the test ([HAK8s], [LogicalNode], [os],
    [secrets], [time]) and the configuration, on the world outside. *)
Class Cluster (World : Type) := {
  check_cluster_status : value → World → result exc (bool * value) * World;
  restart_cluster : value → World → result exc (bool * value) * World;
  get_config_value : value → World → result exc (bool * value) * World;
  (* int(resp[1]['cluster']['storage_set'][0]['durability']['sns']['parity']) *)
  parity_of : value → result exc Z;
  delete_s3_acc_buckets_objects : value → World → result exc (bool * value) * World;
  delete_kpod_with_shutdown_methods :
    list (string * value) → World → result exc (bool * list (string * value)) * World;
  restore_pod : value → value → value → value → World → result exc (bool * value) * World;
  get_all_pods : value → World → result exc (list value) * World;
  get_pod_hostname : value → value → World → result exc value * World;
  delete_deployment : value → value → World → result exc (bool * value * value) * World;
  sample : list value → Z → World → result exc (list value) * World;
  perf_counter_ns : World → Z * World;
  path_exists : string → World → bool;
  make_dirs : string → World → result exc unit * World;
  remove_dirs : string → World → result exc unit * World;
  path_join : string → string → string;
  prov_call : string → list value → World → result exc (bool * value) * World;
  (* the constructor of a class of the libraries, by its keyword arguments *)
  construct : string → list (string * value) → World → result exc unit * World;
  RESTORE_DEPLOYMENT_K8S : value;
  RESTORE_SCALE_REPLICAS : value;
  POD_NAME_PREFIX : value;
  K8S_SCRIPTS_PATH : value;
  K8S_PRE_DISK : value;
  TEST_DATA_FOLDER : string;
  csm_admin_user : value * value;
  S3_CFG_s3_url : value;
  CMN_CFG_nodes : list (list (string * value))
}.

(** The world, the calls made so far (a history variable), the attributes
    of the class, which its instances share, and those of the instance that
    runs the test. *)
Record state {World : Type} := mkState {
  world : World;
  calls : list hacall;
  cls : gmap string value;
  self : gmap string value
}.
Arguments state : clear implicits.
Arguments mkState {World}.

Section Test.
Context {World : Type} `{!Cluster World}.

Local Abbreviation M := (Py.M (state World)).

(** A call of a library, logged. *)
Definition lib {A} (c : hacall) (op : World → result exc A * World) : M A :=
  λ st, let '(r, w) := op (world st) in
        (r, mkState w (calls st ++ [c]) (cls st) (self st)).

(** [cls.name = v], [self.name = v] and [self.name]: the instance first,
    then its class. *)
Definition set_cls (name : string) (v : value) : M unit :=
  modify (λ st, mkState (world st) (calls st) (<[name:=v]> (cls st)) (self st)).
Definition setattr (name : string) (v : value) : M unit :=
  modify (λ st, mkState (world st) (calls st) (cls st) (<[name:=v]> (self st))).
Definition getattr (name : string) : M value :=
  λ st, match self st !! name with
        | Some v => (Ok v, st)
        | None =>
            match cls st !! name with
            | Some v => (Ok v, st)
            | None => no_attribute name st
            end
        end.
Definition get_cls (name : string) : M value :=
  λ st, match cls st !! name with
        | Some v => (Ok v, st)
        | None => no_attribute name st
        end.

(** [self.name.append(x)] and [self.name[key] = v]: the object changed is
    the one that the lookup finds, the list or dict of the class when the
    instance has no attribute of that name. *)
Definition update_attr (name : string) (f : value → M value) : M unit :=
  λ st, match self st !! name with
        | Some v =>
            match f v st with
            | (Ok v', st') =>
                (Ok (), mkState (world st') (calls st') (cls st') (<[name:=v']> (self st')))
            | (Raise e, st') => (Raise e, st')
            end
        | None =>
            match cls st !! name with
            | Some v =>
                match f v st with
                | (Ok v', st') =>
                    (Ok (), mkState (world st') (calls st') (<[name:=v']> (cls st')) (self st'))
                | (Raise e, st') => (Raise e, st')
                end
            | None => no_attribute name st
            end
        end.
(** [cls.name.append(x)] in a class method. *)
Definition update_cls (name : string) (f : value → M value) : M unit :=
  v ← get_cls name; v' ← f v; set_cls name v'.
Definition list_append (x : value) (v : value) : M value :=
  match v with
  | VList l => ret (VList (l ++ [x]))
  | _ => no_attribute "append"
  end.
Definition dict_setitem (key : string) (x : value) (v : value) : M value :=
  match v with
  | VDict d => ret (VDict (vdict_set d key x))
  | _ => raise (mkExc TypeError [VStr "object does not support item assignment"])
  end.
Definition append_attr (name : string) (x : value) : M unit :=
  update_attr name (list_append x).
Definition setitem_attr (name key : string) (x : value) : M unit :=
  update_attr name (dict_setitem key x).

(** [self.node_master_list[0]] and [self.hlth_master_list[0]]. *)
Definition first_of (name : string) : M value :=
  l ← getattr name; getitem l 0.

(** An object of a class of the libraries, by its constructor's arguments. *)
Definition object (class : string) (hostname username password : value) : value :=
  VDict [("__class__", VStr class); ("hostname", hostname);
         ("username", username); ("password", password)].

(** A call [Class(name=value, ...)] of a class of the libraries: the
    constructor is library code, a call that is logged and that can raise;
    the object it makes is known by its class and the arguments it was
    made with. *)
Definition new_object (class : string) (kwargs : list (string * value)) (obj : value)
    : M value :=
  lib (Construct class kwargs) (construct class kwargs);; ret obj.
Definition node_kwargs (hostname username password : value) : list (string * value) :=
  [("hostname", hostname); ("username", username); ("password", password)].

(** One turn of the loop of [setup_class], for the node at index [node]. *)
Definition setup_node (node : nat) : M unit :=
  cfg ← match CMN_CFG_nodes !! node with
        | Some cfg => ret cfg
        | None => raise (mkExc IndexError [VStr "list index out of range"])
        end;
  host ← dict_item cfg "hostname";
  set_cls "host" host;;
  u ← dict_item cfg "username";
  update_cls "username" (list_append u);;
  p ← dict_item cfg "password";
  update_cls "password" (list_append p);;
  node_type ← dict_item cfg "node_type";
  usernames ← get_cls "username";
  username ← getitem usernames node;
  passwords ← get_cls "password";
  password ← getitem passwords node;
  match node_type with
  | VStr "master" =>
      node_obj ← new_object "LogicalNode" (node_kwargs host username password)
                   (object "LogicalNode" host username password);
      update_cls "node_master_list" (list_append node_obj);;
      hlth_obj ← new_object "Health" (node_kwargs host username password)
                   (object "Health" host username password);
      update_cls "hlth_master_list" (list_append hlth_obj)
  | _ =>
      node_obj ← new_object "LogicalNode" (node_kwargs host username password)
                   (object "LogicalNode" host username password);
      update_cls "node_worker_list" (list_append node_obj)
  end.

Fixpoint setup_nodes (nodes : list nat) : M unit :=
  match nodes with
  | [] => ret ()
  | node :: rest => setup_node node;; setup_nodes rest
  end.

(** The assignments of [setup_class] before its loop, and those after
    it. *)
Definition setup_attributes : M unit :=
  set_cls "csm_user" csm_admin_user.1;;
  set_cls "csm_passwd" csm_admin_user.2;;
  set_cls "username" (VList []);;
  set_cls "password" (VList []);;
  set_cls "node_master_list" (VList []);;
  set_cls "hlth_master_list" (VList []);;
  set_cls "node_worker_list" (VList []);;
  set_cls "pod_name_list" (VList []);;
  ha_obj ← new_object "HAK8s" [] (VStr "HAK8s");
  set_cls "ha_obj" ha_obj;;
  deploy_lc_obj ← new_object "ProvDeployK8sCortxLib" [] (VStr "ProvDeployK8sCortxLib");
  set_cls "deploy_lc_obj" deploy_lc_obj;;
  set_cls "s3_clean" VNone;; set_cls "test_prefix" VNone;;
  set_cls "s3acc_name" VNone;; set_cls "s3acc_email" VNone;;
  set_cls "bucket_name" VNone;; set_cls "object_name" VNone;;
  set_cls "restore_pod" VNone;; set_cls "deployment_backup" VNone;;
  set_cls "deployment_name" VNone;; set_cls "restore_method" VNone;;
  set_cls "node_name" VNone;; set_cls "deploy" VNone;;
  set_cls "kvalue" VNone;; set_cls "multipart_obj_path" VNone;;
  set_cls "pod_dict" (VDict []);;
  mgnt_ops ← new_object "ManagementOPs" [] (VStr "ManagementOPs");
  set_cls "mgnt_ops" mgnt_ops;;
  system_random ← new_object "SystemRandom" [] (VStr "SystemRandom");
  set_cls "system_random" system_random.

Definition setup_libraries : M unit :=
  rest_obj ← new_object "S3AccountOperations" [] (VStr "S3AccountOperations");
  set_cls "rest_obj" rest_obj;;
  s3_mp_test_obj ← new_object "S3MultipartTestLib" [("endpoint_url", S3_CFG_s3_url)]
                     (VStr "S3MultipartTestLib");
  set_cls "s3_mp_test_obj" s3_mp_test_obj;;
  set_cls "test_file" (VStr "ha-mp_obj");;
  set_cls "test_dir_path" (VStr (path_join TEST_DATA_FOLDER "HATestMultipartUpload")).

Definition setup_class : M unit :=
  setup_attributes;;
  setup_nodes (seq 0 (length CMN_CFG_nodes));;
  setup_libraries.

(** pytest runs each test on an instance of its own. *)
Definition new_instance : M unit :=
  modify (λ st, mkState (world st) (calls st) (cls st) ∅).

Definition now_ns : M Z :=
  λ st, let '(t, w) := perf_counter_ns (world st) in
        (Ok t, mkState w (calls st) (cls st) (self st)).
Definition exists_path (path : string) : M bool :=
  λ st, (Ok (path_exists path (world st)), st).

Definition setup_method : M unit :=
  setattr "deploy" (VBool false);;
  setattr "s3_clean" (VDict []);;
  master ← first_of "node_master_list";
  resp ← lib (CheckClusterStatus master) (check_cluster_status master);
  (if negb (resp.1 : bool) then
     master ← first_of "node_master_list";
     resp ← lib (RestartCluster master) (restart_cluster master);
     assert_true (resp.1 : bool) resp.2
   else mret ());;
  master ← first_of "node_master_list";
  resp ← lib (GetConfigValue master) (get_config_value master);
  (if (resp.1 : bool) then
     match parity_of resp.2 with
     | Ok k => setattr "kvalue" (VInt k)
     | Raise e => raise e
     end
   else setattr "kvalue" (VInt 1));;
  t ← now_ns;
  let s3acc_name := "ha_s3acc_" +:+ pretty t in
  setattr "s3acc_name" (VStr s3acc_name);;
  setattr "s3acc_email" (VStr (s3acc_name +:+ "@seagate.com"));;
  t ← now_ns;
  setattr "bucket_name" (VStr ("ha-mp-bkt-" +:+ pretty t));;
  t ← now_ns;
  setattr "object_name" (VStr ("ha-mp-obj-" +:+ pretty t));;
  setattr "restore_pod" VNone;;
  setattr "restore_method" VNone;;
  setattr "deployment_name" VNone;;
  setattr "deployment_backup" VNone;;
  dir ← getattr "test_dir_path";
  dir ← string_of dir;
  present ← exists_path dir;
  (if negb (present : bool) then lib (MakeDirs dir) (make_dirs dir) else mret ());;
  dir ← getattr "test_dir_path";
  dir ← string_of dir;
  file ← getattr "test_file";
  file ← string_of file;
  setattr "multipart_obj_path" (VStr (path_join dir file)).

(** One turn of the loop of [teardown_method] that restores the pods. *)
Definition restore_one (pod_name : value) : M unit :=
  pod_dict ← getattr "pod_dict";
  data ← dict_get_value pod_dict pod_name;
  n ← len data;
  names ←
    (if decide (n = 2)
     then
       pod_dict ← getattr "pod_dict";
       data ← dict_get_value pod_dict pod_name;
       deployment_name ← getitem data 1;
       mret (deployment_name, VNone)
     else
       pod_dict ← getattr "pod_dict";
       data ← dict_get_value pod_dict pod_name;
       deployment_name ← getitem data 2;
       pod_dict ← getattr "pod_dict";
       data ← dict_get_value pod_dict pod_name;
       deployment_backup ← getitem data 1;
       mret (deployment_name, deployment_backup));
  let deployment_name : value := names.1 in
  let deployment_backup : value := names.2 in
  master ← first_of "node_master_list";
  restore_method ← getattr "restore_method";
  resp ← lib (RestorePod master restore_method deployment_name deployment_backup)
           (restore_pod master restore_method deployment_name deployment_backup);
  restore_method ← getattr "restore_method";
  assert_true (resp.1 : bool) (VList [VStr "Failed to restore pod by "; restore_method]).

Fixpoint restore_each (pod_names : list value) : M unit :=
  match pod_names with
  | [] => ret ()
  | pod_name :: rest => restore_one pod_name;; restore_each rest
  end.

(** A method of [self.deploy_lc_obj]: it is looked up before the
    arguments of the call are evaluated. *)
Definition deploy_lc_obj_method (name : string) : M string :=
  ProvDeployK8sCortxLib.getattr name.
Definition call_method (name : string) (args : list value) : M (bool * value) :=
  lib (ProvCall name args) (prov_call name args).

Fixpoint prereq_workers (workers : list value) : M unit :=
  match workers with
  | [] => ret ()
  | node :: rest =>
      method ← deploy_lc_obj_method "execute_prereq_cortx";
      call_method method [node; K8S_SCRIPTS_PATH; K8S_PRE_DISK];;
      prereq_workers rest
  end.

(** [teardown_method], up to the removal of the directory. *)
Definition teardown_cleanup : M unit :=
  s3_clean ← getattr "s3_clean";
  (if truthy s3_clean then
     s3_clean ← getattr "s3_clean";
     resp ← lib (DeleteS3AccBucketsObjects s3_clean) (delete_s3_acc_buckets_objects s3_clean);
     assert_true (resp.1 : bool) resp.2
   else mret ());;
  restore ← getattr "restore_pod";
  (if truthy restore then
     pod_name_list ← getattr "pod_name_list";
     pod_names ← iter pod_name_list;
     restore_each pod_names
   else mret ());;
  dir ← getattr "test_dir_path";
  dir ← string_of dir;
  present ← exists_path dir;
  (if (present : bool) then
     dir ← getattr "test_dir_path";
     dir ← string_of dir;
     lib (RemoveDirs dir) (remove_dirs dir)
   else mret ()).

Definition teardown_method : M unit :=
  teardown_cleanup;;
  deploy ← getattr "deploy";
  (if truthy deploy then
     method ← deploy_lc_obj_method "destroy_setup";
     master ← first_of "node_master_list";
     workers ← getattr "node_worker_list";
     resp ← call_method method [master; workers; K8S_SCRIPTS_PATH];
     assert_true (resp.1 : bool) resp.2;;
     method ← deploy_lc_obj_method "execute_prereq_cortx";
     master ← first_of "node_master_list";
     call_method method [master; K8S_SCRIPTS_PATH; K8S_PRE_DISK];;
     workers ← getattr "node_worker_list";
     workers ← iter workers;
     prereq_workers workers;;
     method ← deploy_lc_obj_method "deploy_cluster";
     master ← first_of "node_master_list";
     resp_cls ← call_method method [master; K8S_SCRIPTS_PATH];
     assert_true (resp_cls.1 : bool) resp_cls.2
   else mret ());;
  master ← first_of "node_master_list";
  resp ← lib (CheckClusterStatus master) (check_cluster_status master);
  assert_true (resp.1 : bool) resp.2.

(** The loops that note the pods shut down: with the backup of the
    deployment (in most tests), and without. *)
Fixpoint note_pods (with_backup : bool) (resp1 : list (string * value))
    (pods : list (string * value)) : M unit :=
  match pods with
  | [] => ret ()
  | pod :: rest =>
      let pod_name : string := pod.1 in
      info ← dict_item resp1 pod_name;
      hostname ← subscript info "hostname";
      pod_data ← (if with_backup then
                    info ← dict_item resp1 pod_name;
                    backup ← subscript info "deployment_backup";
                    mret [hostname; backup]
                  else mret [hostname]);
      info ← dict_item resp1 pod_name;
      name ← subscript info "deployment_name";
      let pod_data : list value := pod_data ++ [name] in
      append_attr "pod_name_list" (VStr pod_name);;
      setitem_attr "pod_dict" pod_name (VList pod_data);;
      note_pods with_backup resp1 rest
  end.

(** The step that shuts K pods down: by deleting their deployments, as in
    [test_degraded_reads_kpods_failure], or by scaling the replicas down,
    as in [test_ios_during_data_kpods_down_safe]. *)
Definition shutdown_kpods (with_backup : bool) (kwargs : list (string * value))
    (restore_method : value) : M unit :=
  resp ← lib (DeleteKpod kwargs) (delete_kpod_with_shutdown_methods kwargs);
  let resp1 : list (string * value) := resp.2 in
  assert_true (truthy (VDict resp1)) (VStr "Failed to shutdown/delete pod");;
  note_pods with_backup resp1 resp1;;
  setattr "restore_pod" (VBool true);;
  setattr "deploy" (VBool true);;
  setattr "restore_method" restore_method;;
  assert_true (resp.1 : bool) (VStr "Cluster/Services status is not as expected").

Definition shutdown_by_deployment : M unit :=
  master ← first_of "node_master_list";
  health ← first_of "hlth_master_list";
  kvalue ← getattr "kvalue";
  shutdown_kpods true
    [("master_node_obj", master); ("health_obj", health);
     ("down_method", RESTORE_DEPLOYMENT_K8S); ("kvalue", kvalue)]
    RESTORE_DEPLOYMENT_K8S.

Definition shutdown_by_replicas (event event_set_clr : value) : M unit :=
  master ← first_of "node_master_list";
  health ← first_of "hlth_master_list";
  kvalue ← getattr "kvalue";
  shutdown_kpods false
    [("master_node_obj", master); ("health_obj", health); ("kvalue", kvalue);
     ("event", event); ("event_set_clr", event_set_clr)]
    RESTORE_SCALE_REPLICAS.

(** The names that the restore loop of [teardown_method] goes through. *)
Definition pods_to_restore (st : state World) : list value :=
  match self st !! "pod_name_list" with
  | Some (VList l) => l
  | Some _ => []
  | None => match cls st !! "pod_name_list" with Some (VList l) => l | _ => [] end
  end.

(** The checks of the cluster and the calls of the deployment library
    among calls. *)
Definition checks_and_deploys (cs : list hacall) : list hacall :=
  omap (λ c, match c with
             | CheckClusterStatus _ | ProvCall _ _ => Some c
             | _ => None
             end) cs.

(** What is to be restored for a pod that was shut down: by the method
    of the test, the deployment of the pod, from its backup where one was
    taken. *)
Definition restore_of (with_backup : bool) (restore_method : value)
    (pod : string * value) : value * value * value :=
  match pod.2 with
  | VDict info =>
      (restore_method,
       default VNone (vdict_get info "deployment_name"),
       if with_backup then default VNone (vdict_get info "deployment_backup")
       else VNone)
  | _ => (restore_method, VNone, VNone)
  end.

(** The restore calls among calls. *)
Definition restored (cs : list hacall) : list (value * value * value) :=
  omap (λ c, match c with
             | RestorePod _ m n b => Some (m, n, b)
             | _ => None
             end) cs.

(** A relation between the states before and after that a computation
    keeps, whatever its outcome. *)
Definition keeps {A} (R : relation (state World)) (m : M A) : Prop :=
  ∀ st r st', m st = (r, st') → R st st'.

(** The steps that leave the attributes alone, and those that leave the
    class alone. *)
Definition same_attrs : relation (state World) :=
  λ st st', cls st' = cls st ∧ self st' = self st.
Definition same_cls : relation (state World) :=
  λ st st', cls st' = cls st.

(** The steps that neither check the cluster nor call the deployment
    library. *)
Definition same_checks : relation (state World) :=
  λ st st', checks_and_deploys (calls st') = checks_and_deploys (calls st).

(** What a test sees of the pods noted so far: the class, and whether the
    instance has a list or a dict of its own. *)
Definition same_pods : relation (state World) :=
  λ st st', cls st' = cls st
          ∧ self st' !! "pod_name_list" = self st !! "pod_name_list"
          ∧ self st' !! "pod_dict" = self st !! "pod_dict".

(** The steps that leave the whole state alone. *)
Definition same_state : relation (state World) := λ st st', st' = st.

(** The pods whose entry in the dict is the one that was noted. *)
Definition noted (with_backup : bool) (d : list (string * value))
    (pod : string * value) : Prop :=
  ∃ info h n, pod.2 = VDict info
    ∧ vdict_get info "deployment_name" = Some n
    ∧ if with_backup
      then ∃ b, vdict_get info "deployment_backup" = Some b
                ∧ vdict_get d pod.1 = Some (VList [h; b; n])
      else vdict_get d pod.1 = Some (VList [h; n]).
End Test.

(** The configuration of a node as [setup_class] reads it: whether it has
    the keys that are read, whether its type is master, and the object of
    a class of the libraries that is made for it. *)
Definition has_keys (cfg : list (string * value)) : bool :=
  forallb (λ key, if vdict_get cfg key is Some _ then true else false)
    ["hostname"; "username"; "password"; "node_type"].
Definition is_master (cfg : list (string * value)) : bool :=
  match vdict_get cfg "node_type" with
  | Some (VStr "master") => true
  | _ => false
  end.
Definition field (key : string) (cfg : list (string * value)) : value :=
  default VNone (vdict_get cfg key).
Definition node_object (class : string) (cfg : list (string * value)) : value :=
  object class (field "hostname" cfg) (field "username" cfg) (field "password" cfg).
Definition masters (nodes : list (list (string * value))) : list (list (string * value)) :=
  filter (λ cfg, is_master cfg = true) nodes.
Definition workers (nodes : list (list (string * value))) : list (list (string * value)) :=
  filter (λ cfg, is_master cfg = false) nodes.

(** The attributes that the loop of [setup_class] assigns, and what they
    hold after the nodes [done]. *)
Definition node_lists : list string :=
  ["host"; "username"; "password"; "node_master_list"; "hlth_master_list";
   "node_worker_list"].
Record setup_inv (done : list (list (string * value))) (c : gmap string value) : Prop := {
  si_user : c !! "username" = Some (VList (field "username" <$> done));
  si_pass : c !! "password" = Some (VList (field "password" <$> done));
  si_master : c !! "node_master_list"
              = Some (VList (node_object "LogicalNode" <$> masters done));
  si_hlth : c !! "hlth_master_list" = Some (VList (node_object "Health" <$> masters done));
  si_worker : c !! "node_worker_list"
              = Some (VList (node_object "LogicalNode" <$> workers done))
}.

(** The constructors that [setup_class] calls for a node, in the order of
    the calls, and those of the whole method on the nodes [nodes]. *)
Definition node_calls (cfg : list (string * value)) : list hacall :=
  let kwargs := node_kwargs (field "hostname" cfg) (field "username" cfg)
                  (field "password" cfg) in
  if is_master cfg
  then [Construct "LogicalNode" kwargs; Construct "Health" kwargs]
  else [Construct "LogicalNode" kwargs].
Definition setup_calls (nodes : list (list (string * value))) (s3_url : value)
    : list hacall :=
  [Construct "HAK8s" []; Construct "ProvDeployK8sCortxLib" []]
  ++ [Construct "ManagementOPs" []; Construct "SystemRandom" []]
  ++ (nodes ≫= node_calls)
  ++ [Construct "S3AccountOperations" [];
      Construct "S3MultipartTestLib" [("endpoint_url", s3_url)]].

(** ** The steps that wait for a background process *)

(** The messages that are in the [multiprocessing.Queue] or get there
    before the timeout of [get] is over, oldest first. *)
Definition Q : Type → Type := Py.M (list value).

(** [output.get(timeout=...)]. *)
Definition queue_get : Q value :=
  λ q, match q with
       | [] => (Raise (mkExc Empty []), [])
       | m :: rest => (Ok m, rest)
       end.

(** [while True: resp = output.get(timeout=...); if isinstance(resp, bool): break] *)
Fixpoint wait_for_bool (q : list value) : result exc value * list value :=
  match q with
  | [] => (Raise (mkExc Empty []), [])
  | resp :: rest =>
      match resp with
      | VBool _ => (Ok resp, rest)
      | _ => wait_for_bool rest
      end
  end.

(** The booleans among messages. *)
Definition bools (q : list value) : list bool :=
  omap (λ m, match m with VBool b => Some b | _ => None end) q.

(** Steps 4 and 5 of [test_chunk_upload_during_data_kpods_down]; the
    upload that is tried again puts [retry_puts] into the queue. *)
Definition verify_chunk_upload (retry_puts : list value) : Q unit :=
  resp ← wait_for_bool;
  match resp with
  | VNone => assert_true false (VStr "Background process of chunk upload failed")
  | _ => ret ()
  end;;
  if negb (truthy resp) then
    modify (λ q, q ++ retry_puts);;
    resp ← wait_for_bool;
    if negb (truthy resp) || match resp with VNone => true | _ => false end
    then assert_true false (VStr "Retried chunk upload failed")
    else ret ()
  else ret ().

(** [while len(responses) < n: responses = output.get(timeout=...)] *)
Fixpoint wait_for_responses (n : nat) (responses : value) (q : list value)
  : result exc value * list value :=
  match len responses q with
  | (Raise e, q') => (Raise e, q')
  | (Ok k, _) =>
      if k <? n then
        match q with
        | [] => (Raise (mkExc Empty []), [])
        | m :: rest => wait_for_responses n m rest
        end
      else (Ok responses, q)
  end.

(** Step 4 of [test_copy_object_during_kpods_down]; [retry] is the call
    of [create_bucket_copy_obj] for the buckets that were expected to
    fail. *)
Definition check_copy_responses (retry : value → value → result exc (bool * value))
  : Q value :=
  responses ← wait_for_responses 3 (VList []);
  (if negb (truthy responses)
   then assert_true false (VStr "Background process failed to do copy object")
   else ret ());;
  put_etag ← getitem responses 0;
  exp_fail_bkt_obj_dict ← getitem responses 1;
  failed_bkts ← getitem responses 2;
  n ← len exp_fail_bkt_obj_dict;
  both_empty ← (if n =? 0 then k ← len failed_bkts; mret (k =? 0) else mret false);
  if (both_empty : bool) then ret put_etag
  else if truthy failed_bkts then
    assert_true false (VList [VStr "Failed to do copy object when cluster was in degraded state. Failed buckets: "; failed_bkts]);;
    ret put_etag
  else if truthy exp_fail_bkt_obj_dict then
    match retry exp_fail_bkt_obj_dict put_etag with
    | Raise e => raise e
    | Ok resp =>
        assert_true resp.1 (VList [VStr "Failed buckets are: "; resp.2]);;
        ret resp.2
    end
  else ret put_etag.

(** The loop of [test_copy_object_during_kpods_down] that waits for the
    buckets: [polls] is what each turn sees, the outcome of [bucket_list()]
    and then the time; [None]: the loop is still waiting after them. *)
Fixpoint wait_for_buckets (bkt_cnt : Z) (timeout : Z) (bkt_list : list string)
    (polls : list (result exc (list string) * Z)) : option (result exc unit) :=
  if (Z.of_nat (length bkt_list) <? bkt_cnt)%Z then
    match polls with
    | [] => None
    | (Raise e, _) :: _ => Some (Raise e)
    | (Ok l, now) :: rest =>
        if (timeout <? now)%Z
        then Some (Raise (mkExc AssertionError [VStr "Please check background process logs"]))
        else wait_for_buckets bkt_cnt timeout l rest
    end
  else Some (Ok ()).

(** [timeout = time.time() + 60 * 3], with the time in units of which
    [second] make a second. *)
Definition wait_for_creation (second bkt_cnt start : Z)
    (polls : list (result exc (list string) * Z)) : option (result exc unit) :=
  wait_for_buckets bkt_cnt (start + 60 * 3 * second) [] polls.

(** ** The objects read back *)

(** What the turns before the last have seen when the wait for the
    buckets goes on: too few buckets, in time. *)
Definition waiting (bkt_cnt timeout : Z) (poll : result exc (list string) * Z) : Prop :=
  ∃ l now, poll = (Ok l, now)
    ∧ (Z.of_nat (length l) < bkt_cnt)%Z ∧ (now ≤ timeout)%Z.

Section ReadBack.
Context {World : Type} `{!S3TestLib.S3Lib World}.
Variable S3_CLIENT_ERROR : value.
Variable ct_args : value → value → list value.
(** [a == b] on values. *)
Variable py_eq : value → value → bool.

(** [def get_object(self, bucket_name, object_name, ranges=None)], and a
    call of it on an object of [S3TestLib]. *)
Definition get_object_params : list (string * option value) :=
  [("bucket_name", None); ("object_name", None); ("ranges", Some VNone)].

Definition call_get_object (args : list value) (kwargs : list (string * value))
  : Py.M (S3TestLib.state World) (bool * value) :=
  match bind_args get_object_params args kwargs with
  | Raise e => raise e
  | Ok bound =>
      bucket_name ← dict_item bound "bucket_name";
      bucket_name ← string_of bucket_name;
      object_name ← dict_item bound "object_name";
      object_name ← string_of object_name;
      ranges ← dict_item bound "ranges";
      S3TestLib.get_object S3_CLIENT_ERROR ct_args bucket_name object_name ranges
  end.

(** [assert_utils.assert_equal(a, b, msg)]; see [assert_true]. *)
Definition assert_equal {St} (a b : value) (msg : value) : Py.M St unit :=
  assert_true (py_eq a b) msg.

(** Step 3 of [test_copy_object_kpods_fail], and the like steps of the
    tests that copy objects: the loop over [bkt_obj_dict.items()]. *)
Fixpoint verify_etags (put_etag : value) (items : list (string * value))
  : Py.M (S3TestLib.state World) unit :=
  match items with
  | [] => ret ()
  | item :: rest =>
      resp ← call_get_object [] [("bucket", VStr item.1); ("key", item.2)];
      get_etag ← subscript resp.2 "ETag";
      assert_equal put_etag get_etag (VStr "Put and Get Etag mismatch");;
      verify_etags put_etag rest
  end.
End ReadBack.
End TestMultiDataPodFailure.

(** A cluster for the scenarios, in which every call succeeds and the
    shutdown always reports the same two pods. *)
Definition demo_pods : list (string * value) :=
  [("pod-a", VDict [("hostname", VStr "w1"); ("deployment_backup", VStr "a.yaml");
                    ("deployment_name", VStr "dep-a")]);
   ("pod-b", VDict [("hostname", VStr "w2"); ("deployment_backup", VStr "b.yaml");
                    ("deployment_name", VStr "dep-b")])].
#[global] Instance demo_cluster : TestMultiDataPodFailure.Cluster unit := {|
  TestMultiDataPodFailure.check_cluster_status _ w := (Ok (true, VStr "online"), w);
  TestMultiDataPodFailure.restart_cluster _ w := (Ok (true, VNone), w);
  TestMultiDataPodFailure.get_config_value _ w := (Ok (true, VInt 2), w);
  TestMultiDataPodFailure.parity_of v :=
    match v with
    | VInt k => Ok k
    | _ => Raise (Py.mkExc Py.TypeError [VStr "not a number"])
    end;
  TestMultiDataPodFailure.delete_s3_acc_buckets_objects _ w := (Ok (true, VNone), w);
  TestMultiDataPodFailure.delete_kpod_with_shutdown_methods _ w := (Ok (true, demo_pods), w);
  TestMultiDataPodFailure.restore_pod _ _ _ _ w := (Ok (true, VNone), w);
  TestMultiDataPodFailure.get_all_pods _ w := (Ok ((λ p, VStr p.1) <$> demo_pods), w);
  TestMultiDataPodFailure.get_pod_hostname _ _ w := (Ok (VStr "w1"), w);
  TestMultiDataPodFailure.delete_deployment _ _ w := (Ok (false, VStr "a.yaml", VStr "dep-a"), w);
  TestMultiDataPodFailure.sample l k w := (Ok (take (Z.to_nat k) l), w);
  TestMultiDataPodFailure.perf_counter_ns w := (7%Z, w);
  TestMultiDataPodFailure.path_exists _ _ := true;
  TestMultiDataPodFailure.make_dirs _ w := (Ok (), w);
  TestMultiDataPodFailure.remove_dirs _ w := (Ok (), w);
  TestMultiDataPodFailure.path_join a b := a +:+ "/" +:+ b;
  TestMultiDataPodFailure.prov_call _ _ w := (Ok (true, VNone), w);
  TestMultiDataPodFailure.construct _ _ w := (Ok (), w);
  TestMultiDataPodFailure.RESTORE_DEPLOYMENT_K8S := VStr "k8s";
  TestMultiDataPodFailure.RESTORE_SCALE_REPLICAS := VStr "scale_replicas";
  TestMultiDataPodFailure.POD_NAME_PREFIX := VStr "cortx-data";
  TestMultiDataPodFailure.K8S_SCRIPTS_PATH := VStr "/root/deploy-scripts/k8_cortx_cloud/";
  TestMultiDataPodFailure.K8S_PRE_DISK := VStr "/dev/sdb";
  TestMultiDataPodFailure.TEST_DATA_FOLDER := "/root/te";
  TestMultiDataPodFailure.csm_admin_user := (VStr "admin", VStr "secret");
  TestMultiDataPodFailure.S3_CFG_s3_url := VStr "https://s3.seagate.com";
  TestMultiDataPodFailure.CMN_CFG_nodes :=
    [[("hostname", VStr "m1"); ("username", VStr "root"); ("password", VStr "pw");
      ("node_type", VStr "master")];
     [("hostname", VStr "w1"); ("username", VStr "root"); ("password", VStr "pw");
      ("node_type", VStr "worker")]]
|}.

(** The class after [setup_class]; a first test that shuts pods down, up
    to its teardown; and the next test on its new instance, after
    [setup_method], and after it has shut pods down as well. *)
Definition demo_class : TestMultiDataPodFailure.state unit :=
  (TestMultiDataPodFailure.setup_class (TestMultiDataPodFailure.mkState () [] ∅ ∅)).2.
Definition demo_first_test : TestMultiDataPodFailure.state unit :=
  (TestMultiDataPodFailure.shutdown_by_deployment
     (TestMultiDataPodFailure.setup_method
        (TestMultiDataPodFailure.new_instance demo_class).2).2).2.
Definition demo_second_setup : TestMultiDataPodFailure.state unit :=
  (TestMultiDataPodFailure.setup_method
     (TestMultiDataPodFailure.new_instance
        (TestMultiDataPodFailure.teardown_method demo_first_test).2).2).2.
Definition demo_second_test : TestMultiDataPodFailure.state unit :=
  (TestMultiDataPodFailure.shutdown_kpods true [] (VStr "k8s") demo_second_setup).2.
Definition demo_second_restored : TestMultiDataPodFailure.state unit :=
  (TestMultiDataPodFailure.restore_each
     (TestMultiDataPodFailure.pods_to_restore demo_second_test) demo_second_test).2.

(** The same cluster with worker nodes only. *)
Definition demo_workers_only : TestMultiDataPodFailure.Cluster unit := {|
  TestMultiDataPodFailure.check_cluster_status := @TestMultiDataPodFailure.check_cluster_status unit demo_cluster;
  TestMultiDataPodFailure.restart_cluster := @TestMultiDataPodFailure.restart_cluster unit demo_cluster;
  TestMultiDataPodFailure.get_config_value := @TestMultiDataPodFailure.get_config_value unit demo_cluster;
  TestMultiDataPodFailure.parity_of := @TestMultiDataPodFailure.parity_of unit demo_cluster;
  TestMultiDataPodFailure.delete_s3_acc_buckets_objects := @TestMultiDataPodFailure.delete_s3_acc_buckets_objects unit demo_cluster;
  TestMultiDataPodFailure.delete_kpod_with_shutdown_methods := @TestMultiDataPodFailure.delete_kpod_with_shutdown_methods unit demo_cluster;
  TestMultiDataPodFailure.restore_pod := @TestMultiDataPodFailure.restore_pod unit demo_cluster;
  TestMultiDataPodFailure.get_all_pods := @TestMultiDataPodFailure.get_all_pods unit demo_cluster;
  TestMultiDataPodFailure.get_pod_hostname := @TestMultiDataPodFailure.get_pod_hostname unit demo_cluster;
  TestMultiDataPodFailure.delete_deployment := @TestMultiDataPodFailure.delete_deployment unit demo_cluster;
  TestMultiDataPodFailure.sample := @TestMultiDataPodFailure.sample unit demo_cluster;
  TestMultiDataPodFailure.perf_counter_ns := @TestMultiDataPodFailure.perf_counter_ns unit demo_cluster;
  TestMultiDataPodFailure.path_exists := @TestMultiDataPodFailure.path_exists unit demo_cluster;
  TestMultiDataPodFailure.make_dirs := @TestMultiDataPodFailure.make_dirs unit demo_cluster;
  TestMultiDataPodFailure.remove_dirs := @TestMultiDataPodFailure.remove_dirs unit demo_cluster;
  TestMultiDataPodFailure.path_join := @TestMultiDataPodFailure.path_join unit demo_cluster;
  TestMultiDataPodFailure.prov_call := @TestMultiDataPodFailure.prov_call unit demo_cluster;
  TestMultiDataPodFailure.construct := @TestMultiDataPodFailure.construct unit demo_cluster;
  TestMultiDataPodFailure.RESTORE_DEPLOYMENT_K8S := @TestMultiDataPodFailure.RESTORE_DEPLOYMENT_K8S unit demo_cluster;
  TestMultiDataPodFailure.RESTORE_SCALE_REPLICAS := @TestMultiDataPodFailure.RESTORE_SCALE_REPLICAS unit demo_cluster;
  TestMultiDataPodFailure.POD_NAME_PREFIX := @TestMultiDataPodFailure.POD_NAME_PREFIX unit demo_cluster;
  TestMultiDataPodFailure.K8S_SCRIPTS_PATH := @TestMultiDataPodFailure.K8S_SCRIPTS_PATH unit demo_cluster;
  TestMultiDataPodFailure.K8S_PRE_DISK := @TestMultiDataPodFailure.K8S_PRE_DISK unit demo_cluster;
  TestMultiDataPodFailure.TEST_DATA_FOLDER := @TestMultiDataPodFailure.TEST_DATA_FOLDER unit demo_cluster;
  TestMultiDataPodFailure.csm_admin_user := @TestMultiDataPodFailure.csm_admin_user unit demo_cluster;
  TestMultiDataPodFailure.S3_CFG_s3_url := @TestMultiDataPodFailure.S3_CFG_s3_url unit demo_cluster;
  TestMultiDataPodFailure.CMN_CFG_nodes :=
    [[("hostname", VStr "w1"); ("username", VStr "root"); ("password", VStr "pw");
      ("node_type", VStr "worker")];
     [("hostname", VStr "w2"); ("username", VStr "root"); ("password", VStr "pw");
      ("node_type", VStr "worker")]]
|}.

(** The same cluster, in which the constructor of [Health] cannot reach
    the node and raises. *)
Definition demo_no_health : TestMultiDataPodFailure.Cluster unit := {|
  TestMultiDataPodFailure.check_cluster_status := @TestMultiDataPodFailure.check_cluster_status unit demo_cluster;
  TestMultiDataPodFailure.restart_cluster := @TestMultiDataPodFailure.restart_cluster unit demo_cluster;
  TestMultiDataPodFailure.get_config_value := @TestMultiDataPodFailure.get_config_value unit demo_cluster;
  TestMultiDataPodFailure.parity_of := @TestMultiDataPodFailure.parity_of unit demo_cluster;
  TestMultiDataPodFailure.delete_s3_acc_buckets_objects := @TestMultiDataPodFailure.delete_s3_acc_buckets_objects unit demo_cluster;
  TestMultiDataPodFailure.delete_kpod_with_shutdown_methods := @TestMultiDataPodFailure.delete_kpod_with_shutdown_methods unit demo_cluster;
  TestMultiDataPodFailure.restore_pod := @TestMultiDataPodFailure.restore_pod unit demo_cluster;
  TestMultiDataPodFailure.get_all_pods := @TestMultiDataPodFailure.get_all_pods unit demo_cluster;
  TestMultiDataPodFailure.get_pod_hostname := @TestMultiDataPodFailure.get_pod_hostname unit demo_cluster;
  TestMultiDataPodFailure.delete_deployment := @TestMultiDataPodFailure.delete_deployment unit demo_cluster;
  TestMultiDataPodFailure.sample := @TestMultiDataPodFailure.sample unit demo_cluster;
  TestMultiDataPodFailure.perf_counter_ns := @TestMultiDataPodFailure.perf_counter_ns unit demo_cluster;
  TestMultiDataPodFailure.path_exists := @TestMultiDataPodFailure.path_exists unit demo_cluster;
  TestMultiDataPodFailure.make_dirs := @TestMultiDataPodFailure.make_dirs unit demo_cluster;
  TestMultiDataPodFailure.remove_dirs := @TestMultiDataPodFailure.remove_dirs unit demo_cluster;
  TestMultiDataPodFailure.path_join := @TestMultiDataPodFailure.path_join unit demo_cluster;
  TestMultiDataPodFailure.prov_call := @TestMultiDataPodFailure.prov_call unit demo_cluster;
  TestMultiDataPodFailure.construct class _ w :=
    if bool_decide (class = "Health")
    then (Raise (Py.mkExc (Py.OtherException "SSHException") [VStr "no route to host"]), w)
    else (Ok (), w);
  TestMultiDataPodFailure.RESTORE_DEPLOYMENT_K8S := @TestMultiDataPodFailure.RESTORE_DEPLOYMENT_K8S unit demo_cluster;
  TestMultiDataPodFailure.RESTORE_SCALE_REPLICAS := @TestMultiDataPodFailure.RESTORE_SCALE_REPLICAS unit demo_cluster;
  TestMultiDataPodFailure.POD_NAME_PREFIX := @TestMultiDataPodFailure.POD_NAME_PREFIX unit demo_cluster;
  TestMultiDataPodFailure.K8S_SCRIPTS_PATH := @TestMultiDataPodFailure.K8S_SCRIPTS_PATH unit demo_cluster;
  TestMultiDataPodFailure.K8S_PRE_DISK := @TestMultiDataPodFailure.K8S_PRE_DISK unit demo_cluster;
  TestMultiDataPodFailure.TEST_DATA_FOLDER := @TestMultiDataPodFailure.TEST_DATA_FOLDER unit demo_cluster;
  TestMultiDataPodFailure.csm_admin_user := @TestMultiDataPodFailure.csm_admin_user unit demo_cluster;
  TestMultiDataPodFailure.S3_CFG_s3_url := @TestMultiDataPodFailure.S3_CFG_s3_url unit demo_cluster;
  TestMultiDataPodFailure.CMN_CFG_nodes := @TestMultiDataPodFailure.CMN_CFG_nodes unit demo_cluster
|}.

(** Nodes for the scenarios: every command succeeds, and the node [w2]
    has one disk where two are needed. *)
#[global] Instance demo_env : ProvDeployK8sCortxLib.Env unit := {|
  ProvDeployK8sCortxLib.CMD_PING host := "ping -c 1 " +:+ host;
  ProvDeployK8sCortxLib.CMD_LSBLK := "lsblk -S | grep disk | wc -l";
  ProvDeployK8sCortxLib.CMD_OS_REL := "cat /etc/redhat-release";
  ProvDeployK8sCortxLib.CMD_KRNL_VER := "uname -r";
  ProvDeployK8sCortxLib.CMD_MKFS_EXT4 := "mkfs.ext4 -F {}";
  ProvDeployK8sCortxLib.CMD_MOUNT_EXT4 disk dir := "mount -t ext4 " +:+ disk +:+ " " +:+ dir;
  ProvDeployK8sCortxLib.RPM_INSTALL_CMD pkg := "yum install -y " +:+ pkg;
  ProvDeployK8sCortxLib.CMD_DOCKER_LOGIN user pswd := "docker login -u " +:+ user +:+ " -p " +:+ pswd;
  ProvDeployK8sCortxLib.CMD_REMOVE_DIR dir := "rm -rf " +:+ dir;
  ProvDeployK8sCortxLib.CMD_GIT_CLONE url := "git clone " +:+ url;
  ProvDeployK8sCortxLib.CMD_GIT_CHECKOUT tag := "git checkout " +:+ tag;
  ProvDeployK8sCortxLib.min_disks := 2;
  ProvDeployK8sCortxLib.in_os_release rel := true;
  ProvDeployK8sCortxLib.in_kernel ver := true;
  ProvDeployK8sCortxLib.local_path_prov := "/mnt/fs-local-volume";
  ProvDeployK8sCortxLib.glusterfs_dir := ["/mnt/fs-local-volume/etc/gluster"];
  ProvDeployK8sCortxLib.gluster_pkg := "glusterfs-fuse";
  ProvDeployK8sCortxLib.third_party_dir := ["/var/data/3rd-party"];
  ProvDeployK8sCortxLib.git_k8_repo id token := "https://" +:+ id +:+ ":" +:+ token +:+ "@github.com/Seagate/cortx-k8s";
  ProvDeployK8sCortxLib.git_tag := "main";
  ProvDeployK8sCortxLib.deploy_cluster_cmd := "./deploy-cortx-cloud.sh";
  ProvDeployK8sCortxLib.git_remote_dir := "/root/cortx-k8s/k8_cortx_cloud/";
  ProvDeployK8sCortxLib.job_name := "k8s-deploy";
  ProvDeployK8sCortxLib.auth_token := "token";
  ProvDeployK8sCortxLib.jenkins_url := "http://jenkins/";
  ProvDeployK8sCortxLib.execute_cmd node cmd w :=
    (Ok [if String.eqb (ProvDeployK8sCortxLib.hostname node) "w2" then "1" else "4"], w);
  ProvDeployK8sCortxLib.make_dir node dir w := (Ok (), w);
  ProvDeployK8sCortxLib.copy_file_to_remote node l r w := (Ok (), w);
  ProvDeployK8sCortxLib.path_exists path w := true;
  ProvDeployK8sCortxLib.build_job job hosts taint token url w := (Ok ("http://jenkins/1", "SUCCESS"), w);
  ProvDeployK8sCortxLib.all_cluster_services_online node w := (Ok (true, VNone), w);
  ProvDeployK8sCortxLib.safe_load path w := (Ok (VDict []), w);
  ProvDeployK8sCortxLib.int_of s :=
    if String.eqb s "1" then Ok 1%Z
    else if String.eqb s "4" then Ok 4%Z
    else Raise (Py.mkExc Py.ValueError [VStr "invalid literal for int()"]);
  ProvDeployK8sCortxLib.strip s := s
|}.

Definition demo_master : ProvDeployK8sCortxLib.node :=
  ProvDeployK8sCortxLib.mkNode "m1" "root" "pw".
Definition demo_worker (host : string) : ProvDeployK8sCortxLib.node :=
  ProvDeployK8sCortxLib.mkNode host "root" "pw".
Definition demo_deployed :=
  ProvDeployK8sCortxLib.deploy_cortx_cluster "solution.yaml" [demo_master]
    [demo_worker "w1"; demo_worker "w2"] "user" "pswd" "id" "token"
    (ProvDeployK8sCortxLib.mkState () []).

(** * Properties of the pool *)

Section PoolFacts.
Context {Item : Type}.
Variable behav : handler → Item + pyval → outcome.

Implicit Types (s : state Item) (w : wpc Item) (q : WorkQ pyval).

Local Abbreviation step := (step behav).
Local Abbreviation reachable := (reachable behav).

(** ** Runs and reachability *)

Lemma run_app sch1 sch2 s :
  run behav (sch1 ++ sch2) s = s' ← run behav sch1 s; run behav sch2 s'.
Proof.
  revert s. induction sch1 as [|t sch1 IH]; intros s; simpl; [done|].
  destruct (thread_step behav t s); simpl; auto.
Qed.

Lemma run_reachable sch s s' : run behav sch s = Some s' → reachable s s'.
Proof.
  revert s. induction sch as [|t sch IH]; intros s; simpl.
  - intros [= ->]. apply rtc_refl.
  - destruct (thread_step behav t s) as [s1|] eqn:E; simpl; [|done].
    intros H. eapply rtc_l; [by exists t|]. by apply IH.
Qed.

Lemma reachable_run s s' : reachable s s' → ∃ sch, run behav sch s = Some s'.
Proof.
  induction 1 as [s|s s1 s2 [t Ht] _ [sch IH]].
  - by exists [].
  - exists (t :: sch). simpl. by rewrite Ht.
Qed.

(** An invariant of every step holds in every reachable state. *)
Lemma reachable_invariant (P : state Item → Prop) s s' :
  (∀ t s1 s2, thread_step behav t s1 = Some s2 → P s1 → P s2) →
  P s → reachable s s' → P s'.
Proof.
  intros Hstep H0 Hr. induction Hr as [|s1 s2 s3 [t Ht] _ IH]; [done|].
  apply IH. by eapply Hstep.
Qed.

(** ** One worker among the others *)

Lemma workers_split (ws : list (wpc Item)) i w w' :
  ws !! i = Some w →
  ∃ pre post, ws = pre ++ w :: post ∧ <[i:=w']> ws = pre ++ w' :: post.
Proof.
  intros H. exists (take i ws), (drop (S i) ws). split.
  - by rewrite take_drop_middle.
  - by apply insert_take_drop, lookup_lt_Some with w.
Qed.

Lemma running_unreleased w : length (running w) ≤ length (unreleased w).
Proof. destruct w; simpl; lia. Qed.

Lemma finishing_held w : length (finishing w) ≤ length (held w).
Proof. induction w; simpl; lia. Qed.

Lemma unreleased_held w : length (unreleased w) ≤ length (held w).
Proof. induction w; simpl; lia. Qed.

Lemma bind_length_le {A B C} (f : A → list B) (g : A → list C) (l : list A) :
  (∀ x, length (f x) ≤ length (g x)) → length (l ≫= f) ≤ length (l ≫= g).
Proof.
  intros H. induction l as [|x l IH]; [done|].
  rewrite !bind_cons, !length_app. specialize (H x). lia.
Qed.

Lemma bind_length_bound {A B} (f : A → list B) (l : list A) :
  (∀ x, length (f x) ≤ 1) → length (l ≫= f) ≤ length l.
Proof.
  intros H. induction l as [|x l IH]; [done|].
  rewrite bind_cons, length_app. specialize (H x). simpl. lia.
Qed.

(** ** The accounting is an invariant *)

Lemma start_workers_state (n : nat) f (h : gmap addr (WorkQ Item)) p :
  start_workers (Z.of_nat n) f h p =
  Some (mkState (mkWorkQ (negb (bool_decide (n = 0))) f n n [] 0)
                (replicate n WGet) h MIdle p [] [] [] [] []).
Proof.
  unfold start_workers, WorkQ_init.
  destruct (Z.ltb_spec (Z.of_nat n) 0) as [?|_]; [lia|]. simpl.
  rewrite Nat2Z.id. repeat f_equal.
  destruct (Z.eqb_spec (Z.of_nat n) 0); case_bool_decide; simpl; auto; lia.
Qed.

Lemma start_workers_negative n f (h : gmap addr (WorkQ Item)) p :
  (n < 0)%Z → start_workers n f h p = None.
Proof.
  intros H. unfold start_workers, WorkQ_init.
  destruct (Z.ltb_spec n 0); [done|lia].
Qed.

Lemma bind_replicate_nil {A B} (f : A → list B) (x : A) n :
  f x = [] → replicate n x ≫= f = [].
Proof.
  intros H. induction n as [|n IH]; [done|].
  change (replicate (S n) x) with (x :: replicate n x). by rewrite bind_cons, H, IH.
Qed.

Lemma pool_inv_start nworkers f (h : gmap addr (WorkQ Item)) p s :
  start_workers nworkers f h p = Some s → pool_inv s.
Proof.
  intros Hs. destruct (Z.ltb_spec nworkers 0) as [Hn|Hn].
  { by rewrite start_workers_negative in Hs. }
  rewrite <-(Z2Nat.id nworkers), start_workers_state in Hs by done.
  injection Hs as <-. set (n := Z.to_nat nworkers).
  split; unfold held_all, unreleased_all, finishing_all; simpl;
    rewrite ?bind_replicate_nil by done; simpl.
  - apply length_replicate.
  - done.
  - case_bool_decide; simpl; lia.
  - done.
  - done.
  - done.
  - done.
Qed.

Ltac split_workers H :=
  let pre := fresh "pre" in
  let post := fresh "post" in
  let E1 := fresh "Ews" in
  let E2 := fresh "Ews'" in
  match type of H with
  | ?ws !! ?i = Some ?w =>
      match goal with
      | |- context [<[i:=?w']> ws] =>
          destruct (workers_split ws i w w' H) as (pre & post & E1 & E2);
          rewrite E2; clear E2; subst ws
      end
  end.

Ltac unfold_setters :=
  unfold set_worker, set_workq, set_heap, set_main, set_prog,
    log_submitted, log_acked, log_call, log_inner_acked, log_pool_call; simpl.

Ltac unfold_counts :=
  unfold held_all, unreleased_all, finishing_all, self_finishing_all,
    executing_count in *; simpl in *;
  rewrite ?bind_app, ?bind_cons in *; simpl in *;
  rewrite ?length_app in *; simpl in *.

Ltac close_inv I5 I6 :=
  split; unfold_counts; unfold tasks, returned_tasks, sentinels in *;
  rewrite ?omap_app in *; simpl in *; rewrite ?length_app in *; simpl in *;
  [ lia
  | done
  | repeat case_bool_decide; simpl in *; lia
  | lia
  | rewrite I5; solve_Permutation
  | rewrite <-I6; solve_Permutation
  | lia ].

Lemma pool_inv_worker i s s' : worker behav i s = Some s' → pool_inv s → pool_inv s'.
Proof.
  destruct s as [q ws h m p sub ack cl iack pcl]. unfold worker. simpl.
  destruct (ws !! i) as [w|] eqn:Hw; simpl; [|done].
  intros Hstep [I1 I2 I3 I4 I5 I6 I7]. simpl in *.
  destruct q as [lk fn sem mx qu uf]; simpl in *.
  destruct w as [| | | |a|a wi|a|a|a|a| |v|v|v| | | |w0]; simpl in Hstep.
  - (* wq = self.w_workq.get() *)
    unfold Queue_get in Hstep; simpl in Hstep.
    destruct qu as [|[|a|] qu]; simplify_eq/=;
      unfold_setters; split_workers Hw; close_inv I5 I6.
  - (* sentinel: release *)
    unfold task_done_release in Hstep; simpl in Hstep.
    destruct lk; simplify_eq/=;
      unfold_setters; split_workers Hw; close_inv I5 I6.
  - (* sentinel: Queue.task_done *)
    unfold Queue_task_done in Hstep; simpl in Hstep.
    destruct uf; simplify_eq/=;
      unfold_setters; split_workers Hw; close_inv I5 I6.
  - (* break *)
    simplify_eq/=. unfold_setters; split_workers Hw; close_inv I5 I6.
  - (* wi = wq.get() *)
    destruct (h !! a) as [wq|]; simpl in Hstep.
    + unfold Queue_get in Hstep. destruct (queue wq); simplify_eq/=.
      unfold_setters; split_workers Hw; close_inv I5 I6.
    + simplify_eq/=. unfold_setters; split_workers Hw; close_inv I5 I6.
  - (* wq.func(wi) *)
    destruct (h !! a) as [wq|]; simpl in Hstep; [|done].
    destruct (apply_func behav (func wq) wi); simplify_eq/=;
      unfold_setters; split_workers Hw; close_inv I5 I6.
  - (* wq.task_done(): release *)
    destruct (h !! a) as [wq|]; simplify_eq/=.
    unfold_setters; split_workers Hw; close_inv I5 I6.
  - (* wq.task_done(): Queue.task_done *)
    destruct (h !! a) as [wq|]; simpl in Hstep; [|done].
    destruct (Queue_task_done wq); simplify_eq/=;
      unfold_setters; split_workers Hw; close_inv I5 I6.
  - (* self.w_workq.task_done(): release *)
    unfold task_done_release in Hstep; simpl in Hstep.
    destruct lk; simplify_eq/=;
      unfold_setters; split_workers Hw; close_inv I5 I6.
  - (* self.w_workq.task_done(): Queue.task_done *)
    unfold Queue_task_done in Hstep; simpl in Hstep.
    destruct uf; simplify_eq/=;
      unfold_setters; split_workers Hw; close_inv I5 I6.
  - (* the pool's own queue: wi = wq.get() *)
    unfold Queue_get in Hstep; simpl in Hstep.
    destruct qu as [|v qu]; simplify_eq/=;
      unfold_setters; split_workers Hw; close_inv I5 I6.
  - (* the pool's own queue: wq.func(wi) *)
    destruct (apply_pool_func behav fn v); simplify_eq/=;
      unfold_setters; split_workers Hw; close_inv I5 I6.
  - (* the pool's own queue: wq.task_done(), release *)
    unfold task_done_release in Hstep; simpl in Hstep.
    destruct lk; simplify_eq/=;
      unfold_setters; split_workers Hw; close_inv I5 I6.
  - (* the pool's own queue: wq.task_done(), Queue.task_done *)
    unfold Queue_task_done in Hstep; simpl in Hstep.
    destruct uf; simplify_eq/=;
      unfold_setters; split_workers Hw; close_inv I5 I6.
  - (* the pool's own queue: self.w_workq.task_done(), release *)
    unfold task_done_release in Hstep; simpl in Hstep.
    destruct lk; simplify_eq/=;
      unfold_setters; split_workers Hw; close_inv I5 I6.
  - (* the pool's own queue: self.w_workq.task_done(), Queue.task_done *)
    unfold Queue_task_done in Hstep; simpl in Hstep.
    destruct uf; simplify_eq/=;
      unfold_setters; split_workers Hw; close_inv I5 I6.
  - done.
  - done.
Qed.

Lemma pending_end_loop n : pending (end_loop n) = 0.
Proof. by destruct n. Qed.

Lemma pending_join_loop i n : pending (join_loop i n) = 0.
Proof. unfold join_loop. by case_bool_decide. Qed.

Lemma pool_inv_orchestrator s s' :
  orchestrator s = Some s' → pool_inv s → pool_inv s'.
Proof.
  destruct s as [q ws h m p sub ack cl]. unfold orchestrator. simpl.
  intros Hstep [I1 I2 I3 I4 I5 I6 I7]. unfold_counts.
  destruct q as [lk fn sem mx qu uf]; simpl in *.
  destruct m as [|v k|v k| |j]; simpl in Hstep.
  - (* entering wenque or end_workers *)
    destruct p as [|[v|] p]; simplify_eq/=; unfold_setters;
      split; unfold_counts; rewrite ?pending_end_loop; auto.
  - (* semaphore.acquire() *)
    unfold put_acquire in Hstep; simpl in Hstep.
    destruct lk; [destruct sem|]; simplify_eq/=; unfold_setters;
      split; unfold_counts; auto; repeat case_bool_decide; simpl in *; lia.
  - (* queue.Queue.put *)
    unfold Queue_put in Hstep; simpl in Hstep.
    destruct (bool_decide (0 < mx) && bool_decide (mx ≤ length qu));
      simplify_eq/=; unfold_setters.
    split; unfold_counts; auto.
    + destruct k; simpl; rewrite ?pending_end_loop;
        repeat case_bool_decide; simpl in *; lia.
    + lia.
    + rewrite I5. solve_Permutation.
  - (* self.w_workq.join() *)
    destruct (Queue_join _); simplify_eq/=; unfold_setters.
    split; unfold_counts; rewrite ?pending_join_loop; auto.
  - (* self.w_workers[j].join() *)
    destruct (ws !! j) as [w|]; simpl in Hstep; [|done].
    destruct (terminated w); simplify_eq/=; unfold_setters.
    split; unfold_counts; rewrite ?pending_join_loop; auto.
Qed.

Lemma pool_inv_step t s s' :
  thread_step behav t s = Some s' → pool_inv s → pool_inv s'.
Proof.
  destruct t as [|i]; simpl; [apply pool_inv_orchestrator|apply pool_inv_worker].
Qed.

Lemma pool_inv_reachable nworkers f (h : gmap addr (WorkQ Item)) p s0 s :
  start_workers nworkers f h p = Some s0 → reachable s0 s → pool_inv s.
Proof.
  intros H0 Hr. eapply reachable_invariant; [apply pool_inv_step| |done].
  by eapply pool_inv_start.
Qed.

(** ** The turns on the pool's own queue *)

Lemma alias_inv_start nworkers f (h : gmap addr (WorkQ Item)) p s :
  start_workers nworkers f h p = Some s → alias_inv s.
Proof.
  intros Hs. destruct (Z.ltb_spec nworkers 0) as [Hn|Hn].
  { by rewrite start_workers_negative in Hs. }
  rewrite <-(Z2Nat.id nworkers), start_workers_state in Hs by done.
  injection Hs as <-.
  split; unfold held_all, self_finishing_all; simpl;
    rewrite ?bind_replicate_nil by done; simpl; [done|lia|constructor].
Qed.

Lemma selves_cons v l : length (selves (v :: l)) = is_self v + length (selves l).
Proof. unfold selves. by destruct v. Qed.

Lemma selves_app l1 l2 :
  length (selves (l1 ++ l2)) = length (selves l1) + length (selves l2).
Proof. unfold selves. by rewrite omap_app, length_app. Qed.

Lemma selves_nil : length (selves []) = 0.
Proof. done. Qed.

Local Arguments selves : simpl never.

Ltac close_alias A1 :=
  split; unfold_counts; unfold pool_returned in *;
  rewrite ?omap_app in *; simpl in *;
  rewrite ?selves_app, ?selves_cons, ?selves_nil, ?length_app in *; simpl in *;
  [ first [ done | rewrite <-A1; solve_Permutation ]
  | lia
  | first [ done | apply Forall_app; split; [done|by repeat constructor] ] ].

Lemma alias_inv_worker i s s' : worker behav i s = Some s' → alias_inv s → alias_inv s'.
Proof.
  destruct s as [q ws h m p sub ack cl iack pcl]. unfold worker. simpl.
  destruct (ws !! i) as [w|] eqn:Hw; simpl; [|done].
  intros Hstep [A1 A2 A3]. simpl in *.
  destruct q as [lk fn sem mx qu uf]; simpl in *.
  destruct w as [| | | |a|a wi|a|a|a|a| |v|v|v| | | |w0]; simpl in Hstep.
  - unfold Queue_get in Hstep; simpl in Hstep.
    destruct qu as [|[|a|] qu]; simplify_eq/=;
      unfold_setters; split_workers Hw; close_alias A1.
  - unfold task_done_release in Hstep; simpl in Hstep.
    destruct lk; simplify_eq/=; unfold_setters; split_workers Hw; close_alias A1.
  - unfold Queue_task_done in Hstep; simpl in Hstep.
    destruct uf; simplify_eq/=; unfold_setters; split_workers Hw; close_alias A1.
  - simplify_eq/=. unfold_setters; split_workers Hw; close_alias A1.
  - destruct (h !! a) as [wq|]; simpl in Hstep.
    + unfold Queue_get in Hstep. destruct (queue wq); simplify_eq/=.
      unfold_setters; split_workers Hw; close_alias A1.
    + simplify_eq/=. unfold_setters; split_workers Hw; close_alias A1.
  - destruct (h !! a) as [wq|]; simpl in Hstep; [|done].
    destruct (apply_func behav (func wq) wi); simplify_eq/=;
      unfold_setters; split_workers Hw; close_alias A1.
  - destruct (h !! a) as [wq|]; simplify_eq/=.
    unfold_setters; split_workers Hw; close_alias A1.
  - destruct (h !! a) as [wq|]; simpl in Hstep; [|done].
    destruct (Queue_task_done wq); simplify_eq/=;
      unfold_setters; split_workers Hw; close_alias A1.
  - unfold task_done_release in Hstep; simpl in Hstep.
    destruct lk; simplify_eq/=; unfold_setters; split_workers Hw; close_alias A1.
  - unfold Queue_task_done in Hstep; simpl in Hstep.
    destruct uf; simplify_eq/=; unfold_setters; split_workers Hw; close_alias A1.
  - unfold Queue_get in Hstep; simpl in Hstep.
    destruct qu as [|v qu]; simplify_eq/=;
      unfold_setters; split_workers Hw; close_alias A1.
  - destruct (apply_pool_func behav fn v); simplify_eq/=;
      unfold_setters; split_workers Hw; close_alias A1.
  - unfold task_done_release in Hstep; simpl in Hstep.
    destruct lk; simplify_eq/=; unfold_setters; split_workers Hw; close_alias A1.
  - unfold Queue_task_done in Hstep; simpl in Hstep.
    destruct uf; simplify_eq/=; unfold_setters; split_workers Hw; close_alias A1.
  - unfold task_done_release in Hstep; simpl in Hstep.
    destruct lk; simplify_eq/=; unfold_setters; split_workers Hw; close_alias A1.
  - unfold Queue_task_done in Hstep; simpl in Hstep.
    destruct uf; simplify_eq/=; unfold_setters; split_workers Hw; close_alias A1.
  - done.
  - done.
Qed.

Lemma alias_inv_orchestrator s s' :
  orchestrator s = Some s' → alias_inv s → alias_inv s'.
Proof.
  destruct s as [q ws h m p sub ack cl iack pcl]. unfold orchestrator. simpl.
  intros Hstep [A1 A2 A3].
  destruct q as [lk fn sem mx qu uf]; simpl in *.
  destruct m as [|v k|v k| |j]; simpl in Hstep.
  - destruct p as [|[v|] p]; simplify_eq/=; by split.
  - unfold put_acquire in Hstep; simpl in Hstep.
    destruct lk; [destruct sem|]; simplify_eq/=; by split.
  - unfold Queue_put in Hstep; simpl in Hstep.
    destruct (bool_decide (0 < mx) && bool_decide (mx ≤ length qu));
      simplify_eq/=; by split.
  - destruct (Queue_join _); simplify_eq/=; by split.
  - destruct (ws !! j) as [w|]; simpl in Hstep; [|done].
    destruct (terminated w); simplify_eq/=; by split.
Qed.

Lemma alias_inv_step t s s' :
  thread_step behav t s = Some s' → alias_inv s → alias_inv s'.
Proof.
  destruct t as [|i]; simpl; [apply alias_inv_orchestrator|apply alias_inv_worker].
Qed.

Lemma alias_inv_reachable nworkers f (h : gmap addr (WorkQ Item)) p s0 s :
  start_workers nworkers f h p = Some s0 → reachable s0 s → alias_inv s.
Proof.
  intros H0 Hr. eapply reachable_invariant; [apply alias_inv_step| |done].
  by eapply alias_inv_start.
Qed.

(** ** What no step changes *)

Lemma frame_step t s s' : thread_step behav t s = Some s' → frame s' = frame s.
Proof.
  destruct s as [[lk fn sem mx qu uf] ws h m p sub ack cl iack pcl].
  destruct t as [|i]; simpl.
  - unfold orchestrator; simpl. destruct m as [|v k|v k| |j]; simpl.
    + destruct p as [|[v|] p]; by intros [= <-].
    + unfold put_acquire; simpl. destruct lk; [destruct sem|]; simpl; by intros [= <-].
    + unfold Queue_put; simpl. destruct (_ && _); simpl; by intros [= <-].
    + destruct (Queue_join _); by intros [= <-].
    + destruct (ws !! j) as [w|]; simpl; [|done].
      destruct (terminated w); by intros [= <-].
  - unfold worker; simpl. destruct (ws !! i) as [w|]; simpl; [|done].
    unfold frame, Queue_get, Queue_task_done, task_done_release; simpl.
    destruct w as [| | | |a|a wi|a|a|a|a| |v|v|v| | | |w0]; simpl; try done.
    + destruct qu as [|[|a|] qu]; simpl; [done|..];
        intros [= <-]; simpl; by rewrite length_insert.
    + destruct lk; intros [= <-]; simpl; by rewrite length_insert.
    + destruct uf; intros [= <-]; simpl; by rewrite length_insert.
    + intros [= <-]; simpl; by rewrite length_insert.
    + destruct (h !! a) as [wq|]; simpl; [destruct (queue wq); simpl; [done|]|];
        intros [= <-]; simpl; by rewrite length_insert.
    + destruct (h !! a) as [wq|]; simpl; [|done].
      destruct (apply_func _ _ _); intros [= <-]; simpl; by rewrite length_insert.
    + destruct (h !! a) as [wq|]; simpl; [|done].
      intros [= <-]; simpl; by rewrite length_insert.
    + destruct (h !! a) as [wq|]; simpl; [|done].
      destruct (unfinished_tasks wq); intros [= <-]; simpl; by rewrite length_insert.
    + destruct lk; intros [= <-]; simpl; by rewrite length_insert.
    + destruct uf; intros [= <-]; simpl; by rewrite length_insert.
    + destruct qu as [|v qu]; simpl; [done|];
        intros [= <-]; simpl; by rewrite length_insert.
    + destruct (apply_pool_func _ _ _); intros [= <-]; simpl; by rewrite length_insert.
    + destruct lk; intros [= <-]; simpl; by rewrite length_insert.
    + destruct uf; intros [= <-]; simpl; by rewrite length_insert.
    + destruct lk; intros [= <-]; simpl; by rewrite length_insert.
    + destruct uf; intros [= <-]; simpl; by rewrite length_insert.
Qed.

Lemma frame_reachable s s' : reachable s s' → frame s' = frame s.
Proof.
  intros Hr. apply (reachable_invariant (λ x, frame x = frame s) s s'); [|done|done].
  intros t s1 s2 Hs <-. by eapply frame_step.
Qed.

Lemma started_frame nworkers f (h : gmap addr (WorkQ Item)) p s0 :
  start_workers nworkers f h p = Some s0 →
  frame s0 = (Z.to_nat nworkers, negb (bool_decide (Z.to_nat nworkers = 0)), f,
              Z.to_nat nworkers)
  ∧ semaphore (w_workq s0) = Z.to_nat nworkers
  ∧ (0 ≤ nworkers)%Z.
Proof.
  intros Hs. destruct (Z.ltb_spec nworkers 0) as [Hn|Hn].
  { by rewrite start_workers_negative in Hs. }
  rewrite <-(Z2Nat.id nworkers), start_workers_state in Hs by done.
  injection Hs as <-. unfold frame; simpl. by rewrite length_replicate.
Qed.

(** ** C4: no more tasks in their handler than workers *)

Lemma executing_le_workers s : executing_count s ≤ length (w_workers s).
Proof.
  apply bind_length_bound. intros w. destruct w; simpl; lia.
Qed.

Lemma executing_le_unreleased s : executing_count s ≤ length (unreleased_all s).
Proof. apply bind_length_le, running_unreleased. Qed.

(** C4.  For a pool started with [nworkers] workers, whatever the
    orchestrating thread calls and however the threads interleave: the
    semaphore of the pool's queue starts at [nworkers]; there are [nworkers]
    worker threads; at no moment are more than [nworkers] handlers running;
    and the handlers running together with the free slots of the semaphore
    never exceed [nworkers], so that every running handler holds a slot. *)
Theorem executing_at_most_nworkers nworkers f (h : gmap addr (WorkQ Item)) p s0 s :
  start_workers nworkers f h p = Some s0 →
  reachable s0 s →
  semaphore (w_workq s0) = Z.to_nat nworkers
  ∧ length (w_workers s) = Z.to_nat nworkers
  ∧ executing_count s ≤ Z.to_nat nworkers
  ∧ executing_count s + semaphore (w_workq s) ≤ Z.to_nat nworkers.
Proof.
  intros H0 Hr.
  destruct (started_frame _ _ _ _ _ H0) as (Hf & Hsem & Hn).
  pose proof (frame_reachable _ _ Hr) as Hfr. rewrite Hf in Hfr.
  unfold frame in Hfr. injection Hfr as Hlen Hlk _ Hmx.
  destruct (pool_inv_reachable _ _ _ _ _ _ H0 Hr) as [I1 I2 I3 _ _ _ _].
  pose proof (executing_le_workers s). pose proof (executing_le_unreleased s).
  repeat split; [done|done|lia|].
  destruct (lock_req (w_workq s)); [lia|].
  destruct (decide (Z.to_nat nworkers = 0)) as [E|E].
  - lia.
  - rewrite bool_decide_eq_false_2 in Hlk by done. done.
Qed.

(** ** One shutdown after a sequence of submissions *)

(** A worker step leaves the orchestrating thread alone. *)
Lemma worker_frame i s s' :
  worker behav i s = Some s' →
  main s' = main s ∧ prog s' = prog s ∧ submitted s' = submitted s.
Proof.
  destruct s as [[lk fn sem mx qu uf] ws h m p sub ack cl iack pcl].
  unfold worker; simpl. destruct (ws !! i) as [w|]; simpl; [|done].
  unfold Queue_get, Queue_task_done; simpl.
  destruct w as [| | | |a|a wi|a|a|a|a| |v|v|v| | | |w0]; simpl; try done.
  - destruct qu as [|[|a|] qu]; simpl; [done|..]; by intros [= <-].
  - by intros [= <-].
  - destruct uf; by intros [= <-].
  - by intros [= <-].
  - destruct (h !! a) as [wq|]; simpl; [destruct (queue wq); simpl; [done|]|];
      by intros [= <-].
  - destruct (h !! a) as [wq|]; simpl; [|done].
    destruct (apply_func _ _ _); by intros [= <-].
  - destruct (h !! a) as [wq|]; simpl; [|done]. by intros [= <-].
  - destruct (h !! a) as [wq|]; simpl; [|done].
    destruct (unfinished_tasks wq); by intros [= <-].
  - by intros [= <-].
  - destruct uf; by intros [= <-].
  - destruct qu as [|v qu]; simpl; [done|]; by intros [= <-].
  - destruct (apply_pool_func _ _ _); by intros [= <-].
  - by intros [= <-].
  - destruct uf; by intros [= <-].
  - by intros [= <-].
  - destruct uf; by intros [= <-].
Qed.

Lemma held_lookup (ws : list (wpc Item)) i w :
  ws !! i = Some w → length (held w) ≤ length (ws ≫= held).
Proof.
  intros H. destruct (workers_split ws i w w H) as (pre & post & -> & _).
  rewrite bind_app, bind_cons, !length_app. lia.
Qed.

(** Once nothing is unfinished, the queue is empty and no worker holds an
    item: all that a worker can still do is to return after its [break]. *)
Lemma quiet_worker i s s' :
  pool_inv s → unfinished_tasks (w_workq s) = 0 → worker behav i s = Some s' →
  w_workers s !! i = Some WBreak ∧ s' = set_worker i WExited s.
Proof.
  intros [_ _ _ I4 _ _ _] Hu. rewrite Hu in I4.
  unfold worker. destruct (w_workers s !! i) as [w|] eqn:Hw; simpl; [|done].
  pose proof (held_lookup _ _ _ Hw) as Hh. unfold held_all in I4.
  destruct w; simpl in *; try lia; try done.
  - unfold Queue_get. destruct (queue (w_workq s)); simpl in *; [done|lia].
  - by intros [= <-].
Qed.

(** A thread that has ended does not move. *)
Lemma terminated_worker i s w :
  w_workers s !! i = Some w → terminated w = true → worker behav i s = None.
Proof. unfold worker. intros -> Ht. by destruct w. Qed.

Lemma all_terminated_worker i s :
  Forall (λ w, terminated w = true) (w_workers s) → worker behav i s = None.
Proof.
  intros Hall. destruct (w_workers s !! i) as [w|] eqn:Hw.
  - eapply terminated_worker; [done|]. by eapply (Forall_lookup_1 _ _ _ _ Hall).
  - unfold worker. by rewrite Hw.
Qed.

Lemma tasks_app l1 l2 : tasks (l1 ++ l2) = tasks l1 ++ tasks l2.
Proof. apply omap_app. Qed.

Lemma tasks_sentinels n : tasks (replicate n PNone) = [].
Proof. induction n as [|n IH]; [done|]. simpl. apply IH. Qed.

Lemma replicate_snoc {A} n (x : A) : replicate n x ++ [x] = replicate (S n) x.
Proof. induction n as [|n IH]; [done|]. simpl. by rewrite IH. Qed.

Lemma shutdown_inv_start nworkers f (h : gmap addr (WorkQ Item)) vs rest s0 :
  start_workers nworkers f h ((Wenque <$> vs) ++ EndWorkers :: rest) = Some s0 →
  shutdown_inv vs rest s0.
Proof.
  intros Hs. destruct (Z.ltb_spec nworkers 0) as [Hn|Hn].
  { by rewrite start_workers_negative in Hs. }
  rewrite <-(Z2Nat.id nworkers), start_workers_state in Hs by done.
  injection Hs as <-. unfold shutdown_inv; simpl. left. by exists [], vs.
Qed.

(** Every step keeps [shutdown_inv], up to the return from [end_workers];
    from there on only the orchestrating thread can move.  While the
    threads are joined, a worker that has left its loop may still return. *)
Lemma shutdown_inv_step vs rest t s s' :
  thread_step behav t s = Some s' → pool_inv s → shutdown_inv vs rest s →
  shutdown_inv vs rest s' ∨ (t = Main ∧ shut_down s ∧ prog s = rest).
Proof.
  intros Hstep Hinv HI.
  pose proof (frame_step _ _ _ Hstep) as Hfr. injection Hfr as Hlen _ _ _.
  destruct t as [|i]; simpl in Hstep.
  - (* the orchestrating thread *)
    destruct s as [q ws h m p sub ack cl iack pcl]. unfold orchestrator in Hstep.
    unfold shutdown_inv in *. simpl in *.
    destruct m as [|v k|v k| |j]; simpl in *.
    + destruct HI as [(sent & todo & -> & -> & ->)|(-> & ? & ? & ?)].
      * left. destruct todo as [|v todo]; simplify_eq/=.
        -- rewrite app_nil_r. destruct (length ws) as [|n] eqn:E; simpl.
           ++ by rewrite app_nil_r.
           ++ repeat split; auto; try lia. by rewrite Nat.sub_diag, app_nil_r.
        -- by exists sent, todo.
      * right. by repeat split.
    + left. destruct (put_acquire q) as [q'|]; simplify_eq/=. by destruct k.
    + left. destruct (Queue_put v q) as [q'|]; simplify_eq/=.
      destruct k as [|k]; simpl.
      * destruct HI as (sent & todo & -> & -> & ->). left.
        exists (sent ++ [v]), todo. by rewrite <-app_assoc.
      * destruct HI as (-> & -> & Hk & ->).
        rewrite <-app_assoc, replicate_snoc.
        replace (S (length ws - S k)) with (length ws - k) by lia.
        destruct k as [|k]; simpl.
        -- by rewrite Nat.sub_0_r.
        -- repeat split; auto; lia.
    + left. destruct (Queue_join q) eqn:Hj; simplify_eq/=.
      destruct HI as (-> & ->). unfold Queue_join in Hj.
      apply bool_decide_eq_true in Hj. unfold join_loop.
      case_bool_decide; simpl.
      * repeat split; auto.
      * right. repeat split; auto. destruct ws; simpl in *; [done|lia].
    + left. destruct (ws !! j) as [w|] eqn:Hw; simpl in Hstep; [|done].
      destruct (terminated w) eqn:Ht; simplify_eq/=.
      destruct HI as (-> & -> & Hu & Hj & Hall). unfold join_loop.
      assert (Forall (λ w, terminated w = true) (take (S j) ws)) as Hall'.
      { erewrite take_S_r by done. apply Forall_app. split; [done|].
        by apply Forall_singleton. }
      case_bool_decide; simpl.
      * repeat split; auto.
      * right. repeat split; auto.
        rewrite take_ge in Hall' by lia. done.
  - (* a worker *)
    left. destruct (worker_frame _ _ _ Hstep) as (Hm & Hp & Hsub).
    unfold shutdown_inv in *. rewrite Hm, Hp, Hsub, Hlen.
    destruct (main s) as [|v k|v k| |j]; auto.
    + destruct HI as [?|(? & ? & Hu & Hall)]; [by left|].
      by rewrite all_terminated_worker in Hstep.
    + destruct HI as (? & ? & Hu & Hj & Hall).
      destruct (quiet_worker _ _ _ Hinv Hu Hstep) as [Hw ->]. simpl.
      repeat split; auto.
      destruct (decide (i < j)).
      * rewrite take_insert_lt by done. by apply Forall_insert.
      * rewrite take_insert_ge by lia. done.
Qed.
Lemma shutdown_inv_reachable nworkers f (h : gmap addr (WorkQ Item)) vs s0 s :
  start_workers nworkers f h ((Wenque <$> vs) ++ [EndWorkers]) = Some s0 →
  reachable s0 s → pool_inv s ∧ shutdown_inv vs [] s.
Proof.
  intros H0 Hr.
  apply (reachable_invariant (λ x, pool_inv x ∧ shutdown_inv vs [] x) s0 s);
    [|split|done].
  - intros t s1 s2 Hstep [Hinv HI]. split; [by eapply pool_inv_step|].
    destruct (shutdown_inv_step _ _ _ _ _ Hstep Hinv HI)
      as [?|(-> & (Hm & _) & Hp)]; [done|].
    simpl in Hstep. unfold orchestrator in Hstep. by rewrite Hm, Hp in Hstep.
  - by eapply pool_inv_start.
  - by eapply shutdown_inv_start.
Qed.

(** With nothing unfinished the queue is empty, no worker holds an item,
    every item put was acknowledged, and every task acknowledged at the end
    of its turn had its handler return. *)
Lemma pool_inv_quiet s :
  pool_inv s → unfinished_tasks (w_workq s) = 0 →
  queue (w_workq s) = [] ∧ held_all s = []
  ∧ acked s ++ inner_acked s ≡ₚ submitted s
  ∧ tasks (acked s) ≡ₚ returned_tasks (calls s).
Proof.
  intros [_ _ _ I4 I5 I6 _] Hu. rewrite Hu in I4.
  assert (queue (w_workq s) = []) as Hq by (apply length_zero_iff_nil; lia).
  assert (held_all s = []) as Hh by (apply length_zero_iff_nil; lia).
  assert (finishing_all s = []) as Hf.
  { apply length_zero_iff_nil.
    pose proof (bind_length_le finishing held (w_workers s) finishing_held).
    unfold finishing_all. unfold held_all in Hh. rewrite Hh in H. simpl in H. lia. }
  rewrite Hq, Hh in I5. simpl in I5. rewrite Hf, app_nil_r in I6.
  repeat split; auto. by rewrite I5.
Qed.

Lemma self_finishing_held w : length (self_finishing w) ≤ length (held w).
Proof. induction w; simpl; lia. Qed.

(** The pool's [func] is called at most as often as the pool's own queue
    was submitted: never, when it never was. *)
Lemma pool_calls_bound s :
  pool_inv s → alias_inv s → length (pool_calls s) ≤ length (selves (submitted s)).
Proof.
  intros [_ _ _ _ I5 _ _] [_ A2 _].
  assert (length (selves (submitted s))
          = length (selves (queue (w_workq s) ++ held_all s ++ acked s ++ inner_acked s)))
    as ->.
  { unfold selves. by rewrite I5. }
  rewrite !selves_app. rewrite !selves_app in A2. lia.
Qed.

Lemma no_self_no_pool_call s :
  pool_inv s → alias_inv s → PSelf ∉ submitted s →
  pool_calls s = [] ∧ inner_acked s = [].
Proof.
  intros Hinv Ha Hno. pose proof (pool_calls_bound s Hinv Ha) as Hb.
  assert (selves (submitted s) = []) as Hs.
  { clear Hb. induction (submitted s) as [|v l IH]; [done|].
    apply not_elem_of_cons in Hno as [Hv Hl]. unfold selves. simpl.
    destruct v; try done; by apply IH. }
  rewrite Hs in Hb. simpl in Hb.
  assert (pool_calls s = []) as Hp by (apply length_zero_iff_nil; lia).
  split; [done|]. destruct Ha as [A1 _ _]. rewrite Hp in A1. simpl in A1.
  apply Permutation_nil_r in A1. by apply app_eq_nil in A1 as [? _].
Qed.

(** With nothing unfinished, the items that [wq.get()] took from the
    pool's own queue are those on which the pool's [func] returned. *)
Lemma alias_inv_quiet s :
  alias_inv s → held_all s = [] →
  inner_acked s ≡ₚ pool_returned (pool_calls s).
Proof.
  intros [A1 _ _] Hh.
  assert (self_finishing_all s = []) as Hf.
  { apply length_zero_iff_nil.
    pose proof (bind_length_le self_finishing held (w_workers s) self_finishing_held).
    unfold self_finishing_all. unfold held_all in Hh. rewrite Hh in H. simpl in H. lia. }
  by rewrite Hf, app_nil_r in A1.
Qed.

(** ** C6: [end_workers] called a second time *)

Lemma second_shutdown_inv_step t s s' :
  thread_step behav t s = Some s' → pool_inv s →
  second_shutdown_inv s → second_shutdown_inv s'.
Proof.
  intros Hstep [_ _ _ I4 _ _ _] (Hp & Hall & Hm).
  destruct t as [|i]; simpl in Hstep; [|by rewrite all_terminated_worker in Hstep].
  destruct s as [q ws h m p sub ack cl]. unfold orchestrator in Hstep.
  unfold second_shutdown_inv. simpl in *.
  destruct m as [|v k|v k| |j]; simpl in *; try done.
  - destruct k as [|k]; [done|].
    destruct (put_acquire q) as [q'|] eqn:Hq; simplify_eq/=.
    unfold put_acquire in Hq.
    destruct (lock_req q); [destruct (semaphore q)|]; simplify_eq/=; tauto.
  - destruct k as [|k]; [done|]. destruct Hm as (-> & Hk & Hqu).
    unfold Queue_put in Hstep.
    destruct (_ && _); simplify_eq/=. rewrite Hqu, replicate_snoc.
    replace (S (length ws - S k)) with (length ws - k) by lia.
    destruct k as [|k]; simpl.
    + rewrite Nat.sub_0_r. repeat split; auto; lia.
    + repeat split; auto; lia.
  - destruct Hm as [Hn Hqu]. unfold Queue_join in Hstep.
    rewrite Hqu, length_replicate in I4.
    rewrite bool_decide_eq_false_2 in Hstep by lia. done.
Qed.
Lemma double_shutdown_reachable nworkers f (h : gmap addr (WorkQ Item)) vs s0 s :
  (1 ≤ nworkers)%Z →
  start_workers nworkers f h ((Wenque <$> vs) ++ [EndWorkers; EndWorkers]) = Some s0 →
  reachable s0 s →
  pool_inv s ∧ (shutdown_inv vs [EndWorkers] s ∨ second_shutdown_inv s).
Proof.
  intros Hn H0 Hr.
  destruct (started_frame _ _ _ _ _ H0) as (Hf & _ & _).
  apply (reachable_invariant
    (λ x, frame x = frame s0
          ∧ pool_inv x ∧ (shutdown_inv vs [EndWorkers] x ∨ second_shutdown_inv x))
    s0 s) in Hr; [tauto| |].
  - intros t s1 s2 Hstep (Hfr & Hinv & HI).
    split; [by rewrite (frame_step _ _ _ Hstep)|].
    split; [by eapply pool_inv_step|].
    destruct HI as [HI|HI]; [|right; by eapply second_shutdown_inv_step].
    destruct (shutdown_inv_step _ _ _ _ _ Hstep Hinv HI)
      as [?|(-> & (Hm & Hu & Hall) & Hp)]; [by left|right].
    destruct (pool_inv_quiet _ Hinv Hu) as (Hq & _).
    rewrite Hf in Hfr. injection Hfr as Hlen _ _ _.
    simpl in Hstep. unfold orchestrator in Hstep. rewrite Hm, Hp in Hstep.
    injection Hstep as <-. unfold second_shutdown_inv; simpl.
    destruct (length (w_workers s1)) as [|n] eqn:E; [lia|]. simpl.
    repeat split; auto. by rewrite Nat.sub_diag.
  - split; [done|]. split; [by eapply pool_inv_start|].
    left. by eapply shutdown_inv_start.
Qed.

(** C6, as the code has it.  On a pool of at least one worker the
    orchestrating thread submits [vs] and calls [end_workers] twice.  The
    second call is not refused: it never returns, and once it stands in
    [self.w_workq.join()] the queue holds one more [None] per worker, every
    worker thread has ended, and no thread can move. *)
Theorem second_end_workers_hangs nworkers f (h : gmap addr (WorkQ Item)) vs s0 s :
  (1 ≤ nworkers)%Z →
  start_workers nworkers f h ((Wenque <$> vs) ++ [EndWorkers; EndWorkers]) = Some s0 →
  reachable s0 s →
  ¬ returned s
  ∧ (prog s = [] → main s = MJoinQueue →
       queue (w_workq s) = replicate (Z.to_nat nworkers) PNone
       ∧ Forall (λ w, terminated w = true) (w_workers s)
       ∧ deadlocked behav s).
Proof.
  intros Hn H0 Hr.
  destruct (double_shutdown_reachable _ _ _ _ _ _ Hn H0 Hr) as [Hinv HI].
  destruct (started_frame _ _ _ _ _ H0) as (Hf & _ & _).
  pose proof (frame_reachable _ _ Hr) as Hfr. rewrite Hf in Hfr.
  injection Hfr as Hlen _ _ _.
  split.
  - intros [Hm Hp]. destruct HI as [HI|(_ & _ & HI)].
    + unfold shutdown_inv in HI. rewrite Hm, Hp in HI.
      destruct HI as [(sent & todo & _ & Hp' & _)|(? & _)]; [|done].
      by destruct (Wenque <$> todo).
    + by rewrite Hm in HI.
  - intros Hp Hm. destruct HI as [HI|(_ & Hall & HI)].
    + unfold shutdown_inv in HI. rewrite Hm, Hp in HI. by destruct HI.
    + rewrite Hm, Hlen in HI. destruct HI as [Hpos Hq].
      repeat split; auto.
      intros [|i]; simpl; [|by apply all_terminated_worker].
      unfold orchestrator. rewrite Hm. unfold Queue_join.
      destruct Hinv as [_ _ _ I4 _ _ _].
      rewrite Hq, length_replicate in I4.
      by rewrite bool_decide_eq_false_2 by lia.
Qed.

(** ** One worker, one item: the paths through [Workers.worker] *)

Lemma run_step t sch s s1 r :
  thread_step behav t s = Some s1 → run behav sch s1 = r → run behav (t :: sch) s = r.
Proof. intros H1 H2. simpl. by rewrite H1. Qed.

(** One step of worker [i], whose program counter [Hw] gives. *)
Ltac worker_step Hw Hlt :=
  eapply run_step;
  [ unfold thread_step, worker; cbn [w_workers];
    first [ rewrite Hw | rewrite list_lookup_insert_eq by exact Hlt ];
    cbn [mbind option_bind];
    unfold Queue_get, Queue_task_done, task_done_release; simpl; reflexivity
  | cbv [set_worker set_workq set_heap set_main set_prog log_submitted
         log_acked log_call log_inner_acked log_pool_call w_workers w_workq
         heap main prog submitted acked calls inner_acked pool_calls];
    rewrite ?list_insert_insert_eq ].


(** One step of worker [i] that reads the heap at the address [Hh] names. *)
Ltac worker_heap_step Hw Hlt Hh Hf :=
  eapply run_step;
  [ unfold thread_step, worker; cbn [w_workers heap];
    first [ rewrite Hw | rewrite list_lookup_insert_eq by exact Hlt ];
    cbn [mbind option_bind];
    first [ rewrite Hh | rewrite lookup_insert_eq | idtac ];
    cbn [mbind option_bind func];
    rewrite ?Hf;
    unfold Queue_get, Queue_task_done, task_done_release; simpl; reflexivity
  | cbv [set_worker set_workq set_heap set_main set_prog log_submitted
         log_acked log_call log_inner_acked log_pool_call w_workers w_workq
         heap main prog submitted acked calls inner_acked pool_calls];
    rewrite ?list_insert_insert_eq, ?insert_insert_eq ].

Lemma worker_runs_task i s a rest wq wi more u :
  pool_inv s →
  w_workers s !! i = Some WGet →
  queue (w_workq s) = PObj a :: rest →
  heap s !! a = Some wq →
  queue wq = wi :: more →
  unfinished_tasks wq = S u →
  apply_func behav (func wq) wi = Returns →
  ∃ s', run behav (replicate 7 (Worker i)) s = Some s'
    ∧ w_workers s' = w_workers s
    ∧ queue (w_workq s') = rest
    ∧ unfinished_tasks (w_workq s) = S (unfinished_tasks (w_workq s'))
    ∧ semaphore (w_workq s') =
        (if lock_req (w_workq s) then S (semaphore (w_workq s)) else semaphore (w_workq s))
    ∧ heap s' =
        <[a := mkWorkQ (lock_req wq) (func wq)
                 (if lock_req wq then S (semaphore wq) else semaphore wq)
                 (maxsize wq) more u]> (heap s)
    ∧ calls s' = calls s ++ [mkCall a (func wq) wi Returns]
    ∧ acked s' = acked s ++ [PObj a]
    ∧ submitted s' = submitted s
    ∧ pool_calls s' = pool_calls s.
Proof.
  intros [_ _ _ I4 _ _ _] Hw Hq Hh Hiq Hiu Hf.
  pose proof (lookup_lt_Some _ _ _ Hw) as Hlt.
  destruct s as [[lk fn sem mx qu uf] ws h m p sub ack cl iack pcl].
  destruct wq as [ilk ifn isem imx iqu iuf].
  simpl in Hw, Hq, I4, Hlt, Hh, Hiq, Hiu, Hf. subst qu iqu iuf.
  destruct uf as [|uf]; [simpl in I4; lia|].
  destruct lk, ilk;
    (eexists; split;
     [ do 7 worker_heap_step Hw Hlt Hh Hf; rewrite list_insert_id by done; reflexivity
     | done ]).
Qed.

(** ** What a step changes *)

Lemma worker_changes i s s' :
  worker behav i s = Some s' →
  ∃ w', w_workers s' = <[i:=w']> (w_workers s).
Proof.
  destruct s as [[lk fn sem mx qu uf] ws h m p sub ack cl iack pcl].
  unfold worker; simpl. destruct (ws !! i) as [w|]; simpl; [|done].
  unfold Queue_get, Queue_task_done; simpl.
  destruct w as [| | | |a|a wi|a|a|a|a| |v|v|v| | | |w0]; simpl; try done.
  - destruct qu as [|[|a|] qu]; simpl; [done|..]; intros [= <-]; by eexists.
  - intros [= <-]; by eexists.
  - destruct uf; intros [= <-]; by eexists.
  - intros [= <-]; by eexists.
  - destruct (h !! a) as [wq|]; simpl; [destruct (queue wq); simpl; [done|]|];
      intros [= <-]; by eexists.
  - destruct (h !! a) as [wq|]; simpl; [|done].
    destruct (apply_func _ _ _); intros [= <-]; by eexists.
  - destruct (h !! a) as [wq|]; simpl; [|done]. intros [= <-]; by eexists.
  - destruct (h !! a) as [wq|]; simpl; [|done].
    destruct (unfinished_tasks wq); intros [= <-]; by eexists.
  - intros [= <-]; by eexists.
  - destruct uf; intros [= <-]; by eexists.
  - destruct qu as [|v qu]; simpl; [done|]; intros [= <-]; by eexists.
  - destruct (apply_pool_func _ _ _); intros [= <-]; by eexists.
  - intros [= <-]; by eexists.
  - destruct uf; intros [= <-]; by eexists.
  - intros [= <-]; by eexists.
  - destruct uf; intros [= <-]; by eexists.
Qed.

Lemma orchestrator_frame s s' :
  orchestrator s = Some s' →
  w_workers s' = w_workers s ∧ heap s' = heap s
  ∧ calls s' = calls s ∧ acked s' = acked s.
Proof.
  destruct s as [q ws h m p sub ack cl iack pcl]. unfold orchestrator; simpl.
  destruct m as [|v k|v k| |j]; simpl.
  - destruct p as [|[v|] p]; by intros [= <-].
  - destruct (put_acquire q); simpl; by intros [= <-].
  - destruct (Queue_put v q); simpl; by intros [= <-].
  - destruct (Queue_join q); by intros [= <-].
  - destruct (ws !! j) as [w|]; simpl; [|done].
    destruct (terminated w); by intros [= <-].
Qed.

(** A thread that has ended stays as it is, whatever the others do. *)
Lemma terminated_step t s s' i w :
  thread_step behav t s = Some s' →
  w_workers s !! i = Some w → terminated w = true →
  w_workers s' !! i = Some w.
Proof.
  intros Hstep Hw Ht. destruct t as [|j]; simpl in Hstep.
  - destruct (orchestrator_frame _ _ Hstep) as (-> & _). done.
  - destruct (worker_changes _ _ _ Hstep) as [w' ->].
    destruct (decide (j = i)) as [->|Hne].
    + by rewrite (terminated_worker _ _ _ Hw Ht) in Hstep.
    + by rewrite list_lookup_insert_ne.
Qed.

Lemma terminated_forever s s' i w :
  reachable s s' →
  w_workers s !! i = Some w → terminated w = true →
  w_workers s' !! i = Some w.
Proof.
  intros Hr Hw Ht.
  apply (reachable_invariant (λ x, w_workers x !! i = Some w) s s'); [|done|done].
  intros t s1 s2 Hstep H1. by eapply terminated_step.
Qed.

Lemma pool_inv_preserved s s' : pool_inv s → reachable s s' → pool_inv s'.
Proof. intros H Hr. eapply reachable_invariant; [apply pool_inv_step|done|done]. Qed.

(** ** C2: a handler that raises *)

(** C2, as the code has it.  [worker] has no [try]: when the handler
    raises, the exception leaves the loop and ends the thread.  The step
    records nothing but the call: the queues, the heap and the
    acknowledgements are as before, so neither queue is acknowledged and
    the admission slot is not released.  From then on that worker never
    moves again, and the pool's queue never gets back to nothing
    unfinished, whatever the other threads do. *)
Theorem handler_exception_ends_worker s i a wi wq :
  pool_inv s →
  w_workers s !! i = Some (WCall a wi) →
  heap s !! a = Some wq →
  apply_func behav (func wq) wi = Raises →
  ∃ s', thread_step behav (Worker i) s = Some s'
    ∧ w_workers s' = <[i := WRaised (WCall a wi)]> (w_workers s)
    ∧ w_workq s' = w_workq s ∧ heap s' = heap s ∧ acked s' = acked s
    ∧ calls s' = calls s ++ [mkCall a (func wq) wi Raises]
    ∧ ∀ s'', reachable s' s'' →
        w_workers s'' !! i = Some (WRaised (WCall a wi))
        ∧ worker behav i s'' = None
        ∧ 0 < unfinished_tasks (w_workq s'').
Proof.
  intros Hinv Hw Hh Hf.
  pose proof (lookup_lt_Some _ _ _ Hw) as Hlt.
  assert (worker behav i s = Some (set_worker i (WRaised (WCall a wi))
            (log_call (mkCall a (func wq) wi Raises) s))) as Hstep.
  { unfold worker. rewrite Hw. simpl. rewrite Hh. simpl. by rewrite Hf. }
  eexists. split; [exact Hstep|]. do 5 (split; [done|]).
  intros s'' Hr.
  assert (w_workers s'' !! i = Some (WRaised (WCall a wi))) as Hw''.
  { eapply terminated_forever; [done| |done]. simpl. by apply list_lookup_insert_eq. }
  split; [done|]. split; [by eapply terminated_worker|].
  assert (pool_inv s'') as [_ _ _ I4 _ _ _].
  { eapply pool_inv_preserved; [|done]. by eapply (pool_inv_step (Worker i)). }
  pose proof (held_lookup _ _ _ Hw'') as Hheld. simpl in Hheld.
  unfold held_all in I4. lia.
Qed.

(** ** C5: what the semaphore bounds *)

(** C5, as the code has it.  The queue of the pool is
    [WorkQ(func, nworkers)]: its capacity and its semaphore are the number
    of workers, not a second setting.  For a pool of at least one worker,
    in every reachable state, the free slots, the slot of a caller between
    [acquire] and [queue.Queue.put], the queued items and the items whose
    worker has not yet released add up to [nworkers]; so the queued items
    and the running handlers never exceed [nworkers], and a caller about to
    enqueue has taken its slot. *)
Theorem outstanding_at_most_nworkers nworkers f (h : gmap addr (WorkQ Item)) p s0 s :
  (1 ≤ nworkers)%Z →
  start_workers nworkers f h p = Some s0 →
  reachable s0 s →
  maxsize (w_workq s) = Z.to_nat nworkers
  ∧ length (w_workers s) = Z.to_nat nworkers
  ∧ lock_req (w_workq s) = true
  ∧ semaphore (w_workq s) + pending (main s) + length (queue (w_workq s))
    + length (unreleased_all s) = Z.to_nat nworkers
  ∧ length (queue (w_workq s)) + executing_count s ≤ Z.to_nat nworkers
  ∧ (∀ v k, main s = MPutEnqueue v k →
       semaphore (w_workq s) + length (queue (w_workq s))
       + length (unreleased_all s) < Z.to_nat nworkers).
Proof.
  intros Hn H0 Hr.
  destruct (started_frame _ _ _ _ _ H0) as (Hf & _ & _).
  pose proof (frame_reachable _ _ Hr) as Hfr. rewrite Hf in Hfr.
  unfold frame in Hfr. injection Hfr as Hlen Hlk _ Hmx.
  rewrite bool_decide_eq_false_2 in Hlk by lia. simpl in Hlk.
  destruct (pool_inv_reachable _ _ _ _ _ _ H0 Hr) as [_ _ I3 _ _ _ _].
  rewrite Hlk, Hmx in I3.
  pose proof (executing_le_unreleased s).
  repeat split; try done; try lia.
  intros v k Hm. rewrite Hm in I3. simpl in I3. lia.
Qed.

(** ** C9: the callable given to [start_workers] *)

Lemma heap_func_step t s s' a :
  thread_step behav t s = Some s' →
  func <$> heap s' !! a = func <$> heap s !! a.
Proof.
  destruct t as [|i]; simpl.
  { intros H. by destruct (orchestrator_frame _ _ H) as (_ & -> & _). }
  destruct s as [[lk fn sem mx qu uf] ws h m p sub ack cl iack pcl].
  unfold worker; simpl. destruct (ws !! i) as [w|]; simpl; [|done].
  unfold Queue_get, Queue_task_done, task_done_release; simpl.
  destruct w as [| | | |b|b wi|b|b|b|b| |v|v|v| | | |w0]; simpl; try done.
  - destruct qu as [|[|b|] qu]; simpl; [done|..]; by intros [= <-].
  - by intros [= <-].
  - destruct uf; by intros [= <-].
  - by intros [= <-].
  - destruct (h !! b) as [wq|] eqn:Hb; simpl; [|by intros [= <-]].
    destruct (queue wq); simpl; [done|]. intros [= <-]. simpl.
    destruct (decide (b = a)) as [->|Hne].
    + by rewrite lookup_insert_eq, Hb.
    + by rewrite lookup_insert_ne.
  - destruct (h !! b) as [wq|]; simpl; [|done].
    destruct (apply_func _ _ _); by intros [= <-].
  - destruct (h !! b) as [wq|] eqn:Hb; simpl; [|done]. intros [= <-]. simpl.
    destruct (decide (b = a)) as [->|Hne].
    + rewrite lookup_insert_eq, Hb. simpl. by destruct (lock_req wq).
    + by rewrite lookup_insert_ne.
  - destruct (h !! b) as [wq|] eqn:Hb; simpl; [|done].
    destruct (unfinished_tasks wq); intros [= <-]; [done|]. simpl.
    destruct (decide (b = a)) as [->|Hne].
    + by rewrite lookup_insert_eq, Hb.
    + by rewrite lookup_insert_ne.
  - by intros [= <-].
  - destruct uf; by intros [= <-].
  - destruct qu as [|v qu]; simpl; [done|]; by intros [= <-].
  - destruct (apply_pool_func _ _ _); by intros [= <-].
  - by intros [= <-].
  - destruct uf; by intros [= <-].
  - by intros [= <-].
  - destruct uf; by intros [= <-].
Qed.

Lemma calls_by_inner_func_step t s s' :
  thread_step behav t s = Some s' → calls_by_inner_func s → calls_by_inner_func s'.
Proof.
  intros Hstep HI c Hc. rewrite (heap_func_step _ _ _ _ Hstep).
  destruct t as [|i]; simpl in Hstep.
  { destruct (orchestrator_frame _ _ Hstep) as (_ & _ & Hcl & _).
    rewrite Hcl in Hc. by apply HI. }
  revert Hstep Hc.
  destruct s as [[lk fn sem mx qu uf] ws h m p sub ack cl iack pcl].
  unfold calls_by_inner_func in HI. simpl in HI.
  unfold worker; simpl. destruct (ws !! i) as [w|]; simpl; [|done].
  unfold Queue_get, Queue_task_done, task_done_release; simpl.
  destruct w as [| | | |b|b wi|b|b|b|b| |v|v|v| | | |w0]; simpl; try done.
  - destruct qu as [|[|b|] qu]; simpl; [done|..]; intros [= <-]; simpl; auto.
  - intros [= <-]; simpl; auto.
  - destruct uf; intros [= <-]; simpl; auto.
  - intros [= <-]; simpl; auto.
  - destruct (h !! b) as [wq|] eqn:Hb; simpl; [|intros [= <-]; simpl; auto].
    destruct (queue wq); simpl; [done|]. intros [= <-]; simpl; auto.
  - destruct (h !! b) as [wq|] eqn:Hb; simpl; [|done].
    destruct (apply_func _ _ _); intros [= <-]; simpl;
      (intros [?|Hc]%elem_of_app; [by auto|]);
      apply list_elem_of_singleton in Hc as ->; simpl; by rewrite Hb.
  - destruct (h !! b) as [wq|] eqn:Hb; simpl; [|done]. intros [= <-]; simpl; auto.
  - destruct (h !! b) as [wq|] eqn:Hb; simpl; [|done].
    destruct (unfinished_tasks wq); intros [= <-]; simpl; auto.
  - intros [= <-]; simpl; auto.
  - destruct uf; intros [= <-]; simpl; auto.
  - destruct qu as [|v qu]; simpl; [done|]; intros [= <-]; simpl; auto.
  - destruct (apply_pool_func _ _ _); intros [= <-]; simpl; auto.
  - intros [= <-]; simpl; auto.
  - destruct uf; intros [= <-]; simpl; auto.
  - intros [= <-]; simpl; auto.
  - destruct uf; intros [= <-]; simpl; auto.
Qed.

(** An item that is not a [WorkQ] ends the worker that takes it: [wq.get]
    raises [AttributeError]. *)
Lemma not_a_workq_ends_worker s i a :
  w_workers s !! i = Some (WInnerGet a) →
  heap s !! a = None →
  worker behav i s = Some (set_worker i (WRaised (WInnerGet a)) s).
Proof. intros Hw Hh. unfold worker. rewrite Hw. simpl. by rewrite Hh. Qed.

(** One step of worker [i] in a turn on the pool's own queue. *)
Ltac worker_self_step Hw Hlt Hf :=
  eapply run_step;
  [ unfold thread_step, worker; cbn [w_workers w_workq func];
    first [ rewrite Hw | rewrite list_lookup_insert_eq by exact Hlt ];
    cbn [mbind option_bind];
    rewrite ?Hf;
    unfold Queue_get, Queue_task_done, task_done_release; simpl; reflexivity
  | cbv [set_worker set_workq set_heap set_main set_prog log_submitted
         log_acked log_call log_inner_acked log_pool_call w_workers w_workq
         heap main prog submitted acked calls inner_acked pool_calls];
    rewrite ?list_insert_insert_eq ].

(** A worker at the top of its loop that finds the pool's own queue at the
    head of the queue, and an item [v] behind it: [wq.get()] takes [v],
    [wq.func] is the callable of the pool, and both acknowledgements go to
    the pool's queue. *)
Lemma worker_runs_own_queue i s v rest :
  pool_inv s →
  w_workers s !! i = Some WGet →
  queue (w_workq s) = PSelf :: v :: rest →
  apply_pool_func behav (func (w_workq s)) v = Returns →
  ∃ s', run behav (replicate 7 (Worker i)) s = Some s'
    ∧ w_workers s' = w_workers s
    ∧ queue (w_workq s') = rest
    ∧ unfinished_tasks (w_workq s) = S (S (unfinished_tasks (w_workq s')))
    ∧ pool_calls s' = pool_calls s ++ [mkPoolCall (func (w_workq s)) v Returns]
    ∧ calls s' = calls s
    ∧ heap s' = heap s
    ∧ acked s' = acked s ++ [PSelf]
    ∧ inner_acked s' = inner_acked s ++ [v].
Proof.
  intros [_ _ _ I4 _ _ _] Hw Hq Hf.
  pose proof (lookup_lt_Some _ _ _ Hw) as Hlt.
  destruct s as [[lk fn sem mx qu uf] ws h m p sub ack cl iack pcl].
  simpl in Hw, Hq, I4, Hlt, Hf. subst qu.
  destruct uf as [|[|uf]]; [simpl in I4; lia..|].
  destruct lk;
    (eexists; split;
     [ do 7 worker_self_step Hw Hlt Hf; rewrite list_insert_id by done; reflexivity
     | done ]).
Qed.

(** C9, as the code has it.  The callable given to [start_workers] is kept
    in the [func] field of the pool's queue.  It is called, but only in a
    turn whose item is the pool's own queue: every call of it recorded is a
    call of the stored callable, there are at most as many of them as the
    pool's queue was submitted, and none when it never was; in such a turn
    [wq.get()] takes the next item of the pool's queue, the stored callable
    is called on it, and the pool's queue is acknowledged twice.  Every
    other call recorded is a call of the [func] of the [WorkQ] it was made
    for: a worker at the top of its loop that finds the [WorkQ] at [a] at
    the head of the queue takes exactly one element [wi] from that [WorkQ],
    calls the [WorkQ]'s own [func] on it, acknowledges the [WorkQ] and then
    the pool's queue, and is back at the top of the loop, without a call of
    the pool's [func].  An item that is no [WorkQ] ends the worker. *)
Theorem pool_func_called_on_own_queue_only nworkers f (h : gmap addr (WorkQ Item)) p
    s0 s i a rest wq wi more u :
  start_workers nworkers f h p = Some s0 →
  reachable s0 s →
  w_workers s !! i = Some WGet →
  queue (w_workq s) = PObj a :: rest →
  heap s !! a = Some wq →
  queue wq = wi :: more →
  unfinished_tasks wq = S u →
  apply_func behav (func wq) wi = Returns →
  func (w_workq s) = f
  ∧ calls_by_inner_func s
  ∧ Forall (λ c, pool_call_func c = f) (pool_calls s)
  ∧ length (pool_calls s) ≤ length (selves (submitted s))
  ∧ (PSelf ∉ submitted s → pool_calls s = [])
  ∧ (∀ s1 j v rest1, reachable s0 s1 →
       w_workers s1 !! j = Some WGet →
       queue (w_workq s1) = PSelf :: v :: rest1 →
       apply_pool_func behav f v = Returns →
       ∃ s2, run behav (replicate 7 (Worker j)) s1 = Some s2
         ∧ w_workers s2 = w_workers s1
         ∧ queue (w_workq s2) = rest1
         ∧ pool_calls s2 = pool_calls s1 ++ [mkPoolCall f v Returns]
         ∧ calls s2 = calls s1
         ∧ heap s2 = heap s1
         ∧ acked s2 = acked s1 ++ [PSelf]
         ∧ inner_acked s2 = inner_acked s1 ++ [v])
  ∧ (∀ j b, w_workers s !! j = Some (WInnerGet b) → heap s !! b = None →
       worker behav j s = Some (set_worker j (WRaised (WInnerGet b)) s))
  ∧ ∃ s', run behav (replicate 7 (Worker i)) s = Some s'
      ∧ w_workers s' = w_workers s
      ∧ queue (w_workq s') = rest
      ∧ unfinished_tasks (w_workq s) = S (unfinished_tasks (w_workq s'))
      ∧ heap s' =
          <[a := mkWorkQ (lock_req wq) (func wq)
                   (if lock_req wq then S (semaphore wq) else semaphore wq)
                   (maxsize wq) more u]> (heap s)
      ∧ calls s' = calls s ++ [mkCall a (func wq) wi Returns]
      ∧ acked s' = acked s ++ [PObj a]
      ∧ pool_calls s' = pool_calls s.
Proof.
  intros H0 Hr Hw Hq Hh Hiq Hiu Hf.
  destruct (started_frame _ _ _ _ _ H0) as (Hfr0 & _ & _).
  assert (∀ x, reachable s0 x → func (w_workq x) = f) as Hfunc.
  { intros x Hx. pose proof (frame_reachable _ _ Hx) as Hfr. rewrite Hfr0 in Hfr.
    unfold frame in Hfr. by injection Hfr as _ _ Hfn _. }
  pose proof (pool_inv_reachable _ _ _ _ _ _ H0 Hr) as Hinv.
  pose proof (alias_inv_reachable _ _ _ _ _ _ H0 Hr) as Ha.
  split; [by apply Hfunc|]. split.
  { apply (reachable_invariant calls_by_inner_func s0 s); [|  |done].
    - apply calls_by_inner_func_step.
    - destruct (Z.ltb_spec nworkers 0) as [Hn|Hn].
      { by rewrite start_workers_negative in H0. }
      rewrite <-(Z2Nat.id nworkers), start_workers_state in H0 by done.
      injection H0 as <-. intros c Hc. simpl in Hc. by apply elem_of_nil in Hc. }
  split.
  { destruct Ha as [_ _ A3]. by rewrite (Hfunc s Hr) in A3. }
  split; [by apply pool_calls_bound|].
  split; [intros Hno; by destruct (no_self_no_pool_call s Hinv Ha Hno)|].
  split.
  { intros s1 j v rest1 Hr1 Hw1 Hq1 Hf1.
    pose proof (pool_inv_reachable _ _ _ _ _ _ H0 Hr1) as Hinv1.
    rewrite <-(Hfunc s1 Hr1) in Hf1.
    destruct (worker_runs_own_queue _ _ _ _ Hinv1 Hw1 Hq1 Hf1)
      as (s2 & ? & ? & ? & _ & Hpc & ? & ? & ? & ?).
    rewrite (Hfunc s1 Hr1) in Hpc. by exists s2. }
  split; [intros j b; apply not_a_workq_ends_worker|].
  destruct (worker_runs_task _ _ _ _ _ _ _ _ Hinv Hw Hq Hh Hiq Hiu Hf)
    as (s' & Hrun & ? & ? & ? & _ & ? & ? & ? & _ & ?).
  by exists s'.
Qed.

(** ** C10: [None] on the queue *)



(** ** C3: a shutdown that completes all work, and returns *)

Ltac norm_state :=
  cbv [set_worker set_workq set_heap set_main set_prog log_submitted
       log_acked log_call log_inner_acked log_pool_call set_semaphore
       w_workers w_workq heap main prog submitted acked calls inner_acked
       pool_calls].

Lemma serve_one n f (h : gmap addr (WorkQ Item)) a wq wi p sub ack cl :
  h !! a = Some wq →
  head (queue wq) = Some wi →
  unfinished_tasks wq ≠ 0 →
  apply_func behav (func wq) wi = Returns →
  run behav (steps 3 Main ++ steps 7 (Worker 0))
      (at_rest n f h (Wenque (PObj a) :: p) sub ack cl)
  = Some (at_rest n f (<[a := after_task wq]> h) p (sub ++ [PObj a]) (ack ++ [PObj a])
            (cl ++ [mkCall a (func wq) wi Returns])).
Proof.
  intros Hh Hiq Hiu Hf.
  destruct wq as [ilk ifn isem imx iqu iuf]. simpl in Hiq, Hiu, Hf.
  destruct iqu as [|x more]; [done|]. injection Hiq as ->.
  destruct iuf as [|u]; [done|].
  assert (replicate (S n) (@WGet Item) !! 0 = Some WGet) as Hw by done.
  assert (0 < length (replicate (S n) (@WGet Item))) as Hlt by (simpl; lia).
  unfold steps. cbn [replicate app]. unfold at_rest.
  eapply run_step; [reflexivity|]. norm_state.
  eapply run_step; [reflexivity|]. norm_state.
  eapply run_step; [reflexivity|]. norm_state.
  destruct ilk; do 7 worker_heap_step Hw Hlt Hh Hf; reflexivity.
Qed.

Lemma serve_all vs : ∀ n f (h : gmap addr (WorkQ Item)) p sub ack cl,
  good_tasks behav h vs →
  ∃ h' ack' cl',
    run behav (sch_serve vs) (at_rest n f h ((Wenque <$> vs) ++ p) sub ack cl)
    = Some (at_rest n f h' p (sub ++ vs) ack' cl').
Proof.
  induction vs as [|v vs IH]; intros n f h p sub ack cl Hgood.
  - exists h, ack, cl. by rewrite app_nil_r.
  - destruct v as [|a|]; [done| |done].
    destruct Hgood as (wq & wi & Hh & Hiq & Hiu & Hf & Hgood).
    destruct (IH n f _ p (sub ++ [PObj a]) (ack ++ [PObj a])
                (cl ++ [mkCall a (func wq) wi Returns]) Hgood)
      as (h' & ack' & cl' & Hrun).
    exists h', ack', cl'.
    unfold sch_serve. rewrite bind_cons, run_app. rewrite fmap_cons. cbn [app].
    rewrite (serve_one n f h a wq wi) by done. cbn [mbind option_bind].
    fold (sch_serve vs). rewrite Hrun. by rewrite <-app_assoc.
Qed.
Lemma loading_step n f (h : gmap addr (WorkQ Item)) p sub ack cl k :
  k ≤ n →
  run behav [Main; Main] (loading n f h p sub ack cl k)
  = Some (match k with
          | 0 => taking n f h p sub ack cl 0 (S n)
          | S k' => loading n f h p sub ack cl k'
          end).
Proof.
  intros Hk. unfold loading.
  eapply run_step; [reflexivity|]. norm_state.
  eapply run_step.
  { cbn [thread_step]. unfold orchestrator, Queue_put.
    cbn [main w_workq maxsize queue mbind option_bind].
    rewrite length_replicate, (bool_decide_eq_false_2 (S n ≤ n - k)) by lia.
    rewrite andb_false_r. reflexivity. }
  norm_state. cbn [run lock_req func semaphore maxsize queue unfinished_tasks].
  rewrite <-app_assoc, replicate_snoc. f_equal.
  destruct k as [|k]; cbn [end_loop].
  - unfold taking. rewrite Nat.sub_0_r, app_nil_r. reflexivity.
  - unfold loading. replace (n - k) with (S (n - S k)) by lia. reflexivity.
Qed.

Lemma put_sentinels n f (h : gmap addr (WorkQ Item)) p sub ack cl k :
  k ≤ n →
  run behav (steps (2 * S k) Main) (loading n f h p sub ack cl k)
  = Some (taking n f h p sub ack cl 0 (S n)).
Proof.
  induction k as [|k IH]; intros Hk.
  - by apply loading_step.
  - replace (steps (2 * S (S k)) Main) with ([Main; Main] ++ steps (2 * S k) Main).
    + rewrite run_app, loading_step by done. cbn [mbind option_bind]. apply IH. lia.
    + unfold steps. replace (2 * S (S k)) with (S (S (2 * S k))) by lia. done.
Qed.
Lemma take_step n f (h : gmap addr (WorkQ Item)) p sub ack cl i j :
  run behav (steps 4 (Worker i)) (taking n f h p sub ack cl i (S j))
  = Some (taking n f h p sub ack cl (S i) j).
Proof.
  assert ((replicate i (@WExited Item) ++ replicate (S j) WGet) !! i = Some WGet) as Hw.
  { rewrite lookup_app_r by (rewrite length_replicate; lia).
    by rewrite length_replicate, Nat.sub_diag. }
  pose proof (lookup_lt_Some _ _ _ Hw) as Hlt.
  unfold steps. cbn [replicate]. unfold taking.
  do 4 worker_step Hw Hlt. cbn [run]. f_equal. f_equal.
  - rewrite insert_app_r_alt by (rewrite length_replicate; lia).
    rewrite length_replicate, Nat.sub_diag. cbn [replicate].
    change (<[0:=WExited]> (WGet :: replicate j (@WGet Item)))
      with (WExited :: replicate j (@WGet Item)).
    by rewrite cons_middle, app_assoc, replicate_snoc.
  - by rewrite <-app_assoc, replicate_snoc.
Qed.

Lemma take_some n f (h : gmap addr (WorkQ Item)) p sub ack cl j k : ∀ i,
  run behav (seq i k ≫= λ x, steps 4 (Worker x)) (taking n f h p sub ack cl i (k + j))
  = Some (taking n f h p sub ack cl (i + k) j).
Proof.
  induction k as [|k IH]; intros i.
  - by rewrite Nat.add_0_r.
  - cbn [seq Nat.add]. rewrite bind_cons, run_app, take_step. cbn [mbind option_bind].
    rewrite IH. do 2 f_equal. lia.
Qed.

Lemma take_all n f (h : gmap addr (WorkQ Item)) p sub ack cl j : ∀ i,
  run behav (seq i j ≫= λ k, steps 4 (Worker k)) (taking n f h p sub ack cl i j)
  = Some (taking n f h p sub ack cl (i + j) 0).
Proof.
  intros i. rewrite <-(Nat.add_0_r j) at 2. apply take_some.
Qed.

(** The last worker takes its sentinel, acknowledges it and stops after
    its [break]; the [join] of the queue returns all the same. *)
Lemma last_worker_lingers n f (h : gmap addr (WorkQ Item)) p sub ack cl :
  run behav (steps 3 (Worker n) ++ [Main]) (taking n f h p sub ack cl n 1)
  = Some (last_lingers n f h p sub ack cl (MJoinThread 0)).
Proof.
  assert ((replicate n (@WExited Item) ++ replicate 1 WGet) !! n = Some WGet) as Hw.
  { rewrite lookup_app_r by (rewrite length_replicate; lia).
    by rewrite length_replicate, Nat.sub_diag. }
  pose proof (lookup_lt_Some _ _ _ Hw) as Hlt.
  unfold steps. cbn [replicate app]. unfold taking.
  do 3 worker_step Hw Hlt.
  eapply run_step.
  { cbn [thread_step]. unfold orchestrator. cbn [main w_workq w_workers].
    unfold Queue_join. cbn [unfinished_tasks]. rewrite bool_decide_eq_true_2 by done.
    reflexivity. }
  norm_state. cbn [run]. f_equal. unfold last_lingers.
  rewrite length_insert, length_app, length_replicate.
  unfold join_loop. rewrite bool_decide_eq_true_2 by (simpl; lia).
  f_equal.
  - rewrite insert_app_r_alt by (rewrite length_replicate; lia).
    by rewrite length_replicate, Nat.sub_diag.
  - by rewrite <-app_assoc, replicate_snoc.
Qed.

Lemma join_threads n f (h : gmap addr (WorkQ Item)) p sub ack cl r : ∀ i,
  i + S r = S n →
  run behav (steps (S r) Main) (all_exited n f h p sub ack cl (MJoinThread i))
  = Some (all_exited n f h p sub ack cl MIdle).
Proof.
  induction r as [|r IH]; intros i Hi.
  - unfold steps. cbn [replicate]. eapply run_step; [|reflexivity].
    cbn [thread_step]. unfold orchestrator, all_exited. cbn [main w_workers].
    rewrite lookup_replicate_2 by lia. cbn [mbind option_bind terminated].
    rewrite length_replicate. unfold join_loop.
    by rewrite bool_decide_eq_false_2 by lia.
  - unfold steps. cbn [replicate]. eapply run_step; [|apply (IH (S i)); lia].
    cbn [thread_step]. unfold orchestrator, all_exited. cbn [main w_workers].
    rewrite lookup_replicate_2 by lia. cbn [mbind option_bind terminated].
    rewrite length_replicate. unfold join_loop.
    by rewrite bool_decide_eq_true_2 by lia.
Qed.

(** With items that are good tasks, the sequential schedule takes a pool
    of at least one worker through all submissions and through
    [end_workers], to its return. *)
Lemma sequential_shutdown_returns n f (h : gmap addr (WorkQ Item)) vs :
  good_tasks behav h vs →
  ∃ h' ack cl,
    run behav (sch_sequential (S n) vs)
        (at_rest n f h ((Wenque <$> vs) ++ [EndWorkers]) [] [] [])
    = Some (all_exited n f h' [] vs ack cl MIdle).
Proof.
  intros Hgood.
  destruct (serve_all vs n f h [EndWorkers] [] [] [] Hgood) as (h' & ack & cl & Hserve).
  exists h', ack, cl.
  unfold sch_sequential, sch_end_workers. rewrite run_app, Hserve.
  cbn [mbind option_bind app].
  replace (steps (1 + 2 * S n) Main) with ([Main] ++ steps (2 * S n) Main) by done.
  rewrite <-!app_assoc, run_app.
  assert (run behav [Main] (at_rest n f h' [EndWorkers] vs ack cl)
          = Some (loading n f h' [] vs ack cl n)) as ->.
  { unfold at_rest. eapply run_step; [reflexivity|]. norm_state. cbn [run]. f_equal.
    rewrite length_replicate. unfold loading. cbn [end_loop].
    rewrite Nat.sub_diag. cbn [replicate]. by rewrite app_nil_r. }
  cbn [mbind option_bind]. rewrite run_app, put_sentinels by done.
  replace (steps (1 + S n) Main) with ([Main] ++ steps (S n) Main) by done.
  cbn [mbind option_bind]. rewrite run_app, take_all.
  cbn [mbind option_bind Nat.add]. rewrite run_app.
  assert (run behav [Main] (taking n f h' [] vs ack cl (S n) 0)
          = Some (all_exited n f h' [] vs ack cl (MJoinThread 0))) as ->.
  { unfold taking. eapply run_step; [reflexivity|]. norm_state. cbn [run]. f_equal.
    unfold all_exited. rewrite length_app, !length_replicate.
    cbn [replicate]. by rewrite app_nil_r. }
  cbn [mbind option_bind]. apply join_threads. lia.
Qed.

(** On the same items another schedule has the orchestrating thread leave
    [self.w_workq.join()] while the last worker thread is still alive. *)
Lemma lingering_thread_reached n f (h : gmap addr (WorkQ Item)) vs :
  good_tasks behav h vs →
  ∃ h' ack cl,
    run behav (sch_linger n vs)
        (at_rest n f h ((Wenque <$> vs) ++ [EndWorkers]) [] [] [])
    = Some (last_lingers n f h' [] vs ack cl (MJoinThread 0)).
Proof.
  intros Hgood.
  destruct (serve_all vs n f h [EndWorkers] [] [] [] Hgood) as (h' & ack & cl & Hserve).
  exists h', ack, cl.
  unfold sch_linger. rewrite run_app, Hserve.
  cbn [mbind option_bind app].
  replace (steps (1 + 2 * S n) Main) with ([Main] ++ steps (2 * S n) Main) by done.
  rewrite <-!app_assoc, run_app.
  assert (run behav [Main] (at_rest n f h' [EndWorkers] vs ack cl)
          = Some (loading n f h' [] vs ack cl n)) as ->.
  { unfold at_rest. eapply run_step; [reflexivity|]. norm_state. cbn [run]. f_equal.
    rewrite length_replicate. unfold loading. cbn [end_loop].
    rewrite Nat.sub_diag. cbn [replicate]. by rewrite app_nil_r. }
  cbn [mbind option_bind]. rewrite run_app, put_sentinels by done.
  cbn [mbind option_bind]. rewrite run_app.
  replace (taking n f h' [] vs ack cl 0 (S n))
    with (taking n f h' [] vs ack cl 0 (n + 1)) by (f_equal; lia).
  rewrite take_some. cbn [mbind option_bind Nat.add]. apply last_worker_lingers.
Qed.

(** C3.  The orchestrating thread submits the items [vs] one after
    another and then calls [end_workers] once.  In every state the pool can
    reach: once the first loop of [end_workers] is left, what was put on
    the queue is [vs] followed by exactly one [None] for each worker; once
    [self.w_workq.join()] is left, nothing is unfinished, the queue is
    empty, no worker holds an item, every item put (the sentinels
    included) was acknowledged, and every task among [vs] had a handler
    return on it, each as often as it was submitted: its own [func] on its
    element or, for a task that a turn on the pool's own queue took, the
    pool's [func] on the task; when the pool's own queue is not among [vs],
    it is its own [func] for every task.  The [join] of the queue does not
    wait for the threads: a thread can still be alive when it returns.  The
    [join] of a thread does: the orchestrating thread does not move while
    that thread is alive, and once [end_workers] has returned, every worker
    thread has ended.  The return is reached: with at least one worker and
    items that are good tasks, the sequential schedule ends with
    [end_workers] returned. *)
Theorem shutdown_completes_all_work nworkers f (h : gmap addr (WorkQ Item)) vs s0 s :
  start_workers nworkers f h ((Wenque <$> vs) ++ [EndWorkers]) = Some s0 →
  reachable s0 s →
  (sentinels_sent s →
     submitted s = vs ++ replicate (Z.to_nat nworkers) PNone)
  ∧ (queue_joined s →
       unfinished_tasks (w_workq s) = 0
       ∧ queue (w_workq s) = [] ∧ held_all s = []
       ∧ acked s ++ inner_acked s ≡ₚ submitted s
       ∧ tasks vs ≡ₚ returned_tasks (calls s) ++ tasks (pool_returned (pool_calls s))
       ∧ (PSelf ∉ vs →
            acked s ≡ₚ submitted s ∧ tasks vs ≡ₚ returned_tasks (calls s)))
  ∧ (∀ i w, main s = MJoinThread i → w_workers s !! i = Some w →
       terminated w = false → thread_step behav Main s = None)
  ∧ (returned s →
       length (w_workers s) = Z.to_nat nworkers
       ∧ Forall (λ w, terminated w = true) (w_workers s))
  ∧ ((1 ≤ nworkers)%Z → good_tasks behav h vs →
       (∃ s', run behav (sch_sequential (Z.to_nat nworkers) vs) s0 = Some s'
          ∧ returned s')
       ∧ ∃ s1 i w, reachable s0 s1 ∧ queue_joined s1
           ∧ w_workers s1 !! i = Some w ∧ terminated w = false).
Proof.
  intros H0 Hr.
  assert ((1 ≤ nworkers)%Z → good_tasks behav h vs →
       (∃ s', run behav (sch_sequential (Z.to_nat nworkers) vs) s0 = Some s'
          ∧ returned s')
       ∧ ∃ s1 i w, reachable s0 s1 ∧ queue_joined s1
           ∧ w_workers s1 !! i = Some w ∧ terminated w = false) as Hlive.
  { intros Hn Hgood.
    destruct (Z.to_nat nworkers) as [|n] eqn:En; [lia|].
    rewrite <-(Z2Nat.id nworkers), En, start_workers_state in H0 by lia.
    injection H0 as <-. split.
    - destruct (sequential_shutdown_returns n f h vs Hgood) as (h' & ack & cl & Hrun).
      eexists. split; [exact Hrun|]. by split.
    - destruct (lingering_thread_reached n f h vs Hgood) as (h' & ack & cl & Hrun).
      eexists _, n, WBreak. split; [exact (run_reachable _ _ _ Hrun)|].
      split; [left; by exists 0|]. split; [|done].
      unfold last_lingers; cbn [w_workers].
      rewrite lookup_app_r by (rewrite length_replicate; lia).
      by rewrite length_replicate, Nat.sub_diag. }
  destruct (shutdown_inv_reachable _ _ _ _ _ _ H0 Hr) as [Hinv HI].
  pose proof (alias_inv_reachable _ _ _ _ _ _ H0 Hr) as Ha.
  destruct (started_frame _ _ _ _ _ H0) as (Hf & _ & _).
  pose proof (frame_reachable _ _ Hr) as Hfr. rewrite Hf in Hfr.
  injection Hfr as Hlen _ _ _.
  unfold shutdown_inv in HI. rewrite Hlen in HI.
  assert (returned s →
    submitted s = vs ++ replicate (Z.to_nat nworkers) PNone
    ∧ unfinished_tasks (w_workq s) = 0
    ∧ Forall (λ w, terminated w = true) (w_workers s)) as Hret.
  { intros [Hm Hp]. rewrite Hm in HI.
    destruct HI as [(sent & todo & _ & Hp' & _)|(_ & ? & ? & ?)]; [|done].
    rewrite Hp in Hp'. by destruct (Wenque <$> todo). }
  assert (queue_joined s →
    submitted s = vs ++ replicate (Z.to_nat nworkers) PNone
    ∧ unfinished_tasks (w_workq s) = 0) as Hjoined.
  { intros [[i Hm]|Hre].
    - rewrite Hm in HI. by destruct HI as (_ & ? & ? & _).
    - by destruct (Hret Hre) as (? & ? & _). }
  split; [|split; [|split; [|split; [|exact Hlive]]]].
  - intros [Hm|Hj].
    + rewrite Hm in HI. by destruct HI.
    + by destruct (Hjoined Hj).
  - intros Hj. destruct (Hjoined Hj) as [Hsub Hu].
    destruct (pool_inv_quiet _ Hinv Hu) as (Hq & Hh & Hack & Ht).
    pose proof (alias_inv_quiet _ Ha Hh) as Hia.
    assert (tasks vs ≡ₚ tasks (acked s) ++ tasks (inner_acked s)) as Htv.
    { rewrite <-tasks_app. unfold tasks at 2. rewrite Hack. fold (tasks (submitted s)).
      by rewrite Hsub, tasks_app, tasks_sentinels, app_nil_r. }
    do 4 (split; [done|]). split.
    + rewrite Htv, Ht. apply Permutation_app_head. unfold tasks. by rewrite Hia.
    + intros Hno.
      destruct (no_self_no_pool_call s Hinv Ha) as [Hpc Hi].
      { rewrite Hsub. intros [?|Hin]%elem_of_app; [done|].
        by apply elem_of_replicate in Hin as [? _]. }
      rewrite Hi, app_nil_r in Hack. split; [done|].
      rewrite Htv, Ht, Hi. simpl. by rewrite app_nil_r.
  - intros i w Hm Hw Ht. simpl. unfold orchestrator. rewrite Hm, Hw. simpl.
    by rewrite Ht.
  - intros Hre. by destruct (Hret Hre) as (_ & _ & ?).
Qed.
End PoolFacts.

(** * Waiting for a message *)

Section Await.
Context {A : Type}.
Implicit Types (m resp : list A) (arrivals : list (list A)).

(** What the loop ends with has the expected length, and everything
    taken from the queue before it had another one. *)
Lemma await_len_received n resp arrivals m rest :
  await_len n resp arrivals = Some (m, rest) →
  length m = n
  ∧ ∃ skipped, resp :: arrivals = skipped ++ m :: rest
      ∧ Forall (λ x, length x ≠ n) skipped.
Proof.
  revert resp. induction arrivals as [|x arrivals IH]; intros resp; simpl.
  - destruct (Nat.eqb_spec (length resp) n) as [E|E]; [|done].
    intros [= <- <-]. split; [done|]. by exists [].
  - destruct (Nat.eqb_spec (length resp) n) as [E|E].
    + intros [= <- <-]. split; [done|]. by exists [].
    + intros H. destruct (IH _ H) as (Hl & skipped & -> & Hs).
      split; [done|]. exists (resp :: skipped). split; [done|].
      by constructor.
Qed.

(** The loop runs into the timeout exactly when no message of the
    expected length is there. *)
Lemma await_len_timeout n resp arrivals :
  await_len n resp arrivals = None ↔ Forall (λ x, length x ≠ n) (resp :: arrivals).
Proof.
  revert resp. induction arrivals as [|x arrivals IH]; intros resp; simpl.
  - destruct (Nat.eqb_spec (length resp) n) as [E|E]; split; try done.
    + intros H. by apply Forall_cons in H as [? _].
    + intros _. by repeat constructor.
  - destruct (Nat.eqb_spec (length resp) n) as [E|E].
    + split; [done|]. intros H. by apply Forall_cons in H as [? _].
    + rewrite IH. split; [by constructor|]. intros H. by apply Forall_cons in H as [_ ?].
Qed.

(** C7.  Each background activity puts one aggregate message on its
    queue, and the loop of the test waits for it: a message of the expected
    shape, [n] fields.  When the loop returns, it returns a message of that
    shape, the first that arrived, and whatever arrived before it with
    another shape is dropped; in particular it returns the aggregate message
    when that is what arrives.  The loop ends in the timeout exactly when
    no message of that shape arrives in time, in particular when nothing
    arrives: [get] raises [queue.Empty], which nothing catches, so the test
    fails and no partial state is returned. *)
Theorem await_message_returns_or_times_out (n : nat) arrivals :
  n ≠ 0 →
  (∀ m rest, await_message n arrivals = Some (m, rest) →
     length m = n
     ∧ ∃ skipped, arrivals = skipped ++ m :: rest
         ∧ Forall (λ x, length x ≠ n) skipped)
  ∧ (await_message n arrivals = None ↔ Forall (λ x, length x ≠ n) arrivals)
  ∧ (∀ m, length m = n → await_message n [m] = Some (m, []))
  ∧ await_message (A:=A) n [] = None.
Proof.
  intros Hn. unfold await_message. split; [|split; [|split]].
  - intros m rest H. destruct (await_len_received _ _ _ _ _ H) as (Hl & skipped & E & Hs).
    split; [done|]. destruct skipped as [|x skipped]; simplify_eq/=.
    exists skipped. split; [done|]. by apply Forall_cons in Hs as [_ ?].
  - rewrite await_len_timeout. split.
    + intros H. by apply Forall_cons in H as [_ ?].
    + intros H. constructor; [simpl; lia|done].
  - intros m Hm. simpl. destruct n as [|n]; [done|]. simpl.
    by rewrite Hm, Nat.eqb_refl.
  - simpl. by destruct n.
Qed.
End Await.

(** * The fault window *)

Lemma event_signals_snoc e sgs sg :
  event_signals e (sgs ++ [sg]) = event_signal (event_signals e sgs) sg.
Proof. unfold event_signals. by rewrite foldl_app. Qed.

(** C8, as the code has it.  The window is a [threading.Event]: whatever
    signals it was sent, in whatever order, it is open exactly when the last
    of them was [set()].  So a second [set()] is accepted and leaves it
    open, and a [set()] after a [clear()] opens it again. *)
Theorem event_follows_last_signal (e : Event) (sgs : list signal) :
  is_set (event_signals e sgs) =
  match last sgs with
  | Some SignalOpen => true
  | Some SignalClose => false
  | None => is_set e
  end.
Proof.
  destruct sgs as [|sg sgs _] using rev_ind; [done|].
  rewrite event_signals_snoc, last_snoc. by destruct sg.
Qed.

(** * Operations outside the fault window *)





(** * The scenarios *)

Lemma demo_start_started (n : nat) p :
  start_workers (Z.of_nat n) None demo_heap p = Some (demo_start n p).
Proof. apply start_workers_state. Qed.


(** Each scenario state is the state its schedule leads to. *)
Ltac demo_reachable sch :=
  apply (run_reachable demo_behav sch); vm_compute; reflexivity.

Lemma handler_exception_ends_worker_witness :
  ∃ s', thread_step demo_behav (Worker 0) demo_calling_bad = Some s'
    ∧ w_workers s' = [WRaised (WCall 1 8)]
    ∧ acked s' = []
    ∧ ∀ s'', reachable demo_behav s' s'' →
        worker demo_behav 0 s'' = None ∧ 0 < unfinished_tasks (w_workq s'').
Proof.
  destruct (handler_exception_ends_worker demo_behav demo_calling_bad 0 1 8
              (mkWorkQ true (Some 1) 0 1 [] 1))
    as (s' & Hstep & Hws & _ & _ & Hack & _ & Hdead).
  - apply (pool_inv_reachable demo_behav 1 None demo_heap prog_bad_task
             (demo_start 1 prog_bad_task)).
    + reflexivity.
    + demo_reachable (steps 3 Main ++ steps 2 (Worker 0)).
  - reflexivity.
  - vm_compute. reflexivity.
  - reflexivity.
  - exists s'. split; [exact Hstep|]. split; [exact Hws|]. split; [exact Hack|].
    intros s'' Hr. destruct (Hdead s'' Hr) as (_ & ? & ?). by split.
Defined.

(** C2 as stated fails: one worker, a task whose handler raises, and a
    second task behind it.  The worker is ended by the exception, the
    second [wenque] waits for a slot that is never released, nothing can
    move any more, and the only call made is the one that raised. *)
Lemma handler_exception_counterexample :
  ∃ s, demo_run 1 prog_bad_task (sch_raise ++ [Main]) = Some s
    ∧ w_workers s = [WRaised (WCall 1 8)]
    ∧ main s = MPutAcquire (PObj 0) FromWenque
    ∧ acked s = []
    ∧ calls s = [mkCall 1 (Some 1) 8 Raises]
    ∧ deadlocked demo_behav s.
Proof.
  eexists. split; [vm_compute; reflexivity|]. do 4 (split; [reflexivity|]).
  intros [|[|i]]; reflexivity.
Qed.

Lemma demo_good_tasks : good_tasks demo_behav demo_heap [PObj 0; PObj 2].
Proof.
  exists (demo_workq 0 7), 7. do 4 (split; [done|]).
  exists (demo_workq 0 9), 9. by do 4 (split; [done|]).
Qed.

Lemma shutdown_completes_all_work_witness :
  returned demo_done
  ∧ submitted demo_done = [PObj 0; PObj 2; PNone; PNone]
  ∧ tasks [PObj 0; PObj 2] ≡ₚ returned_tasks (calls demo_done)
  ∧ Forall (λ w, terminated w = true) (w_workers demo_done)
  ∧ (∃ s', run demo_behav (sch_sequential 2 [PObj 0; PObj 2])
             (demo_start 2 prog_two_tasks) = Some s'
       ∧ returned s')
  ∧ ∃ s1 i w, reachable demo_behav (demo_start 2 prog_two_tasks) s1
      ∧ queue_joined s1 ∧ w_workers s1 !! i = Some w ∧ terminated w = false.
Proof.
  assert (returned demo_done) as Hret by (split; reflexivity).
  destruct (shutdown_completes_all_work demo_behav 2 None demo_heap
              [PObj 0; PObj 2] (demo_start 2 prog_two_tasks) demo_done)
    as (Hsent & Hjoined & _ & Hended & Hlive).
  - reflexivity.
  - demo_reachable (sch_two_tasks ++ sch_shutdown_two).
  - split; [exact Hret|]. split; [apply Hsent; by do 2 right|].
    split.
    { destruct Hjoined as (_ & _ & _ & _ & _ & Hown); [by right|].
      apply Hown. intros Hin.
      repeat (apply elem_of_cons in Hin as [Hin|Hin]; [discriminate|]).
      by apply elem_of_nil in Hin. }
    split; [by apply Hended|].
    apply Hlive; [lia|exact demo_good_tasks].
Defined.

(** The [join] of a thread waits: one worker has acknowledged its sentinel
    and the [join] of the queue has returned, but until the worker has
    returned from [worker] the orchestrating thread cannot move; then it
    can, and [end_workers] returns. *)
Example join_waits_for_live_thread :
  main demo_joining = MJoinThread 0
  ∧ w_workers demo_joining = [WBreak]
  ∧ unfinished_tasks (w_workq demo_joining) = 0
  ∧ thread_step demo_behav Main demo_joining = None
  ∧ ∃ s, run demo_behav [Worker 0; Main] demo_joining = Some s
      ∧ w_workers s = [WExited] ∧ returned s.
Proof.
  do 4 (split; [reflexivity|]).
  eexists. split; [vm_compute; reflexivity|]. by repeat split.
Qed.

Lemma executing_at_most_nworkers_witness :
  semaphore (w_workq (demo_start 2 prog_two_tasks)) = Z.to_nat 2
  ∧ length (w_workers demo_running) = Z.to_nat 2
  ∧ executing_count demo_running ≤ Z.to_nat 2
  ∧ executing_count demo_running + semaphore (w_workq demo_running) ≤ Z.to_nat 2.
Proof.
  apply (executing_at_most_nworkers demo_behav 2 None demo_heap prog_two_tasks).
  - reflexivity.
  - demo_reachable sch_both_running.
Defined.

Lemma outstanding_at_most_nworkers_witness :
  maxsize (w_workq demo_running) = 2
  ∧ length (queue (w_workq demo_running)) + executing_count demo_running ≤ 2.
Proof.
  destruct (outstanding_at_most_nworkers demo_behav 2 None demo_heap prog_two_tasks
              (demo_start 2 prog_two_tasks) demo_running)
    as (Hcap & _ & _ & _ & Hout & _).
  - lia.
  - reflexivity.
  - demo_reachable sch_both_running.
  - split; [exact Hcap|exact Hout].
Defined.

(** C5 as stated fails: the capacity is not a setting of its own, it is
    the number of workers; and the slot is released before the task is
    acknowledged, as the state after the worker's release shows: the
    semaphore is back at 1 while the task is still unfinished and not
    acknowledged. *)
Lemma capacity_is_nworkers_counterexample :
  capacity 1 = Some 1 ∧ capacity 2 = Some 2 ∧ capacity 1 ≠ capacity 2
  ∧ ∃ s, demo_run 1 [Wenque (PObj 0)] (steps 3 Main ++ steps 6 (Worker 0)) = Some s
      ∧ w_workers s = [WOuterAck 0]
      ∧ semaphore (w_workq s) = 1
      ∧ unfinished_tasks (w_workq s) = 1
      ∧ acked s = [].
Proof.
  do 3 (split; [done|]).
  eexists. split; [vm_compute; reflexivity|]. by repeat split.
Qed.

Lemma second_end_workers_hangs_witness :
  ¬ returned demo_hung
  ∧ queue (w_workq demo_hung) = [PNone]
  ∧ deadlocked demo_behav demo_hung.
Proof.
  destruct (second_end_workers_hangs demo_behav 1 None demo_heap []
              (demo_start 1 [EndWorkers; EndWorkers]) demo_hung)
    as (Hnot & Hjoin).
  - lia.
  - reflexivity.
  - demo_reachable sch_double_shutdown.
  - split; [exact Hnot|].
    destruct Hjoin as (Hq & _ & Hdead); [reflexivity|reflexivity|].
    split; [exact Hq|exact Hdead].
Defined.

(** C6 as stated fails: on a pool of one worker that was shut down, the
    second [end_workers] puts one more [None] on the queue and comes to
    rest in [self.w_workq.join()]; the worker has ended, no thread can
    move, and nothing was raised. *)
Lemma second_end_workers_counterexample :
  ∃ s, demo_run 1 [EndWorkers; EndWorkers] sch_double_shutdown = Some s
    ∧ main s = MJoinQueue ∧ prog s = []
    ∧ w_workers s = [WExited]
    ∧ submitted s = [PNone; PNone]
    ∧ queue (w_workq s) = [PNone]
    ∧ deadlocked demo_behav s.
Proof.
  eexists. split; [vm_compute; reflexivity|]. do 5 (split; [reflexivity|]).
  intros [|[|i]]; reflexivity.
Qed.

Lemma await_message_returns_or_times_out_witness :
  (length [2; 3] = 2
   ∧ ∃ skipped, [[1]; [2; 3]; [4]] = skipped ++ [2; 3] :: [[4]]
       ∧ Forall (λ x : list nat, length x ≠ 2) skipped)
  ∧ await_message 2 [[2; 3]] = Some ([2; 3], [])
  ∧ await_message 2 ([] : list (list nat)) = None.
Proof.
  destruct (await_message_returns_or_times_out 2 [[1]; [2; 3]; [4]])
    as (Hrecv & _ & _ & _); [lia|].
  destruct (await_message_returns_or_times_out (A:=nat) 2 []) as (_ & _ & Hone & Hnone);
    [lia|].
  split; [apply Hrecv; reflexivity|]. split; [by apply Hone|exact Hnone].
Defined.

(** C8 as stated fails: the state machine of the specification refuses a
    second opening, and an opening after the close; the event takes both
    and is open afterwards. *)
Lemma event_reopens_counterexample :
  window_signals ClosedInitial [SignalOpen; SignalOpen] = None
  ∧ is_set (event_signals Event_init [SignalOpen; SignalOpen]) = true
  ∧ window_signals ClosedInitial [SignalOpen; SignalClose; SignalOpen] = None
  ∧ is_set (event_signals Event_init [SignalOpen; SignalClose; SignalOpen]) = true.
Proof. repeat split; reflexivity. Qed.

Lemma pool_func_called_on_own_queue_only_witness :
  func (w_workq demo_task_first) = Some 0
  ∧ pool_calls demo_task_first = []
  ∧ (∃ s2, run demo_behav (replicate 7 (Worker 1)) demo_own_queue_first = Some s2
       ∧ pool_calls s2 = [mkPoolCall (Some 0) (PObj 2) Returns]
       ∧ calls s2 = calls demo_own_queue_first
       ∧ heap s2 = heap demo_own_queue_first)
  ∧ ∃ s', run demo_behav (replicate 7 (Worker 0)) demo_task_first = Some s'
      ∧ calls s' = [mkCall 0 (Some 0) 7 Returns]
      ∧ acked s' = [PObj 0]
      ∧ pool_calls s' = [].
Proof.
  destruct (pool_func_called_on_own_queue_only demo_behav 2 (Some 0) demo_heap
              prog_own_queue demo_own_queue_start demo_task_first
              0 0 [PSelf] (demo_workq 0 7) 7 [] 0)
    as (Hfunc & _ & _ & _ & _ & Hown & _ & s' & Hrun & _ & _ & _ & _ & Hcalls
        & Hacked & Hpc).
  - reflexivity.
  - demo_reachable (steps 6 Main).
  - reflexivity.
  - reflexivity.
  - vm_compute. reflexivity.
  - reflexivity.
  - reflexivity.
  - reflexivity.
  - split; [exact Hfunc|]. split; [reflexivity|].
    split.
    + destruct (Hown demo_own_queue_first 1 (PObj 2) [])
        as (s2 & Hrun2 & _ & _ & Hpc2 & Hcalls2 & Hheap2 & _).
      * demo_reachable (steps 6 Main ++ steps 7 (Worker 0) ++ steps 3 Main).
      * reflexivity.
      * reflexivity.
      * reflexivity.
      * exists s2. split; [exact Hrun2|]. split; [exact Hpc2|].
        split; [exact Hcalls2|exact Hheap2].
    + exists s'. split; [exact Hrun|]. split; [exact Hcalls|].
      split; [exact Hacked|exact Hpc].
Defined.

(** C9 as stated fails: the pool's own queue is an object the caller can
    submit.  The worker that takes it takes the task behind it through
    [wq.get()] and calls the callable given to [start_workers] on that
    task; the task's own [func] is never called and its element stays where
    it is, yet both items are acknowledged. *)
Lemma pool_func_called_counterexample :
  ∃ s, run demo_behav (steps 6 Main ++ steps 7 (Worker 0))
         (demo_start_with (Some 0) 2 [Wenque PSelf; Wenque (PObj 0)]) = Some s
    ∧ func (w_workq s) = Some 0
    ∧ pool_calls s = [mkPoolCall (Some 0) (PObj 0) Returns]
    ∧ calls s = []
    ∧ heap s = demo_heap
    ∧ acked s = [PSelf] ∧ inner_acked s = [PObj 0]
    ∧ unfinished_tasks (w_workq s) = 0
    ∧ w_workers s = [WGet; WGet].
Proof. eexists. split; [vm_compute; reflexivity|]. by repeat split. Qed.

(** An item that is no [WorkQ]: nothing lives at address 5.  The worker
    that takes it is ended by the exception. *)
Example item_not_a_workq_ends_worker :
  ∃ s, demo_run 1 [Wenque (PObj 5)] (steps 3 Main ++ steps 2 (Worker 0)) = Some s
    ∧ w_workers s = [WRaised (WInnerGet 5)]
    ∧ calls s = [].
Proof. eexists. split; [vm_compute; reflexivity|]. by split. Qed.


(** A [None] of the caller's own ends the only worker: the task submitted
    behind it is queued and never run. *)
Example none_before_task_starves_it :
  ∃ s, demo_run 1 prog_none_first (steps 3 Main ++ steps 4 (Worker 0) ++ steps 3 Main)
         = Some s
    ∧ w_workers s = [WExited]
    ∧ queue (w_workq s) = [PObj 0]
    ∧ calls s = []
    ∧ deadlocked demo_behav s.
Proof.
  eexists. split; [vm_compute; reflexivity|]. do 3 (split; [reflexivity|]).
  intros [|[|i]]; reflexivity.
Qed.

(** Without workers [end_workers] has nothing to put and nothing to wait
    for: called twice on an empty pool it returns twice. *)
Example end_workers_twice_without_workers :
  ∃ s, demo_run 0 [EndWorkers; EndWorkers] (steps 4 Main) = Some s
    ∧ returned s
    ∧ submitted s = [].
Proof. eexists. split; [vm_compute; reflexivity|]. by repeat split. Qed.

(** Two workers and two tasks, the first of which raises: the other task
    is served by the second worker, which also takes the first sentinel;
    the second sentinel is left on the queue, the item of the dead worker
    stays unfinished, and [end_workers] comes to rest in its [join]. *)
Example raising_task_blocks_shutdown :
  ∃ s, demo_run 2 [Wenque (PObj 1); Wenque (PObj 0); EndWorkers]
         (steps 6 Main ++ steps 3 (Worker 0) ++ steps 7 (Worker 1)
          ++ steps 3 Main ++ steps 4 (Worker 1) ++ steps 2 Main) = Some s
    ∧ w_workers s = [WRaised (WCall 1 8); WExited]
    ∧ returned_tasks (calls s) = [0]
    ∧ main s = MJoinQueue
    ∧ unfinished_tasks (w_workq s) = 2
    ∧ deadlocked demo_behav s.
Proof.
  eexists. split; [vm_compute; reflexivity|]. do 4 (split; [reflexivity|]).
  intros [|[|[|i]]]; reflexivity.
Qed.

(** A failure in a log that the driver lists in [pass_res] fails the
    assertions, whenever the operation ran. *)
Example failure_in_pass_res_fails :
  verify_inflight (mkResponses [demo_before; demo_inside] []) = None.
Proof. reflexivity. Qed.
(** * The singleton *)

Section SingletonFacts.
Import SingletonMixin.
Context {Inst Args E : Type}.
Variable truthy : Inst → bool.
Variable construct : Args → result E Inst.

Implicit Types (st : cls_state Inst) (c : conc (Inst:=Inst) (Args:=Args) (E:=E)).

Local Abbreviation init_instance := (init_instance truthy construct).
Local Abbreviation reinit_instance := (reinit_instance truthy construct).
Local Abbreviation clear_instance := (clear_instance (E:=E) truthy).
Local Abbreviation get_instance := (get_instance (E:=E) truthy).
Local Abbreviation init_all := (init_all truthy construct).
Local Abbreviation is_set := (is_set truthy).
Local Abbreviation init_step := (init_step truthy construct).
Local Abbreviation init_run := (init_run truthy construct).
Local Abbreviation conc_inv := (conc_inv truthy).
Local Abbreviation pcs := (list (ipc (Inst:=Inst) (Args:=Args) (E:=E))).

Lemma init_instance_set a st :
  is_set st = true → init_instance a st = (Ok (), st).
Proof. intros H. unfold SingletonMixin.init_instance. by rewrite H. Qed.

Lemma init_all_cons a l st :
  init_all (a :: l) st = init_all l (init_instance a st).2.
Proof. done. Qed.

Lemma init_instance_unset a st :
  is_set st = false → init_instance a st = assign_new construct a st.
Proof. intros H. unfold SingletonMixin.init_instance. by rewrite H. Qed.

Lemma init_all_set l st : is_set st = true → init_all l st = st.
Proof.
  intros H. induction l as [|a l IH]; [done|].
  by rewrite init_all_cons, init_instance_set.
Qed.

(** X1: the first instance that [init_instance] makes stays: every later
    call, whatever its arguments, returns without making another. *)
Theorem init_instance_keeps_first a i l st :
  is_set st = false → construct a = Ok i → truthy i = true →
  let st' := init_all (a :: l) st in
  instance st' = Some i ∧ made st' = made st ++ [i] ∧ get_instance st' = Ok i.
Proof.
  intros Hst Ha Hi. cbn zeta.
  rewrite init_all_cons, init_instance_unset by done.
  unfold assign_new. rewrite Ha. cbn [snd].
  rewrite init_all_set by (unfold SingletonMixin.is_set; simpl; done).
  unfold SingletonMixin.get_instance. simpl. by rewrite Hi.
Qed.

(** X2: an instance that is false in a boolean context counts as none:
    when the class makes only such objects, every call of [init_instance]
    whose constructor returns makes a new one, and [get_instance] raises
    all the same. *)
Theorem falsy_instance_is_rebuilt l st :
  is_set st = false →
  (∀ a i, construct a = Ok i → truthy i = false) →
  let st' := init_all l st in
  made st' = made st ++ omap (λ a, match construct a with Ok i => Some i | Raise _ => None end) l
  ∧ get_instance st' = Raise CT_SINGLETON_NOT_INITIALIZED.
Proof.
  intros Hst Hf. cbn zeta. revert st Hst.
  induction l as [|a l IH]; intros st Hst.
  - unfold SingletonMixin.init_all. simpl. rewrite app_nil_r. split; [done|].
    unfold SingletonMixin.get_instance, SingletonMixin.is_set in *.
    destruct (instance st) as [i|]; simpl in *; [by rewrite Hst|done].
  - rewrite init_all_cons, init_instance_unset by done. unfold assign_new.
    cbn [omap list_omap].
    destruct (construct a) as [i|e] eqn:Ha; cbn [snd].
    + destruct (IH (mkCls (Some i) (made st ++ [i]))) as [E1 E2].
      { unfold SingletonMixin.is_set. simpl. eauto. }
      split; [|exact E2]. rewrite E1. simpl. by rewrite <-(assoc_L (++)).
    + by apply IH.
Qed.

(** X3: [reinit_instance] and [clear_instance] need an instance, and
    [get_instance] too: on a class without one each raises
    CT_SINGLETON_NOT_INITIALIZED, the constructor is not called and the
    class stays as it is; so does a class whose constructor raises,
    however often [init_instance] is tried. *)
Theorem uninitialized_stays l a st :
  is_set st = false →
  (∀ a, a ∈ l → ∃ e, construct a = Raise e) →
  let st' := init_all l st in
  st' = st
  ∧ get_instance st' = Raise CT_SINGLETON_NOT_INITIALIZED
  ∧ reinit_instance a st' = (Raise CT_SINGLETON_NOT_INITIALIZED, st)
  ∧ clear_instance st' = (Raise CT_SINGLETON_NOT_INITIALIZED, st).
Proof.
  intros Hst Hl. cbn zeta.
  assert (init_all l st = st) as ->.
  { induction l as [|b l IH]; [done|].
    rewrite init_all_cons, init_instance_unset by done. unfold assign_new.
    destruct (Hl b) as [e ->]; [by left|]. cbn [snd].
    apply IH. intros ??. apply Hl. by right. }
  split; [done|].
  unfold SingletonMixin.get_instance, SingletonMixin.reinit_instance,
    SingletonMixin.clear_instance.
  rewrite Hst. simpl. split; [|done].
  unfold SingletonMixin.is_set in Hst.
  destruct (instance st) as [i|]; simpl in *; [by rewrite Hst|done].
Qed.

(** X4: [reinit_instance] replaces the instance where [init_instance]
    keeps it, and after [clear_instance] the class is as before the first
    [init_instance]: [get_instance] raises and [init_instance] makes a new
    object. *)
Theorem reinit_replaces_clear_forgets a i st :
  is_set st = true → construct a = Ok i → truthy i = true →
  (init_instance a st).2 = st
  ∧ get_instance (reinit_instance a st).2 = Ok i
  ∧ get_instance (clear_instance st).2 = Raise CT_SINGLETON_NOT_INITIALIZED
  ∧ get_instance (init_instance a (clear_instance st).2).2 = Ok i
  ∧ made (init_instance a (clear_instance st).2).2 = made st ++ [i].
Proof.
  intros Hst Ha Hi.
  unfold SingletonMixin.init_instance, SingletonMixin.reinit_instance,
    SingletonMixin.clear_instance, assign_new.
  rewrite Hst, Ha. simpl.
  unfold SingletonMixin.get_instance, SingletonMixin.is_set. simpl.
  by rewrite ?Ha, ?Hi.
Qed.

Lemma list_split_insert {A} (l : list A) j x y :
  l !! j = Some x →
  ∃ pre post, l = pre ++ x :: post ∧ <[j:=y]> l = pre ++ y :: post.
Proof.
  intros H. exists (take j l), (drop (S j) l). split.
  - by rewrite take_drop_middle.
  - by apply insert_take_drop, lookup_lt_Some with x.
Qed.

Lemma assigning_building (cs : pcs) :
  length (cs ≫= assigning) ≤ length (cs ≫= building).
Proof.
  induction cs as [|pc cs IH]; [done|].
  rewrite !bind_cons, !length_app. destruct pc; simpl; lia.
Qed.

Lemma building_in_lock (cs : pcs) :
  length (cs ≫= building) ≤ length (cs ≫= in_lock).
Proof.
  induction cs as [|pc cs IH]; [done|].
  rewrite !bind_cons, !length_app. destruct pc; simpl; lia.
Qed.

Lemma conc_inv_start (l : list Args) :
  conc_inv (init_start (E:=E) l).
Proof.
  assert (∀ (B : Type) (f : _ → list B), (∀ a, f (ICheck a) = []) →
            ((ICheck <$> l) : pcs) ≫= f = []) as Hnil.
  { intros B f Hf. induction l as [|a l IH]; [done|].
    rewrite fmap_cons, bind_cons, Hf, IH. done. }
  split; unfold init_start; simpl; rewrite ?Hnil by done; simpl; auto; done.
Qed.

Ltac split_callers H :=
  let pre := fresh "pre" in
  let post := fresh "post" in
  let E1 := fresh "Ecs" in
  let E2 := fresh "Ecs'" in
  match type of H with
  | ?cs !! ?j = Some ?pc =>
      match goal with
      | |- context [<[j:=?pc']> cs] =>
          destruct (list_split_insert cs j pc pc' H) as (pre & post & E1 & E2);
          rewrite E2; clear E2; subst cs
      end
  end.

Lemma conc_inv_step j c c' :
  (∀ a i, construct a = Ok i → truthy i = true) →
  conc_inv c → init_step j c = Some c' → conc_inv c'.
Proof.
  intros Ht [I1 I2 I3 I4 I5] Hstep.
  destruct c as [[inst md] lk cs]. unfold SingletonMixin.init_step in Hstep.
  simpl in *. destruct (cs !! j) as [pc|] eqn:Hj; [|done]. simpl in Hstep.
  pose proof (assigning_building (take j cs)) as Hab1.
  pose proof (assigning_building (drop (S j) cs)) as Hab2.
  pose proof (building_in_lock (take j cs)) as Hbl1.
  pose proof (building_in_lock (drop (S j) cs)) as Hbl2.
  assert (is_set (mkCls inst md) = bool_decide (inst ≠ None)) as Hset.
  { unfold SingletonMixin.is_set. simpl. destruct inst as [i|]; simpl; [|done].
    rewrite Forall_forall in I4. rewrite I4; [done|].
    rewrite I3. simpl. by left. }
  assert (j < length cs) as Hlt by eauto using lookup_lt_Some.
  rewrite <-(take_drop_middle cs j _ Hj) in I1, I2, I3, I5.
  rewrite ?bind_app, ?bind_cons, ?length_app in *.
  destruct pc; simplify_eq; try done.
  all: repeat match goal with
       | H : (if ?b then _ else _) = Some _ |- _ => destruct b eqn:?; simplify_eq
       | H : match ?b with Ok _ => _ | Raise _ => _ end = Some _ |- _ =>
           destruct b eqn:?; simplify_eq
       end.
  all: unfold set_caller; simpl.
  all: rewrite ?Hset; try case_bool_decide.
  all: rewrite (insert_take_drop cs j) by done.
  all: try destruct lk; try destruct inst; simpl in *; try lia; try done.
  all: split; simpl; rewrite ?bind_app, ?bind_cons, ?length_app; simpl.
  all: try lia; try done; try (by right); try (by left).
  - rewrite I3, <-Permutation_middle, app_nil_r. apply Permutation_middle.
  - apply Forall_app. split; [done|]. apply Forall_singleton. eauto.
  - rewrite I3. by rewrite <-Permutation_middle.
Qed.

Lemma conc_inv_run sch (l : list Args) c :
  (∀ a i, construct a = Ok i → truthy i = true) →
  init_run sch (init_start l) = Some c → conc_inv c.
Proof.
  intros Ht. generalize (conc_inv_start l).
  generalize (init_start (Inst:=Inst) (E:=E) l).
  induction sch as [|j sch IH]; intros c0 Hc0 Hrun; simpl in Hrun.
  - by simplify_eq.
  - destruct (init_step j c0) as [c1|] eqn:Hs; [|done]. simpl in Hrun.
    eapply IH; [|done]. by eapply conc_inv_step.
Qed.

(** X5: however the threads that call [init_instance] on a fresh class
    are interleaved, the constructor returns at most one object, and a
    thread that is back from the call finds that object set. *)
Theorem init_instance_constructs_once sch (l : list Args) c :
  (∀ a i, construct a = Ok i → truthy i = true) →
  init_run sch (init_start l) = Some c →
  length (made (shared c)) ≤ 1
  ∧ (IReturned ∈ callers c →
     ∃ i, instance (shared c) = Some i ∧ made (shared c) = [i]
          ∧ get_instance (shared c) = Ok i).
Proof.
  intros Ht Hrun. destruct (conc_inv_run _ _ _ Ht Hrun) as [I1 I2 I3 I4 I5].
  pose proof (assigning_building (callers c)) as Hab.
  split.
  - rewrite I3, length_app. lia.
  - intros Hret. destruct I5 as [I5|I5].
    { destruct (list_elem_of_split _ _ Hret) as (pre & post & E').
      rewrite E', bind_app, bind_cons, !length_app in I5. simpl in I5. lia. }
    destruct (instance (shared c)) as [i|] eqn:Hi; [|done]. simpl in *.
    destruct (callers c ≫= assigning) as [|??] eqn:Has; [|simpl in *; lia].
    apply Permutation_singleton_r in I3. exists i. split; [done|]. split; [done|].
    unfold SingletonMixin.get_instance. rewrite Hi.
    rewrite I3, Forall_singleton in I4. by rewrite I4.
Qed.


End SingletonFacts.

(** * The report client *)

Section ReportClientFacts.
Import SingletonMixin ReportClient.
Context {Session : Type}.
Variable new_session : Session.

Local Abbreviation init_report_client := (init_report_client new_session).
Local Abbreviation init_report_client_times := (init_report_client_times new_session).
Local Abbreviation cstate := (cls_state (client (Session:=Session))).

Lemma new_with_keyword k v : new new_session ([], {[k := v]}) = Raise TypeError.
Proof. unfold new. cbn [fst snd]. by rewrite map_to_list_singleton. Qed.

Lemma init_report_client_unset (st : cstate) :
  is_set truthy st = false →
  init_report_client st = (Raise (Constructor TypeError), st).
Proof.
  intros H. unfold ReportClient.init_report_client.
  rewrite init_instance_unset by done. unfold assign_new.
  by rewrite new_with_keyword.
Qed.

(** X6: [init_report_client] passes [init_params=None] to a constructor
    that takes no argument: on a class without an instance every call
    raises TypeError and leaves it without one, so [report_client] raises
    CT_SINGLETON_NOT_INITIALIZED however often [init_report_client] was
    called; [ReportClient.init_instance()] is what sets the instance. *)
Theorem init_report_client_never_initialises n server (st : cstate) :
  is_set truthy st = false →
  let st' := init_report_client_times n st in
  st' = st
  ∧ init_report_client st' = (Raise (Constructor TypeError), st)
  ∧ report_client server st' = Raise CT_SINGLETON_NOT_INITIALIZED
  ∧ report_client server
      (init_instance truthy (new new_session) ([], ∅) st').2
    = Ok (mkClient new_session).
Proof.
  intros H. cbn zeta.
  assert (init_report_client_times n st = st) as ->.
  { induction n as [|n IH]; [done|].
    unfold ReportClient.init_report_client_times in *. simpl. rewrite IH.
    by rewrite init_report_client_unset. }
  split; [done|]. split; [by apply init_report_client_unset|].
  unfold report_client. split.
  - unfold get_instance. unfold is_set in H.
    destruct (instance st); simpl in *; done.
  - rewrite init_instance_unset by done. unfold assign_new, new. cbn [fst snd].
    rewrite map_to_list_empty. done.
Qed.

Lemma dict_get_insert_ne (d : kwargs) k k' v dflt :
  k ≠ k' → dict_get (<[k:=v]> d) k' dflt = dict_get d k' dflt.
Proof. intros. unfold dict_get. by rewrite lookup_insert_ne. Qed.

(** X7: [create_db_entry] reads its keyword arguments by name: one that
    is not among them, [test_id] or [test_id_labels] for instance, changes
    nothing in the payload; the payload's [testID] and [testIDLabels] are
    both read from [test_exec_time], like [testExecutionTime]. *)
Theorem create_db_entry_test_id_is_exec_time (kw : kwargs) k v t :
  k ∉ create_reads →
  kw !! "test_exec_time" = Some t →
  create_payload (<[k:=v]> kw) = create_payload kw
  ∧ payload_get (create_payload kw) "testID" = Some t
  ∧ payload_get (create_payload kw) "testIDLabels" = Some t
  ∧ payload_get (create_payload kw) "testExecutionTime" = Some t.
Proof.
  intros Hk Ht. split.
  - unfold create_payload.
    rewrite !dict_get_insert_ne; [done|..].
    all: intros ->; apply Hk; unfold create_reads; set_solver.
  - unfold payload_get, create_payload, dict_get. rewrite Ht. done.
Qed.

(** X8: [update_db_entry] sends empty credentials whatever it is given,
    and its payload depends on [build_type], [update_build_type] and [os]
    alone. *)
Theorem update_db_entry_payload (kw kw' : kwargs) :
  (∀ k, k ∈ update_reads → kw !! k = kw' !! k) →
  update_payload kw = update_payload kw'
  ∧ payload_get (update_payload kw) "db_username" = Some (VStr "")
  ∧ payload_get (update_payload kw) "db_password" = Some (VStr "").
Proof.
  intros H. split; [|done]. unfold update_payload, dict_get.
  rewrite !H; [done|..]; unfold update_reads; set_solver.
Qed.

End ReportClientFacts.

(** * The singleton and the report client at work *)

(** A class whose constructor refuses the argument 0. *)
Lemma init_instance_keeps_first_witness :
  let construct (a : nat) := if decide (a = 0) then Raise "ValueError" else Ok a in
  let st' := SingletonMixin.init_all (λ _, true) construct [7; 0; 9]
               (SingletonMixin.mkCls None []) in
  SingletonMixin.instance st' = Some 7 ∧ SingletonMixin.made st' = [7].
Proof.
  intros construct st'.
  destruct (init_instance_keeps_first (λ _, true) construct 7 7 [0; 9]
              (SingletonMixin.mkCls None []))
    as (Hi & Hm & _); [reflexivity..|].
  split; [exact Hi|exact Hm].
Defined.

(** A class whose instances are empty containers. *)
Lemma falsy_instance_is_rebuilt_witness :
  let construct (a : nat) := if decide (a = 0) then Raise "ValueError" else Ok a in
  let st' := SingletonMixin.init_all (λ _, false) construct [7; 0; 9]
               (SingletonMixin.mkCls None []) in
  SingletonMixin.made st' = [7; 9]
  ∧ SingletonMixin.get_instance (E:=string) (λ _, false) st'
    = Raise SingletonMixin.CT_SINGLETON_NOT_INITIALIZED.
Proof.
  intros construct st'.
  apply (falsy_instance_is_rebuilt (λ _, false) construct [7; 0; 9]
           (SingletonMixin.mkCls None [])); [reflexivity|].
  intros a i _. reflexivity.
Defined.

Lemma uninitialized_stays_witness :
  let construct (a : nat) := if decide (a = 0) then Raise "ValueError" else Ok a in
  SingletonMixin.init_all (λ _, true) construct [0; 0] (SingletonMixin.mkCls None [])
  = SingletonMixin.mkCls None [].
Proof.
  intros construct.
  destruct (uninitialized_stays (λ _, true) construct [0; 0] 3
              (SingletonMixin.mkCls None [])) as (H & _); [reflexivity| |exact H].
  intros a Ha. exists "ValueError".
  repeat (apply elem_of_cons in Ha as [->|Ha]); try reflexivity.
  by apply elem_of_nil in Ha.
Defined.

Lemma reinit_replaces_clear_forgets_witness :
  let construct (a : nat) := if decide (a = 0) then Raise "ValueError" else Ok a in
  let st := SingletonMixin.mkCls (Some 7) [7] in
  SingletonMixin.get_instance (E:=string) (λ _, true)
    (SingletonMixin.reinit_instance (λ _, true) construct 9 st).2 = Ok 9.
Proof.
  intros construct st.
  destruct (reinit_replaces_clear_forgets (λ _, true) construct 9 9 st)
    as (_ & H & _); [reflexivity..|exact H].
Defined.

(** Two threads: the second finds the lock taken, then the instance set. *)
Lemma init_instance_constructs_once_witness :
  let c := SingletonMixin.mkConc (E:=string) (SingletonMixin.mkCls (Some 5) [5]) false
             [SingletonMixin.IReturned; SingletonMixin.IReturned] in
  SingletonMixin.init_run (λ _, true) (λ a : nat, Ok a) [0; 1; 0; 0; 0; 0; 0; 1; 1; 1]
    (SingletonMixin.init_start [5; 6]) = Some c
  ∧ length (SingletonMixin.made (SingletonMixin.shared c)) ≤ 1.
Proof.
  intros c.
  assert (SingletonMixin.init_run (λ _, true) (λ a : nat, Ok a)
            [0; 1; 0; 0; 0; 0; 0; 1; 1; 1] (SingletonMixin.init_start [5; 6])
          = Some c) as Hrun by reflexivity.
  split; [exact Hrun|].
  destruct (init_instance_constructs_once (λ _, true) (λ a : nat, Ok a) _ _ c
              (λ _ _ _, eq_refl) Hrun) as [H _].
  exact H.
Defined.

Lemma init_report_client_never_initialises_witness :
  SingletonMixin.init_instance ReportClient.truthy (ReportClient.new 0)
    ([], {["init_params" := VNone]}) (SingletonMixin.mkCls None [])
  = (Raise (SingletonMixin.Constructor ReportClient.TypeError),
     SingletonMixin.mkCls None []).
Proof.
  destruct (init_report_client_never_initialises 0 3 VNone
              (SingletonMixin.mkCls None [])) as (_ & H & _); [reflexivity|].
  exact H.
Defined.

Lemma create_db_entry_test_id_is_exec_time_witness :
  let kw : kwargs := {["test_exec_time" := VInt 12]} in
  ReportClient.create_payload (<["test_id" := VStr "TEST-17"]> kw)
  = ReportClient.create_payload kw
  ∧ ReportClient.payload_get (ReportClient.create_payload kw) "testID"
    = Some (VInt 12).
Proof.
  intros kw.
  destruct (create_db_entry_test_id_is_exec_time kw "test_id" (VStr "TEST-17") (VInt 12))
    as (H1 & H2 & _).
  - unfold ReportClient.create_reads. intros H.
    repeat (apply elem_of_cons in H as [H|H]; [discriminate H|]).
    by apply elem_of_nil in H.
  - reflexivity.
  - split; [exact H1|exact H2].
Defined.

Lemma update_db_entry_payload_witness :
  let kw : kwargs := {["build_type" := VStr "Debug"]} in
  ReportClient.update_payload (<["db_password" := VStr "secret"]> kw)
  = ReportClient.update_payload kw.
Proof.
  intros kw.
  destruct (update_db_entry_payload (<["db_password" := VStr "secret"]> kw) kw)
    as (H & _); [|exact H].
  intros k Hk. unfold ReportClient.update_reads in Hk.
  apply lookup_insert_ne. intros <-.
  repeat (apply elem_of_cons in Hk as [Hk|Hk]; [discriminate Hk|]).
  by apply elem_of_nil in Hk.
Defined.

(** * The S3 test library *)

Section S3Facts.
Import Py S3TestLib.
Context {World : Type} `{!S3Lib World}.
Variable S3_CLIENT_ERROR : value.
Variable ct_args : value → value → list value.
Variable writable : string → bool.
Variable empty_range_msg : Z → Z → value.

Implicit Types (st : state World) (e : exc).

Local Abbreviation delete_bucket := (delete_bucket S3_CLIENT_ERROR ct_args).
Local Abbreviation delete_each := (delete_each S3_CLIENT_ERROR ct_args).
Local Abbreviation delete_multiple_buckets :=
  (delete_multiple_buckets S3_CLIENT_ERROR ct_args).
Local Abbreviation delete_all_buckets := (delete_all_buckets S3_CLIENT_ERROR ct_args).
Local Abbreviation bucket_list := (bucket_list S3_CLIENT_ERROR ct_args).

(** A handler raises, and leaves the state as it is. *)
Lemma reraise_raises {A} base e0 st :
  ∃ e, reraise (A:=A) S3_CLIENT_ERROR ct_args base e0 st = (Raise e, st).
Proof.
  unfold reraise, first_arg, mbind, py_bind, bind, raise, ret.
  destruct (base || is_Exception e0); [|by eexists].
  destruct (args e0); by eexists.
Qed.

Local Abbreviation M := (Py.M (state World)).
Local Abbreviation keeps_local := (keeps_local (World:=World)).

Lemma bind_ok {A B} (m : M A) (k : A → M B) st b st' :
  (m ≫= k) st = (Ok b, st') ↔
  ∃ a st1, m st = (Ok a, st1) ∧ k a st1 = (Ok b, st').
Proof.
  unfold mbind, py_bind, bind. destruct (m st) as [[a|e] st1]; split.
  - intros. by exists a, st1.
  - by intros (a' & st1' & [= -> ->] & ?).
  - done.
  - by intros (a' & st1' & [=] & ?).
Qed.

Lemma bind_raise {A B} (m : M A) (k : A → M B) st e st' :
  (m ≫= k) st = (Raise e, st') ↔
  m st = (Raise e, st') ∨ ∃ a st1, m st = (Ok a, st1) ∧ k a st1 = (Raise e, st').
Proof.
  unfold mbind, py_bind, bind. destruct (m st) as [[a|e0] st1]; split.
  - intros. right. by exists a, st1.
  - intros [[=]|(a' & st1' & [= -> ->] & ?)]. done.
  - intros [= -> ->]. by left.
  - intros [[= -> ->]|(a' & st1' & [=] & ?)]. done.
Qed.

Lemma try_except_ok {A} (m : M A) h st a st' :
  try_except m h st = (Ok a, st') → m st = (Ok a, st') ∨ ∃ e st1, m st = (Raise e, st1) ∧ h e st1 = (Ok a, st').
Proof.
  unfold try_except. destruct (m st) as [[a0|e] st1]; [by left|].
  intros. right. by exists e, st1.
Qed.

Lemma keeps_local_bind {A B} (m : M A) (k : A → M B) :
  keeps_local m → (∀ a, keeps_local (k a)) → keeps_local (m ≫= k).
Proof.
  intros Hm Hk st r st'. unfold mbind, py_bind, bind.
  destruct (m st) as [[a|e] st1] eqn:E; intros H.
  - destruct (Hm _ _ _ E) as [E1 E2]. destruct (Hk a _ _ _ H) as [E3 E4].
    split; congruence.
  - simplify_eq. by eapply Hm.
Qed.

Lemma keeps_local_try {A} (m : M A) h :
  keeps_local m → (∀ e, keeps_local (h e)) → keeps_local (try_except m h).
Proof.
  intros Hm Hh st r st'. unfold try_except.
  destruct (m st) as [[a|e] st1] eqn:E; intros H.
  - simplify_eq. by eapply Hm.
  - destruct (Hm _ _ _ E) as [E1 E2]. destruct (Hh e _ _ _ H) as [E3 E4].
    split; congruence.
Qed.

Lemma keeps_local_ret {A} (a : A) : keeps_local (mret a : M A).
Proof. by intros st r st' [= <- <-]. Qed.

Lemma keeps_local_raise {A} e : keeps_local (raise e : M A).
Proof. by intros st r st' [= <- <-]. Qed.

Lemma keeps_local_client {A} c (op : World → result exc A * World) :
  keeps_local (client c op).
Proof.
  intros st r st'. unfold client. destruct (op (world st)).
  by intros [= <- <-].
Qed.

Lemma keeps_local_now : keeps_local now.
Proof.
  intros st r st'. unfold now. destruct (time_str (world st)).
  by intros [= <- <-].
Qed.

Lemma keeps_local_reraise {A} base e :
  keeps_local (reraise (A:=A) S3_CLIENT_ERROR ct_args base e).
Proof.
  intros st r st' H.
  destruct (reraise_raises (A:=A) base e st) as [e' He].
  rewrite He in H. by simplify_eq.
Qed.

(** A wrapper returns [True] or raises. *)
Lemma delete_bucket_cases b force st :
  let st' w := mkState w (calls st ++ [DeleteBucket b force]) (files st) (lists st) in
  (∃ r w, s3_delete_bucket b force (world st) = (Ok r, w)
          ∧ delete_bucket b force st = (Ok (true, r), st' w))
  ∨ (∃ e0 e w, s3_delete_bucket b force (world st) = (Raise e0, w)
          ∧ reraise (A:=bool * value) S3_CLIENT_ERROR ct_args false e0 (st' w)
            = (Raise e, st' w)
          ∧ delete_bucket b force st = (Raise e, st' w)).
Proof.
  intros st'.
  unfold S3TestLib.delete_bucket, try_except, client, mbind, py_bind, bind, ret.
  destruct (s3_delete_bucket b force (world st)) as [[r|e0] w] eqn:E.
  - left. by exists r, w.
  - right. destruct (reraise_raises (A:=bool * value) false e0 (st' w)) as [e He].
    exists e0, e, w. by rewrite He.
Qed.

(** What the loop of [delete_multiple_buckets] does: it goes through the
    list until a deletion raises. *)
Lemma delete_each_cases bl rd st :
  (∃ st', delete_each bl rd st
          = (Ok (mkResponse (Deleted rd ++ bl) (CouldNotDelete rd)), st')
          ∧ calls st' = calls st ++ ((λ b, DeleteBucket b true) <$> bl)
          ∧ files st' = files st ∧ lists st' = lists st)
  ∨ (∃ k b e st', bl !! k = Some b
          ∧ delete_each bl rd st = (Raise e, st')
          ∧ calls st' = calls st ++ ((λ b, DeleteBucket b true) <$> take (S k) bl)
          ∧ files st' = files st ∧ lists st' = lists st
          ∧ ∃ e0 w w', s3_delete_bucket b true w = (Raise e0, w')
              ∧ reraise (A:=bool * value) S3_CLIENT_ERROR ct_args false e0 st'
                = (Raise e, st')).
Proof.
  revert rd st. induction bl as [|b bl IH]; intros rd st.
  - left. exists st. simpl. rewrite !app_nil_r. by destruct rd.
  - cbn [S3TestLib.delete_each]. unfold mbind, py_bind, bind.
    destruct (delete_bucket_cases b true st)
      as [(r & w & E & ->)|(e0 & e & w & E & Hre & ->)]; cbn [fst].
    + match goal with |- context [delete_each bl ?rd' ?st1] =>
        destruct (IH rd' st1) as [(st' & -> & Hc & Hf & Hl)
                                 |(k & b' & e & st' & Hk & -> & Hc & Hf & Hl & Hex)]
      end; simpl in *.
      * left. exists st'. rewrite <-(assoc_L (++)). simpl.
        split; [done|]. rewrite Hc, <-(assoc_L (++)). done.
      * right. exists (S k), b', e, st'. split; [done|]. split; [done|].
        rewrite Hc, <-(assoc_L (++)). done.
    + right. exists 0, b, e. eexists. split; [done|]. split; [done|]. simpl.
      split; [done|]. split; [done|]. split; [done|].
      by exists e0, (world st), w.
Qed.

(** X9: [delete_multiple_buckets] never reports a bucket it could not
    delete: [delete_bucket] returns [True] or raises, so either every
    bucket of the list was deleted, in order, and the result is [True] with
    all of them under [Deleted] and none under [CouldNotDelete], or the
    first deletion that fails raises, and the buckets after it were not
    touched. *)
Theorem delete_multiple_buckets_all_or_raise bl st :
  (∃ st', delete_multiple_buckets bl st = (Ok (true, mkResponse bl []), st')
          ∧ calls st' = calls st ++ ((λ b, DeleteBucket b true) <$> bl))
  ∨ (∃ k b e st', bl !! k = Some b
          ∧ delete_multiple_buckets bl st = (Raise e, st')
          ∧ calls st' = calls st ++ ((λ b, DeleteBucket b true) <$> take (S k) bl)).
Proof.
  unfold S3TestLib.delete_multiple_buckets, mbind, py_bind, bind.
  destruct (delete_each_cases bl (mkResponse [] []) st)
    as [(st' & -> & Hc & _)|(k & b & e & st' & Hk & -> & Hc & _)].
  - left. exists st'. simpl. done.
  - right. by exists k, b, e, st'.
Qed.

Lemma bucket_list_ok st r st' :
  bucket_list st = (Ok r, st') →
  ∃ listed w, s3_bucket_list (world st) = (Ok listed, w)
    ∧ r = (true, listed)
    ∧ st' = mkState w (calls st ++ [BucketList]) (files st) (lists st).
Proof.
  unfold S3TestLib.bucket_list. intros H.
  apply try_except_ok in H as [H|(e & st1 & _ & H)].
  - apply bind_ok in H as (listed & st1 & H & [= <- <-]).
    unfold client in H. destruct (s3_bucket_list (world st)) as [[l|?] w]; [|done].
    simplify_eq. by exists listed, w.
  - destruct (reraise_raises (A:=bool * list string) false e st1) as [e' He].
    rewrite He in H. done.
Qed.

(** X10: [delete_all_buckets] returns [True] whenever it returns, and
    with it not the dictionary of [delete_multiple_buckets] but its whole
    result, a pair that begins with [True] as well: every bucket that was
    listed is under [Deleted]. *)
Theorem delete_all_buckets_result st r st' :
  delete_all_buckets st = (Ok r, st') →
  ∃ listed w, s3_bucket_list (world st) = (Ok listed, w)
    ∧ r = (true, (true, mkResponse listed []))
    ∧ calls st' = calls st ++ BucketList :: ((λ b, DeleteBucket b true) <$> listed).
Proof.
  unfold S3TestLib.delete_all_buckets. intros H.
  apply bind_ok in H as ([ok listed] & st1 & Hl & H).
  apply bind_ok in H as (response & st2 & Hd & [= <- <-]).
  apply bucket_list_ok in Hl as (listed' & w & Hw & [= -> ->] & ->).
  exists listed', w. split; [done|].
  unfold S3TestLib.delete_multiple_buckets in Hd. cbn [snd] in Hd.
  apply bind_ok in Hd as (rd & st3 & Hd & Hr).
  match type of Hd with S3TestLib.delete_each _ _ ?bl ?rd0 ?st0 = _ =>
    destruct (delete_each_cases bl rd0 st0)
      as [(st4 & E & Hc & _)|(k & b & e & st4 & _ & E & _)];
    rewrite E in Hd; [|done]
  end.
  simplify_eq. simpl in *. unfold ret in Hr. simplify_eq. split; [done|].
  rewrite Hc. by rewrite <-(assoc_L (++)).
Qed.

Lemma upload_each_ok objs bucket_name file_path a st u st' :
  upload_each S3_CLIENT_ERROR ct_args objs bucket_name file_path a st = (Ok u, st') →
  default [] (lists st' !! a) = default [] (lists st !! a) ++ (auto_obj <$> objs)
  ∧ (∀ a', a' ≠ a → lists st' !! a' = lists st !! a').
Proof.
  revert st. induction objs as [|obj objs IH]; intros st; simpl.
  - intros [= _ <-]. by rewrite app_nil_r.
  - intros H. apply bind_ok in H as (r & st1 & Hu & H).
    apply bind_ok in H as ([] & st2 & Ha & H).
    apply IH in H as [-> Hother].
    assert (lists st1 = lists st) as E1.
    { eapply (keeps_local_try _ _ _ _ _ _ _ Hu). }
    unfold list_append, modify in Ha. simplify_eq. simpl in *.
    rewrite lookup_insert_eq. simpl. rewrite E1, <-(assoc_L (++)). split; [done|].
    intros a' Ha'. rewrite Hother by done. rewrite lookup_insert_ne by done.
    by rewrite E1.
  Unshelve.
  all: try (intros; apply keeps_local_reraise).
  apply keeps_local_bind; [apply keeps_local_client|intros; apply keeps_local_ret].
Qed.

Lemma keeps_local_create_bucket bucket_name :
  keeps_local (create_bucket S3_CLIENT_ERROR ct_args bucket_name).
Proof.
  apply keeps_local_try; [|intros; apply keeps_local_reraise].
  apply keeps_local_bind; [apply keeps_local_client|intros; apply keeps_local_ret].
Qed.

Lemma create_each_ok counts file_path obj_count a response st response' st' :
  create_each S3_CLIENT_ERROR ct_args counts file_path obj_count a response st
  = (Ok response', st') →
  length response' = length response + length counts
  ∧ (∀ ent, ent ∈ response' → ent ∈ response ∨ Objects ent = a)
  ∧ default [] (lists st' !! a)
    = default [] (lists st !! a)
      ++ mjoin (replicate (length counts) (auto_obj <$> range obj_count)).
Proof.
  revert response st. induction counts as [|count counts IH]; intros response st; simpl.
  - intros [= <- <-]. rewrite app_nil_r. split; [lia|]. split; [|done]. by left.
  - intros H. apply bind_ok in H as (t & st1 & Ht & H).
    apply bind_ok in H as (resp_bucket & st2 & Hb & H).
    apply bind_ok in H as ([] & st3 & Hu & H).
    apply IH in H as (Hlen & Hin & ->).
    apply upload_each_ok in Hu as [-> _].
    destruct (keeps_local_now _ _ _ Ht) as [_ E1].
    destruct (keeps_local_create_bucket _ _ _ _ Hb) as [_ E2].
    rewrite E2, E1, <-(assoc_L (++)). rewrite length_app in Hlen. simpl in Hlen.
    split; [lia|]. split; [|done].
    intros ent He. destruct (Hin ent He) as [He'|?]; [|by right].
    apply elem_of_app in He' as [?|He']; [by left|].
    apply list_elem_of_singleton in He' as ->. by right.
Qed.

(** X11: [create_multiple_buckets_with_objects] makes one list of object
    names before its loops and puts that same list into the entry of every
    bucket: when it returns, each of the [bucket_count] entries lists the
    objects of all the buckets, [bucket_count] times the names auto-obj-0,
    auto-obj-1, ..., which do not depend on the bucket. *)
Theorem create_multiple_buckets_share_objects bucket_count file_path obj_count
    st ok response st' :
  create_multiple_buckets_with_objects S3_CLIENT_ERROR ct_args
    bucket_count file_path obj_count st = (Ok (ok, response), st') →
  ok = true
  ∧ length response = Z.to_nat bucket_count
  ∧ ∀ ent, ent ∈ response →
      objects_of st' ent
      = mjoin (replicate (Z.to_nat bucket_count) (auto_obj <$> range obj_count))
      ∧ length (objects_of st' ent) = Z.to_nat bucket_count * Z.to_nat obj_count.
Proof.
  unfold create_multiple_buckets_with_objects. intros H.
  apply bind_ok in H as (a & st1 & Ha & H).
  apply bind_ok in H as (response' & st2 & Hc & [= <- <- <-]).
  split; [done|].
  apply try_except_ok in Hc as [Hc|(e & st3 & _ & Hc)]; last first.
  { destruct (reraise_raises (A:=list bucket_entry) false e st3) as [e' He].
    rewrite He in Hc. done. }
  apply create_each_ok in Hc as (Hlen & Hin & Hobjs).
  unfold new_list in Ha. simplify_eq. simpl in *.
  rewrite lookup_insert_eq in Hobjs. simpl in Hobjs.
  unfold range at 1 in Hlen. rewrite length_seq in Hlen.
  unfold range at 1 in Hobjs. rewrite length_seq in Hobjs.
  split; [done|]. intros ent He.
  destruct (Hin ent He) as [He'|Ha]; [by apply elem_of_nil in He'|].
  unfold objects_of. rewrite Ha, Hobjs. split; [done|].
  generalize (Z.to_nat bucket_count). intros n.
  induction n as [|n IHn]; [done|]. simpl.
  rewrite length_app, IHn, length_fmap. unfold range. rewrite length_seq. lia.
Qed.

Lemma write_random_ok path min_size max_size st u st' :
  rand_in_range →
  write_random writable empty_range_msg path min_size max_size st = (Ok u, st') →
  ∃ size, (1024000 * min_size ≤ size ≤ 1024000 * max_size)%Z
    ∧ files st' = <[path:=size]> (files st)
    ∧ calls st' = calls st.
Proof.
  intros Hrand H. unfold write_random in H.
  apply bind_ok in H as ([] & st1 & Ho & H).
  apply bind_ok in H as (n & st2 & Hn & H).
  apply bind_ok in H as (size & st3 & Hs & H).
  unfold open_wb in Ho. destruct (writable path); [|done].
  unfold set_files, modify in Ho, H. simplify_eq. simpl in *.
  unfold urandom in Hs. destruct (Z.ltb_spec n 0); [done|].
  unfold ret in Hs. simplify_eq.
  unfold randint in Hn. destruct (Z.leb_spec (1024000 * min_size) (1024000 * max_size));
    [|done].
  simpl in Hn.
  pose proof (Hrand _ _ (world st) H0) as Hr.
  destruct (rand (1024000 * min_size) (1024000 * max_size) (world st)) as [n' w].
  simplify_eq. simpl in *. exists size. split; [done|].
  by rewrite insert_insert_eq.
Qed.

Lemma put_each_ok objs bucket_name object_name min_size max_size file_path acc
    st res st' :
  rand_in_range →
  put_each writable empty_range_msg objs bucket_name object_name min_size max_size
    file_path acc st = (Ok res, st') →
  length res = length acc + length objs
  ∧ files st' = (if objs is [] then files st else delete file_path (files st))
  ∧ ∃ sizes, upload_sizes (calls st') = upload_sizes (calls st) ++ sizes
      ∧ length sizes = length objs
      ∧ Forall (λ size, (1024000 * min_size ≤ size ≤ 1024000 * max_size)%Z) sizes.
Proof.
  intros Hrand. revert acc st. induction objs as [|obj objs IH]; intros acc st; simpl.
  - intros [= <- <-]. split; [lia|]. split; [done|]. exists []. by rewrite app_nil_r.
  - intros H. apply bind_ok in H as (t & st1 & Ht & H).
    apply bind_ok in H as (present & st2 & Hp & H).
    apply bind_ok in H as ([] & st3 & Hrm & H).
    apply bind_ok in H as ([] & st4 & Hw & H).
    apply bind_ok in H as ([] & st5 & Hu & H).
    apply bind_ok in H as ([] & st6 & Hrm' & H).
    apply IH in H as (Hlen & Hfiles & sizes & Hsizes & Hlsizes & Hrange).
    rewrite length_app in Hlen. simpl in Hlen. split; [lia|].
    apply write_random_ok in Hw as (size & Hsize & Hf4 & Hc4); [|done].
    assert (files st1 = files st ∧ calls st1 = calls st) as [Hf1 Hc1].
    { unfold now in Ht. destruct (time_str (world st)). by simplify_eq. }
    unfold path_exists in Hp. simplify_eq.
    assert (delete file_path (files st3) = delete file_path (files st)
            ∧ calls st3 = calls st) as [Hf3 Hc3].
    { case_bool_decide.
      - unfold os_remove, path_exists in Hrm.
        apply bind_ok in Hrm as (present & st7 & [= <- <-] & Hrm).
        rewrite bool_decide_eq_true_2 in Hrm by done.
        unfold set_files, modify in Hrm. simplify_eq. simpl.
        by rewrite Hf1, Hc1, delete_delete_eq.
      - unfold mret, py_ret, ret in Hrm. simplify_eq. by rewrite Hf1, Hc1. }
    assert (files st5 = files st4
            ∧ upload_sizes (calls st5) = upload_sizes (calls st4) ++ [size])
      as [Hf5 Hc5].
    { unfold upload_file in Hu. apply bind_ok in Hu as (st7 & st8 & [= <- <-] & Hu).
      unfold client in Hu. destruct (s3_upload_file _ _ _ _) as [[[]|] w]; [|done].
      simplify_eq. simpl. split; [done|].
      unfold upload_sizes. rewrite omap_app. simpl.
      by rewrite Hf4, lookup_insert_eq. }
    assert (files st6 = delete file_path (files st) ∧ calls st6 = calls st5)
      as [Hf6 Hc6].
    { unfold os_remove, path_exists in Hrm'.
      apply bind_ok in Hrm' as (present & st7 & [= <- <-] & Hrm').
      rewrite Hf5, Hf4, lookup_insert_eq in Hrm'.
      rewrite bool_decide_eq_true_2 in Hrm' by done.
      unfold set_files, modify in Hrm'. simplify_eq. simpl.
      by rewrite Hf5, Hf4, delete_insert_eq. }
    split.
    { rewrite Hfiles. destruct objs; [done|]. by rewrite Hf6, delete_delete_eq. }
    exists (size :: sizes). rewrite Hsizes, Hc6, Hc5, Hc4, Hc3, <-(assoc_L (++)).
    split; [done|]. simpl. split; [lia|]. by constructor.
Qed.

(** X12: when [put_random_size_objects] returns, it returns [True] with
    [object_count] names, it has uploaded that many files, each of a size
    between 1024000 times [min_size] and 1024000 times [max_size], and the
    file at [file_path] is gone, whether it was there before or not. *)
Theorem put_random_size_objects_uploads bucket_name object_name min_size max_size
    object_count file_path st ok names st' :
  rand_in_range →
  put_random_size_objects S3_CLIENT_ERROR ct_args writable empty_range_msg
    bucket_name object_name min_size max_size object_count file_path st
  = (Ok (ok, names), st') →
  ok = true
  ∧ length names = Z.to_nat object_count
  ∧ files st' = (if decide (0 < object_count)%Z
                 then delete file_path (files st) else files st)
  ∧ ∃ sizes, upload_sizes (calls st') = upload_sizes (calls st) ++ sizes
      ∧ length sizes = Z.to_nat object_count
      ∧ Forall (λ size, (1024000 * min_size ≤ size ≤ 1024000 * max_size)%Z) sizes.
Proof.
  intros Hrand H. unfold put_random_size_objects in H.
  apply bind_ok in H as (objects_list & st1 & H & [= <- <- <-]).
  split; [done|].
  apply try_except_ok in H as [H|(e & st3 & _ & H)]; last first.
  { destruct (reraise_raises (A:=list string) true e st3) as [e' He].
    rewrite He in H. done. }
  apply put_each_ok in H as (Hlen & Hfiles & Hsizes); [|done].
  unfold range in *. rewrite length_seq in *. split; [done|]. split; [|done].
  rewrite Hfiles. case_decide.
  - destruct (Z.to_nat object_count) eqn:E; [lia|done].
  - by replace (Z.to_nat object_count) with 0 by lia.
Qed.

(** X13: with [min_size] above [max_size] the file is opened for writing
    before [randint] rejects the empty range: [put_random_size_objects]
    raises a CTException with the message of that ValueError, nothing is
    uploaded, and an empty file stays at [file_path]. *)
Theorem put_random_size_objects_empty_range bucket_name object_name min_size
    max_size object_count file_path st :
  (0 < object_count)%Z → (max_size < min_size)%Z → writable file_path = true →
  ∃ st', put_random_size_objects S3_CLIENT_ERROR ct_args writable empty_range_msg
           bucket_name object_name min_size max_size object_count file_path st
         = (Raise (mkExc CTException
                     (ct_args S3_CLIENT_ERROR
                        (empty_range_msg (1024000 * min_size) (1024000 * max_size)))),
            st')
    ∧ files st' = <[file_path:=0%Z]> (files st)
    ∧ calls st' = calls st.
Proof.
  intros Hcount Hsizes Hw.
  unfold put_random_size_objects, range.
  destruct (Z.to_nat object_count) as [|n] eqn:E; [lia|].
  cbn [seq put_each]. unfold try_except, mbind, py_bind, bind, now.
  destruct (time_str (world st)) as [t w]. unfold path_exists at 1. cbn [files].
  assert (write_random writable empty_range_msg file_path min_size max_size
          = λ st0, (Raise (mkExc ValueError
                             [empty_range_msg (1024000 * min_size) (1024000 * max_size)]),
                    mkState (world st0) (calls st0) (<[file_path:=0%Z]> (files st0))
                      (lists st0))) as ->.
  { unfold write_random, open_wb, randint, mbind, py_bind, bind. rewrite Hw.
    destruct (Z.leb_spec (1024000 * min_size) (1024000 * max_size)); [lia|].
    done. }
  case_bool_decide as Hex.
  - unfold os_remove, path_exists, mbind, py_bind, bind. cbn [files].
    rewrite bool_decide_eq_true_2 by done.
    unfold set_files, modify. cbn. eexists. split; [reflexivity|]. simpl.
    split; [|done]. by rewrite insert_delete_eq.
  - cbn. eexists. split; [reflexivity|]. done.
Qed.

End S3Facts.

(** * The S3 test library at work *)

Lemma delete_all_buckets_result_witness :
  ∃ listed w,
    S3TestLib.s3_bucket_list (S3TestLib.world (demo_store ["a"; "b"] ∅))
    = (Ok listed, w)
    ∧ (true, (true, S3TestLib.mkResponse ["a"; "b"] []))
      = (true, (true, S3TestLib.mkResponse listed []))
    ∧ S3TestLib.calls demo_deleted.2
      = S3TestLib.calls (demo_store ["a"; "b"] ∅)
        ++ S3TestLib.BucketList
           :: ((λ b, S3TestLib.DeleteBucket b true) <$> listed).
Proof.
  apply (delete_all_buckets_result (VStr "S3_CLIENT_ERROR") demo_ct_args
           (demo_store ["a"; "b"] ∅)).
  vm_compute. reflexivity.
Defined.

Lemma create_multiple_buckets_share_objects_witness :
  S3TestLib.objects_of demo_created.2 (S3TestLib.mkEntry (true, VNone) 0)
  = ["auto-obj-0"; "auto-obj-1"; "auto-obj-2";
     "auto-obj-0"; "auto-obj-1"; "auto-obj-2"].
Proof.
  destruct (create_multiple_buckets_share_objects (VStr "S3_CLIENT_ERROR") demo_ct_args
              2 "/tmp/f" 3 (demo_store [] ∅) true
              [S3TestLib.mkEntry (true, VNone) 0; S3TestLib.mkEntry (true, VNone) 0]
              demo_created.2) as (_ & _ & H).
  - vm_compute. reflexivity.
  - destruct (H (S3TestLib.mkEntry (true, VNone) 0)) as [H' _].
    + apply list_elem_of_here.
    + exact H'.
Defined.

Lemma put_random_size_objects_uploads_witness :
  S3TestLib.files demo_put.2 = delete "/tmp/f" {["/tmp/f" := 7%Z]}
  ∧ S3TestLib.upload_sizes (S3TestLib.calls demo_put.2) = [1024000%Z; 1024000%Z].
Proof.
  destruct (put_random_size_objects_uploads (VStr "S3_CLIENT_ERROR") demo_ct_args
              (λ _, true) (λ _ _, VStr "empty range for randrange()")
              "bkt" "obj" 1 2 2 "/tmp/f" (demo_store ["bkt"] {["/tmp/f" := 7%Z]})
              true ["obj_0_1.5"; "obj_1_1.5"] demo_put.2)
    as (_ & _ & Hfiles & sizes & Hsizes & _).
  - intros a b w Hab. simpl. lia.
  - vm_compute. reflexivity.
  - split; [exact Hfiles|]. vm_compute. reflexivity.
Defined.

Lemma put_random_size_objects_empty_range_witness :
  ∃ st', S3TestLib.put_random_size_objects (VStr "S3_CLIENT_ERROR") demo_ct_args
           (λ _, true) (λ _ _, VStr "empty range for randrange()")
           "bkt" "obj" 2 1 1 "/tmp/f" (demo_store ["bkt"] ∅)
         = (Raise (Py.mkExc Py.CTException
                     [VStr "S3_CLIENT_ERROR"; VStr "empty range for randrange()"]),
            st')
    ∧ S3TestLib.files st' = {["/tmp/f" := 0%Z]}.
Proof.
  destruct (put_random_size_objects_empty_range (VStr "S3_CLIENT_ERROR") demo_ct_args
              (λ _, true) (λ _ _, VStr "empty range for randrange()")
              "bkt" "obj" 2 1 1 "/tmp/f" (demo_store ["bkt"] ∅))
    as (st' & H & Hfiles & _); [lia|lia|reflexivity|].
  exists st'. split; [exact H|exact Hfiles].
Defined.

(** * The test class *)

Section TestFacts.
Import Py TestMultiDataPodFailure.
Context {World : Type} `{!Cluster World}.

Implicit Types (st : state World) (e : exc).
Local Abbreviation M := (Py.M (state World)).
Local Abbreviation keeps := (keeps (World:=World)).
Local Abbreviation same_attrs := (same_attrs (World:=World)).
Local Abbreviation same_cls := (same_cls (World:=World)).
Local Abbreviation same_checks := (same_checks (World:=World)).
Local Abbreviation same_pods := (same_pods (World:=World)).
Local Abbreviation same_state := (same_state (World:=World)).

Lemma test_bind_ok {A B} (m : M A) (k : A → M B) st b st' :
  (m ≫= k) st = (Ok b, st') ↔
  ∃ a st1, m st = (Ok a, st1) ∧ k a st1 = (Ok b, st').
Proof.
  unfold mbind, py_bind, bind. destruct (m st) as [[a|e] st1]; split.
  - intros. by exists a, st1.
  - by intros (a' & st1' & [= -> ->] & ?).
  - done.
  - by intros (a' & st1' & [=] & ?).
Qed.

Section Keeps.
Context (R : relation (state World)) `{!PreOrder R}.

Lemma keeps_bind {A B} (m : M A) (k : A → M B) :
  keeps R m → (∀ a, keeps R (k a)) → keeps R (m ≫= k).
Proof using Type*.
  intros Hm Hk st r st'. unfold mbind, py_bind, bind.
  destruct (m st) as [[a|e] st1] eqn:E; intros H.
  - etrans; [by eapply Hm|by eapply Hk].
  - simplify_eq. by eapply Hm.
Qed.

Lemma keeps_ret {A} (a : A) : keeps R (ret a : M A).
Proof using Type*. intros st r st' [= <- <-]. done. Qed.

Lemma keeps_mret {A} (a : A) : keeps R (mret a : M A).
Proof using Type*. apply keeps_ret. Qed.

Lemma keeps_raise {A} e : keeps R (raise e : M A).
Proof using Type*. intros st r st' [= <- <-]. done. Qed.

Lemma keeps_assert_true cond msg : keeps R (assert_true cond msg : M unit).
Proof using Type*. unfold assert_true. destruct cond; [apply keeps_ret|apply keeps_raise]. Qed.

Lemma keeps_len v : keeps R (len v : M nat).
Proof using Type*. destruct v; simpl; first [apply keeps_ret|apply keeps_raise]. Qed.

Lemma keeps_getitem v i : keeps R (getitem v i : M value).
Proof using Type*.
  destruct v; simpl; try apply keeps_raise.
  - destruct (String.get i s); [apply keeps_ret|apply keeps_raise].
  - destruct (l !! i); [apply keeps_ret|apply keeps_raise].
Qed.

Lemma keeps_no_attribute {A} name : keeps R (no_attribute (A:=A) name).
Proof using Type*. apply keeps_raise. Qed.

Lemma keeps_getattr name : keeps R (getattr name).
Proof using Type*.
  intros st r st'. unfold getattr, no_attribute, raise.
  destruct (self st !! name); [by intros [= <- <-]|].
  destruct (cls st !! name); by intros [= <- <-].
Qed.

Lemma keeps_dict_item d key : keeps R (dict_item d key).
Proof using Type*. unfold dict_item. destruct (vdict_get d key); [apply keeps_ret|apply keeps_raise]. Qed.

Lemma keeps_subscript v key : keeps R (subscript v key).
Proof using Type*. destruct v; simpl; try apply keeps_raise. apply keeps_dict_item. Qed.

Lemma keeps_dict_get_value v key : keeps R (dict_get_value v key).
Proof using Type*.
  destruct v; simpl; try apply keeps_no_attribute.
  all: destruct key; first [apply keeps_ret|apply keeps_raise|apply keeps_no_attribute].
Qed.

Lemma keeps_first_of name : keeps R (first_of name).
Proof using Type*. apply keeps_bind; [apply keeps_getattr|intros; apply keeps_getitem]. Qed.

Lemma keeps_string_of v : keeps R (string_of v).
Proof using Type*. destruct v; simpl; first [apply keeps_ret|apply keeps_raise]. Qed.

Lemma keeps_iter v : keeps R (iter v).
Proof using Type*. destruct v; simpl; first [apply keeps_ret|apply keeps_raise]. Qed.

Lemma keeps_exists_path path : keeps R (exists_path path).
Proof using Type*. intros st r st' [= <- <-]. done. Qed.

Lemma keeps_deploy_lc_obj_method name : keeps R (deploy_lc_obj_method name).
Proof using Type*.
  unfold deploy_lc_obj_method, ProvDeployK8sCortxLib.getattr.
  case_bool_decide; [apply keeps_ret|apply keeps_raise].
Qed.
End Keeps.

#[local] Instance same_attrs_preorder : PreOrder same_attrs.
Proof.
  split; [by intros ?|]. intros ??? [??] [??]. split; congruence.
Qed.
#[local] Instance same_cls_preorder : PreOrder same_cls.
Proof. split; [by intros ?|]. intros ??? ??. unfold same_cls in *. congruence. Qed.

Lemma same_attrs_cls {A} (m : M A) : keeps same_attrs m → keeps same_cls m.
Proof. intros H st r st' Hm. by destruct (H _ _ _ Hm). Qed.

Lemma keeps_lib {A} c (op : World → result exc A * World) : keeps same_attrs (lib c op).
Proof.
  intros st r st'. unfold lib. destruct (op (world st)). by intros [= <- <-].
Qed.

Lemma keeps_now_ns : keeps same_attrs now_ns.
Proof.
  intros st r st'. unfold now_ns. destruct (perf_counter_ns (world st)).
  by intros [= <- <-].
Qed.

Lemma keeps_setattr name v : keeps same_cls (setattr name v).
Proof. by intros st r st' [= <- <-]. Qed.

Lemma keeps_call_method name args : keeps same_attrs (call_method name args).
Proof. apply keeps_lib. Qed.

Ltac keeps_step :=
  first
    [ apply keeps_bind; [try apply _| |intros ?]
    | apply keeps_ret; apply _ | apply keeps_mret; apply _
    | apply keeps_raise; apply _
    | apply keeps_assert_true; apply _ | apply keeps_len; apply _
    | apply keeps_getitem; apply _ | apply keeps_getattr; apply _
    | apply keeps_dict_item; apply _ | apply keeps_subscript; apply _
    | apply keeps_dict_get_value; apply _ | apply keeps_first_of; apply _
    | apply keeps_string_of; apply _ | apply keeps_iter; apply _
    | apply keeps_exists_path; apply _
    | apply keeps_deploy_lc_obj_method; apply _
    | apply keeps_no_attribute; apply _
    | apply keeps_lib | apply keeps_now_ns | apply keeps_call_method
    | apply same_attrs_cls; first [apply keeps_lib|apply keeps_now_ns|apply keeps_call_method]
    | assumption
    | match goal with
      | |- keeps _ (if ?b then _ else _) => destruct b
      | |- keeps _ (match ?x with _ => _ end) => destruct x
      | |- keeps _ (let _ := _ in _) => cbv zeta
      end ].

Lemma keeps_restore_one pod_name : keeps same_attrs (restore_one pod_name).
Proof. unfold restore_one. repeat keeps_step. Qed.

Lemma keeps_restore_each pod_names : keeps same_attrs (restore_each pod_names).
Proof.
  induction pod_names as [|pod_name rest IH]; simpl.
  - apply keeps_ret, _.
  - apply keeps_bind; [apply _|apply keeps_restore_one|by intros].
Qed.

Lemma keeps_prereq_workers workers : keeps same_attrs (prereq_workers workers).
Proof.
  induction workers as [|node rest IH]; simpl; repeat keeps_step.
Qed.

Lemma keeps_teardown_cleanup : keeps same_attrs teardown_cleanup.
Proof.
  unfold teardown_cleanup.
  repeat first [apply keeps_restore_each|keeps_step].
Qed.

Lemma keeps_teardown_method : keeps same_attrs teardown_method.
Proof.
  unfold teardown_method.
  repeat first [apply keeps_teardown_cleanup|apply keeps_prereq_workers|keeps_step].
Qed.

#[local] Instance same_checks_preorder : PreOrder same_checks.
Proof. split; [by intros ?|]. intros ??? ??. unfold same_checks in *. congruence. Qed.

Lemma keeps_lib_other {A} c (op : World → result exc A * World) :
  checks_and_deploys [c] = [] → keeps same_checks (lib c op).
Proof.
  intros Hc st r st'. unfold lib. destruct (op (world st)). intros [= <- <-].
  unfold same_checks, checks_and_deploys in *. simpl.
  by rewrite omap_app, Hc, app_nil_r.
Qed.

Lemma checks_restore_each pod_names : keeps same_checks (restore_each pod_names).
Proof.
  induction pod_names as [|pod_name rest IH]; simpl.
  - apply keeps_ret, _.
  - apply keeps_bind; [apply _| |by intros].
    unfold restore_one. repeat first [apply keeps_lib_other; reflexivity|keeps_step].
Qed.

Lemma checks_teardown_cleanup : keeps same_checks teardown_cleanup.
Proof.
  unfold teardown_cleanup.
  repeat first [apply checks_restore_each|apply keeps_lib_other; reflexivity|keeps_step].
Qed.

(** X16: every test that shuts pods down sets [self.deploy]; its teardown
    then asks [self.deploy_lc_obj] for [destroy_setup], which the class
    ProvDeployK8sCortxLib does not have: [teardown_method] never returns,
    it raises AttributeError once the cleanup, the restores and the
    removal of the directory are through, or what these raised before; the
    cluster is not redeployed and its status is not checked. *)
Theorem teardown_with_deploy_raises st :
  self st !! "deploy" = Some (VBool true) →
  ∃ e, teardown_method st = (Raise e, (teardown_cleanup st).2)
    ∧ match (teardown_cleanup st).1 with
      | Ok _ =>
          e = mkExc AttributeError
                [VStr "'ProvDeployK8sCortxLib' object has no attribute 'destroy_setup'"]
      | Raise e' => e = e'
      end
    ∧ checks_and_deploys (calls (teardown_cleanup st).2)
      = checks_and_deploys (calls st).
Proof.
  intros Hd. unfold teardown_method, mbind at 1, py_bind at 1, bind at 1.
  destruct (teardown_cleanup st) as [[[]|e] st1] eqn:E; cbn [fst snd].
  - destruct (keeps_teardown_cleanup _ _ _ E) as [Hc Hs].
    pose proof (checks_teardown_cleanup _ _ _ E) as Hk.
    unfold mbind at 1, py_bind at 1, bind at 1.
    unfold getattr at 1. rewrite Hs, Hd. cbn [truthy].
    eexists. split; [vm_compute; reflexivity|]. split; [done|]. exact Hk.
  - exists e. split; [done|]. split; [done|].
    exact (checks_teardown_cleanup _ _ _ E).
Qed.

#[local] Instance same_pods_preorder : PreOrder same_pods.
Proof.
  split; [by intros ?|]. intros ??? (?&?&?) (?&?&?). repeat split; congruence.
Qed.

Lemma same_attrs_pods {A} (m : M A) : keeps same_attrs m → keeps same_pods m.
Proof. intros H st r st' Hm. destruct (H _ _ _ Hm) as [E1 E2]. unfold same_pods. by rewrite E1, E2. Qed.

Lemma keeps_setattr_other name v :
  name ≠ "pod_name_list" → name ≠ "pod_dict" → keeps same_pods (setattr name v).
Proof.
  intros H1 H2 st r st' [= <- <-]. repeat split; simpl; by rewrite lookup_insert_ne.
Qed.

Lemma keeps_setup_method : keeps same_pods setup_method.
Proof.
  unfold setup_method.
  repeat first
    [ apply keeps_setattr_other; [done|done]
    | apply same_attrs_pods; first [apply keeps_lib|apply keeps_now_ns]
    | keeps_step ].
Qed.

(** X15: nothing resets the list and the dict of pods that [setup_class]
    made: [teardown_method] and the [setup_method] of the next test, on its
    new instance, leave the class as it is, whatever their outcome, so the
    next test appends to the pods that the earlier tests noted, and its
    teardown goes through them again. *)
Theorem pods_outlive_the_test st :
  let st1 := (teardown_method st).2 in
  let st2 := (setup_method (new_instance st1).2).2 in
  cls st1 = cls st ∧ self st1 = self st
  ∧ cls st2 = cls st
  ∧ self st2 !! "pod_name_list" = None
  ∧ pods_to_restore st2 = pods_to_restore (mkState (world st) (calls st) (cls st) ∅).
Proof.
  cbn zeta.
  destruct (teardown_method st) as [r1 st1] eqn:E1.
  destruct (keeps_teardown_method _ _ _ E1) as [Hc1 Hs1]. cbn [snd].
  split; [done|]. split; [done|].
  destruct (setup_method (new_instance st1).2) as [r2 st2] eqn:E2.
  destruct (keeps_setup_method _ _ _ E2) as (Hc2 & Hl2 & Hd2). cbn [snd].
  unfold new_instance, modify in Hc2, Hl2, Hd2. simpl in *.
  split; [congruence|]. split; [done|].
  unfold pods_to_restore. simpl. rewrite Hl2. simpl. by rewrite Hc2, Hc1.
Qed.

Lemma vdict_get_set_eq d k v : vdict_get (vdict_set d k v) k = Some v.
Proof.
  induction d as [|[k' v'] d IH]; simpl.
  - by rewrite String.eqb_refl.
  - destruct (String.eqb_spec k' k) as [->|Hne]; simpl.
    + by rewrite String.eqb_refl.
    + by destruct (String.eqb_spec k' k).
Qed.

Lemma vdict_get_set_ne d k k' v :
  k ≠ k' → vdict_get (vdict_set d k v) k' = vdict_get d k'.
Proof.
  intros Hne. induction d as [|[k0 v0] d IH]; simpl.
  - by destruct (String.eqb_spec k k').
  - destruct (String.eqb_spec k0 k) as [->|Hne0]; simpl.
    + by destruct (String.eqb_spec k k').
    + by destruct (String.eqb_spec k0 k').
Qed.

#[local] Instance same_state_preorder : PreOrder same_state.
Proof. split; [by intros ?|]. intros ??? ??. unfold same_state in *. congruence. Qed.

Lemma getattr_ok name v st st' :
  getattr name st = (Ok v, st') →
  st' = st ∧ (self st !! name = Some v
              ∨ self st !! name = None ∧ cls st !! name = Some v).
Proof.
  unfold getattr, no_attribute, raise.
  destruct (self st !! name) as [v'|]; [intros [= <- <-]; by eauto|].
  destruct (cls st !! name) as [v'|]; [intros [= <- <-]; by eauto|done].
Qed.

Lemma getattr_cls name v st :
  self st !! name = None → cls st !! name = Some v → getattr name st = (Ok v, st).
Proof. intros H1 H2. unfold getattr. by rewrite H1, H2. Qed.

Lemma update_attr_cls name f v v' st :
  self st !! name = None → cls st !! name = Some v → f v st = (Ok v', st) →
  update_attr name f st
  = (Ok (), mkState (world st) (calls st) (<[name:=v']> (cls st)) (self st)).
Proof. intros H1 H2 H3. unfold update_attr. by rewrite H1, H2, H3. Qed.

Lemma dict_item_ok d key v st st' :
  dict_item d key st = (Ok v, st') → st' = st ∧ vdict_get d key = Some v.
Proof.
  unfold dict_item. destruct (vdict_get d key); [|done]. by intros [= <- <-].
Qed.

Lemma subscript_ok x key v st st' :
  subscript x key st = (Ok v, st') →
  st' = st ∧ ∃ d, x = VDict d ∧ vdict_get d key = Some v.
Proof.
  destruct x; simpl; try done. intros H. apply dict_item_ok in H as [-> H]. eauto.
Qed.

(** What the loop that notes the pods leaves behind. *)
Lemma note_pods_ok with_backup resp1 pods old d st st1 :
  self st !! "pod_name_list" = None → self st !! "pod_dict" = None →
  cls st !! "pod_name_list" = Some (VList old) →
  cls st !! "pod_dict" = Some (VDict d) →
  note_pods with_backup resp1 pods st = (Ok (), st1) →
  world st1 = world st ∧ calls st1 = calls st ∧ self st1 = self st
  ∧ (∀ name, name ≠ "pod_name_list" → name ≠ "pod_dict" →
       cls st1 !! name = cls st !! name)
  ∧ cls st1 !! "pod_name_list" = Some (VList (old ++ (VStr <$> pods.*1)))
  ∧ ∃ d', cls st1 !! "pod_dict" = Some (VDict d')
      ∧ (∀ k, k ∉ pods.*1 → vdict_get d' k = vdict_get d k)
      ∧ (NoDup pods.*1 → ∀ k, k ∈ pods.*1 →
          ∃ info h n, vdict_get resp1 k = Some (VDict info)
            ∧ vdict_get info "hostname" = Some h
            ∧ vdict_get info "deployment_name" = Some n
            ∧ if with_backup
              then ∃ b, vdict_get info "deployment_backup" = Some b
                        ∧ vdict_get d' k = Some (VList [h; b; n])
              else vdict_get d' k = Some (VList [h; n])).
Proof.
  revert old d st. induction pods as [|[k x] pods IH]; intros old d st Hl Hd Hcl Hcd.
  - simpl. intros [= <-]. rewrite app_nil_r. repeat split; try done.
    exists d. split; [done|]. split; [done|]. intros _ k Hk. by apply elem_of_nil in Hk.
  - cbn [note_pods fst]. intros H.
    apply test_bind_ok in H as (info0 & s & H0 & H). apply dict_item_ok in H0 as [-> Hinfo].
    apply test_bind_ok in H as (h & s & H0 & H).
    apply subscript_ok in H0 as [-> (info & -> & Hh)].
    apply test_bind_ok in H as (pod_data & s & Hpd & H).
    apply test_bind_ok in H as (info1 & s' & H0 & H). apply dict_item_ok in H0 as [-> Hinfo1].
    apply test_bind_ok in H as (n & s'' & H0 & H).
    apply subscript_ok in H0 as [-> (info' & -> & Hn)].
    assert (info' = info) as -> by congruence.
    assert (s = st ∧ if with_backup
                     then ∃ b, vdict_get info "deployment_backup" = Some b
                               ∧ pod_data = [h; b]
                     else pod_data = [h]) as [-> Hdata].
    { destruct with_backup.
      - apply test_bind_ok in Hpd as (info2 & s0 & H0 & Hpd).
        apply dict_item_ok in H0 as [-> Hinfo2].
        apply test_bind_ok in Hpd as (b & s0 & H0 & Hpd).
        apply subscript_ok in H0 as [-> (info3 & -> & Hb)].
        assert (info3 = info) as -> by congruence.
        unfold mret, py_ret, ret in Hpd. simplify_eq. eauto.
      - unfold mret, py_ret, ret in Hpd. by simplify_eq. }
    cbv zeta in H.
    apply test_bind_ok in H as ([] & s1 & Ha & H).
    unfold append_attr in Ha.
    rewrite (update_attr_cls _ _ (VList old) (VList (old ++ [VStr k]))) in Ha by done.
    simplify_eq.
    apply test_bind_ok in H as ([] & s2 & Hs & H).
    unfold setitem_attr in Hs.
    rewrite (update_attr_cls _ _ (VDict d) (VDict (vdict_set d k (VList (pod_data ++ [n])))))
      in Hs by (simpl; rewrite ?lookup_insert_ne; done).
    simplify_eq.
    apply IH with (old := old ++ [VStr k])
                  (d := vdict_set d k (VList (pod_data ++ [n]))) in H; simpl;
      [|done|done|by rewrite lookup_insert_ne, lookup_insert_eq|by rewrite lookup_insert_eq].
    destruct H as (Hw & Hc & Hself & Hother & Hlist & d' & Hdict & Hkeep & Hnew).
    simpl in *. split; [done|]. split; [done|]. split; [done|]. split.
    { intros name H1 H2. rewrite Hother by done. by rewrite !lookup_insert_ne. }
    split; [by rewrite Hlist, <-(assoc_L (++))|].
    exists d'. split; [done|]. split.
    { intros k' Hk'. rewrite Hkeep.
      - apply vdict_get_set_ne. intros ->. apply Hk'. by left.
      - intros ?. apply Hk'. by right. }
    intros Hnd k' Hk'. apply NoDup_cons in Hnd as [Hk Hnd].
    apply elem_of_cons in Hk' as [->|Hk'].
    + exists info, h, n. split; [done|]. split; [done|]. split; [done|].
      rewrite Hkeep by done. rewrite vdict_get_set_eq.
      destruct with_backup.
      * destruct Hdata as (b & Hb & ->). by exists b.
      * by subst.
    + by apply Hnew.
Qed.

Lemma vdict_get_elem d k v :
  NoDup d.*1 → (k, v) ∈ d → vdict_get d k = Some v.
Proof.
  induction d as [|[k' v'] d IH]; intros Hnd Hin; [by apply elem_of_nil in Hin|].
  simpl in *. apply NoDup_cons in Hnd as [Hk Hnd].
  apply elem_of_cons in Hin as [[= -> ->]|Hin].
  - by rewrite String.eqb_refl.
  - destruct (String.eqb_spec k' k) as [->|Hne]; [|by apply IH].
    destruct Hk. apply list_elem_of_fmap. by exists (k, v).
Qed.

Ltac pure_ok H :=
  match type of H with
  | ?m ?st = (_, ?st1) =>
      let E := fresh in
      assert (st1 = st) as E
        by (refine ((_ : keeps same_state m) _ _ _ H); repeat keeps_step);
      subst st1
  end.

(** A turn of the restore loop that returns has made one call. *)
Lemma restore_one_ok pod st st' :
  restore_one pod st = (Ok (), st') →
  ∃ pd data ms m n b,
    getattr "pod_dict" st = (Ok pd, st)
    ∧ dict_get_value pd pod st = (Ok data, st)
    ∧ (len data st = (Ok 2, st) ∧ getitem data 1 st = (Ok n, st) ∧ b = VNone
       ∨ (∃ k, len data st = (Ok k, st) ∧ k ≠ 2)
         ∧ getitem data 2 st = (Ok n, st) ∧ getitem data 1 st = (Ok b, st))
    ∧ getattr "restore_method" st = (Ok m, st)
    ∧ calls st' = calls st ++ [RestorePod ms m n b]
    ∧ cls st' = cls st ∧ self st' = self st.
Proof.
  unfold restore_one. intros H.
  apply test_bind_ok in H as (pd & s & Hpd & H). pure_ok Hpd.
  apply test_bind_ok in H as (data & s & Hdata & H). pure_ok Hdata.
  apply test_bind_ok in H as (k & s & Hlen & H). pure_ok Hlen.
  apply test_bind_ok in H as ([n b] & s & Hnames & H). cbv zeta in H. cbn [fst snd] in H.
  apply test_bind_ok in H as (ms & s0 & Hms & H). pure_ok Hms.
  apply test_bind_ok in H as (m & s1 & Hm & H). pure_ok Hm.
  apply test_bind_ok in H as (resp & s1 & Hcall & H).
  apply test_bind_ok in H as (m' & s2 & Hm' & H). pure_ok Hm'.
  unfold assert_true in H. destruct resp.1; [|done]. unfold ret in H. simplify_eq.
  unfold lib in Hcall. destruct (restore_pod _ _ _ _ _) as [r w]. simplify_eq.
  assert (s = st ∧ (k = 2 ∧ getitem data 1 st = (Ok n, st) ∧ b = VNone
                    ∨ k ≠ 2 ∧ getitem data 2 st = (Ok n, st)
                      ∧ getitem data 1 st = (Ok b, st))) as [-> Hcase].
  { case_decide as Hk.
    - apply test_bind_ok in Hnames as (pd' & s' & Hpd' & Hnames). pure_ok Hpd'.
      apply test_bind_ok in Hnames as (data' & s' & Hdata' & Hnames). pure_ok Hdata'.
      assert (pd' = pd) as -> by congruence.
      assert (data' = data) as -> by congruence.
      apply test_bind_ok in Hnames as (n' & s' & Hn & Hnames). pure_ok Hn.
      unfold mret, py_ret, ret in Hnames. simplify_eq.
      split; [done|]. left. by repeat split.
    - apply test_bind_ok in Hnames as (pd' & s' & Hpd' & Hnames). pure_ok Hpd'.
      apply test_bind_ok in Hnames as (data' & s' & Hdata' & Hnames). pure_ok Hdata'.
      assert (pd' = pd) as -> by congruence.
      assert (data' = data) as -> by congruence.
      apply test_bind_ok in Hnames as (n' & s' & Hn & Hnames). pure_ok Hn.
      apply test_bind_ok in Hnames as (pd'' & s' & Hpd'' & Hnames). pure_ok Hpd''.
      apply test_bind_ok in Hnames as (data'' & s' & Hdata'' & Hnames). pure_ok Hdata''.
      assert (pd'' = pd) as -> by congruence.
      assert (data'' = data) as -> by congruence.
      apply test_bind_ok in Hnames as (b' & s' & Hb & Hnames). pure_ok Hb.
      unfold mret, py_ret, ret in Hnames. simplify_eq.
      split; [done|]. right. by repeat split. }
  exists pd, data, ms, m, n, b. simpl.
  split; [done|]. split; [done|]. split; [|done].
  destruct Hcase as [(-> & ? & ?)|(? & ? & ?)]; [by left|right].
  split; [by exists k|done].
Qed.

Lemma restored_snoc cs ms m n b :
  restored (cs ++ [RestorePod ms m n b]) = restored cs ++ [(m, n, b)].
Proof. unfold restored. by rewrite omap_app. Qed.

Lemma restore_each_count pod_names st st' :
  restore_each pod_names st = (Ok (), st') →
  cls st' = cls st ∧ self st' = self st
  ∧ ∃ xs, length xs = length pod_names
      ∧ restored (calls st') = restored (calls st) ++ xs.
Proof.
  revert st. induction pod_names as [|pod rest IH]; intros st; simpl.
  - intros [= <-]. repeat split. exists []. by rewrite app_nil_r.
  - intros H. apply test_bind_ok in H as ([] & s & H1 & H).
    apply restore_one_ok in H1
      as (pd & data & ms & m & n & b & _ & _ & _ & _ & Hc & Hcls & Hself).
    apply IH in H as (Hcls' & Hself' & xs & Hlen & Hxs).
    split; [congruence|]. split; [congruence|].
    exists ((m, n, b) :: xs). split; [simpl; lia|].
    by rewrite Hxs, Hc, restored_snoc, <-(assoc_L (++)).
Qed.

Lemma restore_each_app l1 l2 st st' :
  restore_each (l1 ++ l2) st = (Ok (), st') →
  ∃ st1, restore_each l1 st = (Ok (), st1) ∧ restore_each l2 st1 = (Ok (), st').
Proof.
  revert st. induction l1 as [|pod l1 IH]; intros st; simpl.
  - intros H. by exists st.
  - intros H. apply test_bind_ok in H as ([] & s & H1 & H).
    apply IH in H as (st1 & H2 & H3). exists st1. split; [|done].
    apply test_bind_ok. by exists (), s.
Qed.

Lemma restore_each_noted with_backup d m pods st st' :
  self st !! "pod_dict" = None → cls st !! "pod_dict" = Some (VDict d) →
  self st !! "restore_method" = Some m →
  Forall (noted with_backup d) pods →
  restore_each (VStr <$> pods.*1) st = (Ok (), st') →
  restored (calls st') = restored (calls st) ++ (restore_of with_backup m <$> pods).
Proof.
  intros Hsd Hcd Hm Hpods. revert st Hsd Hcd Hm.
  induction Hpods as [|[k x] pods Hpod Hpods IH]; intros st Hsd Hcd Hm; simpl.
  - intros [= <-]. by rewrite app_nil_r.
  - intros H. apply test_bind_ok in H as ([] & s & H1 & H).
    apply restore_one_ok in H1
      as (pd & data & ms & m' & n & b & Hpd & Hdata & Hcase & Hm' & Hc & Hcls & Hself).
    apply IH in H; [|congruence..].
    rewrite H, Hc, restored_snoc, <-(assoc_L (++)). do 2 f_equal. simpl.
    rewrite (getattr_cls _ (VDict d)) in Hpd by done.
    unfold getattr in Hm'. rewrite Hm in Hm'. simplify_eq.
    destruct Hpod as (info & h & n' & Hx & Hn & Hshape). simpl in *. subst x.
    unfold restore_of. simpl. rewrite Hn. simpl.
    destruct with_backup.
    + destruct Hshape as (b' & Hb & Hget). rewrite Hb. simpl.
      rewrite Hget in Hdata. unfold ret in Hdata. simplify_eq. simpl in Hcase.
      destruct Hcase as [([= ?] & _)|(_ & Hn2 & Hb1)].
      unfold ret in Hn2, Hb1. by simplify_eq.
    + rewrite Hshape in Hdata. unfold ret in Hdata. simplify_eq. simpl in Hcase.
      destruct Hcase as [(_ & Hn1 & ->)|((k' & Hk & Hne) & _)].
      * unfold ret in Hn1. by simplify_eq.
      * unfold ret in Hk. by simplify_eq.
Qed.

(** X14: the pods that a test notes when it shuts them down are the ones
    its teardown restores, each by the restore method of the test, with the
    name of its deployment and, where the test noted one, the backup; but
    the test appends to the list of the class, so the teardown first goes
    through the pods that were in the list before, those of the earlier
    tests, and restores each of them again. *)
Theorem noted_pods_are_restored with_backup kwargs method flag resp1 w old d
    st st1 st2 :
  self st !! "pod_name_list" = None → self st !! "pod_dict" = None →
  cls st !! "pod_name_list" = Some (VList old) →
  cls st !! "pod_dict" = Some (VDict d) →
  delete_kpod_with_shutdown_methods kwargs (world st) = (Ok (flag, resp1), w) →
  NoDup resp1.*1 →
  shutdown_kpods with_backup kwargs method st = (Ok (), st1) →
  restore_each (pods_to_restore st1) st1 = (Ok (), st2) →
  pods_to_restore st1 = old ++ (VStr <$> resp1.*1)
  ∧ self st1 !! "restore_pod" = Some (VBool true)
  ∧ self st1 !! "deploy" = Some (VBool true)
  ∧ ∃ earlier, length earlier = length old
      ∧ restored (calls st2)
        = restored (calls st) ++ earlier ++ (restore_of with_backup method <$> resp1).
Proof.
  intros Hsl Hsd Hcl Hcd Hdel Hnd Hshut Hrest.
  unfold shutdown_kpods in Hshut.
  apply test_bind_ok in Hshut as (resp & s1 & Hlib & Hshut).
  unfold lib in Hlib. rewrite Hdel in Hlib. simplify_eq. cbv zeta in Hshut.
  cbn [fst snd] in Hshut.
  apply test_bind_ok in Hshut as ([] & s & Ha & Hshut). pure_ok Ha.
  apply test_bind_ok in Hshut as ([] & s2 & Hnote & Hshut).
  apply (note_pods_ok _ _ _ old d) in Hnote
    as (Hw2 & Hc2 & Hs2 & _ & Hl2 & d' & Hd2 & _ & Hnew); [|done..].
  simpl in Hw2, Hc2, Hs2.
  apply test_bind_ok in Hshut as ([] & s3 & [= <-] & Hshut).
  apply test_bind_ok in Hshut as ([] & s4 & [= <-] & Hshut).
  apply test_bind_ok in Hshut as ([] & s5 & [= <-] & Hshut).
  pure_ok Hshut.
  assert (pods_to_restore
            (mkState (world s2) (calls s2) (cls s2)
               (<["restore_method":=method]>
                  (<["deploy":=VBool true]> (<["restore_pod":=VBool true]> (self s2)))))
          = old ++ (VStr <$> resp1.*1)) as Hpods.
  { unfold pods_to_restore. simpl. rewrite !lookup_insert_ne by done.
    by rewrite Hs2, Hsl, Hl2. }
  simpl in *. rewrite Hpods in Hrest. split; [done|].
  split; [by rewrite lookup_insert_ne, lookup_insert_ne, lookup_insert_eq|].
  split; [by rewrite lookup_insert_ne, lookup_insert_eq|].
  apply restore_each_app in Hrest as (sA & HA & HB).
  apply restore_each_count in HA as (HclsA & HselfA & earlier & Hlen & HcA).
  simpl in *. exists earlier. split; [done|].
  apply (restore_each_noted with_backup d' method) in HB.
  - rewrite HB, HcA, Hc2, <-(assoc_L (++)). f_equal.
    unfold restored. by rewrite omap_app, app_nil_r.
  - rewrite HselfA, !lookup_insert_ne by done. by rewrite Hs2.
  - by rewrite HclsA.
  - by rewrite HselfA, lookup_insert_eq.
  - apply Forall_forall. intros [k x] Hin.
    destruct (Hnew Hnd k) as (info & h & n & Hinfo & Hh & Hn & Hshape).
    { apply list_elem_of_fmap. by exists (k, x). }
    rewrite (vdict_get_elem _ _ x) in Hinfo by done. simplify_eq.
    exists info, h, n. simpl. split; [done|]. split; [done|]. done.
Qed.

End TestFacts.

(** * The test class at work *)

(** The second test of the class notes its two pods; its teardown
    restores four, the two of the first test before its own. *)
Lemma noted_pods_are_restored_witness :
  TestMultiDataPodFailure.pods_to_restore demo_second_test
  = [VStr "pod-a"; VStr "pod-b"] ++ (VStr <$> demo_pods.*1)
  ∧ TestMultiDataPodFailure.restored (TestMultiDataPodFailure.calls demo_second_restored)
    = TestMultiDataPodFailure.restored (TestMultiDataPodFailure.calls demo_second_setup)
      ++ [(VStr "k8s", VStr "dep-a", VStr "a.yaml"); (VStr "k8s", VStr "dep-b", VStr "b.yaml");
          (VStr "k8s", VStr "dep-a", VStr "a.yaml"); (VStr "k8s", VStr "dep-b", VStr "b.yaml")].
Proof.
  destruct (noted_pods_are_restored true [] (VStr "k8s") true demo_pods ()
              [VStr "pod-a"; VStr "pod-b"]
              [("pod-a", VList [VStr "w1"; VStr "a.yaml"; VStr "dep-a"]);
               ("pod-b", VList [VStr "w2"; VStr "b.yaml"; VStr "dep-b"])]
              demo_second_setup demo_second_test demo_second_restored)
    as (Hpods & _ & _ & earlier & _ & _).
  - vm_compute. reflexivity.
  - vm_compute. reflexivity.
  - vm_compute. reflexivity.
  - vm_compute. reflexivity.
  - reflexivity.
  - apply NoDup_cons. split; [|apply NoDup_singleton].
    intros H. apply list_elem_of_singleton in H. discriminate H.
  - vm_compute. reflexivity.
  - vm_compute. reflexivity.
  - split; [exact Hpods|]. vm_compute. reflexivity.
Defined.

Lemma teardown_with_deploy_raises_witness :
  ∃ e, TestMultiDataPodFailure.teardown_method demo_first_test
       = (Raise e, (TestMultiDataPodFailure.teardown_cleanup demo_first_test).2)
    ∧ Py.class_of e = Py.AttributeError.
Proof.
  destruct (teardown_with_deploy_raises demo_first_test) as (e & H & He & _).
  - vm_compute. reflexivity.
  - exists e. split; [exact H|].
    assert ((TestMultiDataPodFailure.teardown_cleanup demo_first_test).1 = Ok ()) as E
      by (vm_compute; reflexivity).
    rewrite E in He. rewrite He. reflexivity.
Defined.

(** * The steps that wait *)

Section StepFacts.
Import Py TestMultiDataPodFailure.

Lemma wait_for_bool_bools q :
  bools q = [] ∧ wait_for_bool q = (Raise (mkExc Empty []), [])
  ∨ ∃ b rest, wait_for_bool q = (Ok (VBool b), rest) ∧ bools q = b :: bools rest.
Proof.
  induction q as [|m q IH]; [by left|].
  destruct m; simpl; try done.
  right. by eexists _, _.
Qed.

(** X17: the wait for the chunk upload looks at the booleans in the queue
    and at nothing else: the test goes on when the first one is [True], or
    when it is [False] and the first one after it, the messages of the
    second upload included, is [True]; a second [False] fails the
    assertion on the retry, and a queue that runs dry raises [Empty].  The
    assertion that the background process failed is never the one that
    fails: what leaves the loop is a boolean, not [None]. *)
Theorem chunk_upload_verdict retry_puts q :
  (verify_chunk_upload retry_puts q).1
  = match bools q with
    | [] => Raise (mkExc Empty [])
    | true :: _ => Ok ()
    | false :: bs =>
        match bs ++ bools retry_puts with
        | [] => Raise (mkExc Empty [])
        | true :: _ => Ok ()
        | false :: _ => Raise (mkExc AssertionError [VStr "Retried chunk upload failed"])
        end
    end.
Proof.
  unfold verify_chunk_upload, mbind, py_bind, bind.
  destruct (wait_for_bool_bools q) as [[-> ->]|(b & rest & -> & ->)]; [done|].
  destruct b; simpl; [done|].
  unfold modify. simpl.
  destruct (wait_for_bool_bools (rest ++ retry_puts)) as [[Hb ->]|(b & rest' & -> & Hb)];
    unfold bools in *; rewrite omap_app in Hb; rewrite Hb; [done|].
  by destruct b.
Qed.

Lemma wait_for_responses_skip l0 skipped m rest :
  length l0 < 3 →
  Forall (λ x, ∃ l, x = VList l ∧ length l < 3) skipped →
  wait_for_responses 3 (VList l0) (skipped ++ m :: rest)
  = wait_for_responses 3 m rest.
Proof.
  intros Hl0 Hs. revert l0 Hl0.
  induction Hs as [|x skipped (l & -> & Hl) Hs IH]; intros l0 Hl0; simpl.
  - destruct (Nat.ltb_spec (length l0) 3); [done|lia].
  - destruct (Nat.ltb_spec (length l0) 3); [|lia]. by apply IH.
Qed.

(** X18: the check of the copy in the background takes the first message
    with at least three elements, whatever else it holds, and drops the
    shorter ones before it; then the failed buckets decide before the
    expected failures do: any failed bucket fails the test, none and no
    expected failure passes it with the etag of the message, and expected
    failures alone lead to the second copy, whose result decides. *)
Theorem copy_responses_verdict retry skipped etag exp failed more rest :
  Forall (λ x, ∃ l, x = VList l ∧ length l < 3) skipped →
  check_copy_responses retry
    (skipped ++ VList (etag :: VDict exp :: VList failed :: more) :: rest)
  = (match failed, exp with
     | _ :: _, _ =>
         Raise (mkExc AssertionError
                  [VList [VStr "Failed to do copy object when cluster was in degraded state. Failed buckets: ";
                          VList failed]])
     | [], [] => Ok etag
     | [], _ :: _ =>
         match retry (VDict exp) etag with
         | Raise e => Raise e
         | Ok (true, etag') => Ok etag'
         | Ok (false, failed') =>
             Raise (mkExc AssertionError [VList [VStr "Failed buckets are: "; failed']])
         end
     end, rest).
Proof.
  intros Hs. unfold check_copy_responses, mbind at 1, py_bind at 1, bind at 1.
  rewrite (wait_for_responses_skip [] skipped) by (simpl; lia || done).
  unfold mbind, py_bind, bind, mret, py_ret.
  destruct rest as [|m' rest']; cbn -[Nat.ltb].
  all: destruct exp as [|x exp], failed as [|y failed]; cbn; try done.
  all: destruct (retry _ _) as [[[] ?]|?]; done.
Qed.

Lemma wait_for_buckets_decided bkt_cnt timeout bkt_list pre l now rest :
  (Z.of_nat (length bkt_list) < bkt_cnt)%Z →
  Forall (waiting bkt_cnt timeout) pre →
  (bkt_cnt ≤ Z.of_nat (length l) ∨ timeout < now)%Z →
  wait_for_buckets bkt_cnt timeout bkt_list (pre ++ (Ok l, now) :: rest)
  = Some (if (timeout <? now)%Z
          then Raise (mkExc AssertionError [VStr "Please check background process logs"])
          else Ok ()).
Proof.
  intros Hb Hpre Hlast. revert bkt_list Hb.
  induction Hpre as [|p pre (l' & now' & -> & Hl & Hnow) Hpre IH]; intros bkt_list Hb.
  - cbn [app wait_for_buckets].
    destruct (Z.ltb_spec (Z.of_nat (length bkt_list)) bkt_cnt); [|lia].
    destruct (Z.ltb_spec timeout now); [done|].
    destruct rest; simpl; by destruct (Z.ltb_spec (Z.of_nat (length l)) bkt_cnt); [lia|].
  - cbn [app wait_for_buckets].
    destruct (Z.ltb_spec (Z.of_nat (length bkt_list)) bkt_cnt); [|lia].
    destruct (Z.ltb_spec timeout now'); [lia|]. by apply IH.
Qed.

(** X19: the wait for the buckets is decided by the first turn that sees
    all the buckets or sees the time run out, and the time is looked at
    after the buckets: a turn that finds all of them, but later than three
    minutes after the start, fails the test all the same. *)
Theorem bucket_wait_verdict second bkt_cnt start pre l now rest :
  (0 < bkt_cnt)%Z →
  Forall (waiting bkt_cnt (start + 60 * 3 * second)) pre →
  (bkt_cnt ≤ Z.of_nat (length l) ∨ start + 60 * 3 * second < now)%Z →
  wait_for_creation second bkt_cnt start (pre ++ (Ok l, now) :: rest)
  = Some (if (start + 60 * 3 * second <? now)%Z
          then Raise (mkExc AssertionError [VStr "Please check background process logs"])
          else Ok ()).
Proof.
  intros Hcnt Hpre Hlast. unfold wait_for_creation.
  apply wait_for_buckets_decided; [simpl; lia|done|done].
Qed.

Lemma wait_for_buckets_ends bkt_cnt timeout delay base bkt_list polls :
  (0 < delay)%Z → (base ≤ timeout)%Z →
  (∀ i r now, polls !! i = Some (r, now) → (base + delay * Z.of_nat (S i) ≤ now)%Z) →
  (timeout < base + delay * Z.of_nat (length polls))%Z →
  wait_for_buckets bkt_cnt timeout bkt_list polls ≠ None.
Proof.
  intros Hdelay. revert base bkt_list.
  induction polls as [|[r now] polls IH]; intros base bkt_list Hbase Htimes Hlen.
  - simpl in Hlen. lia.
  - cbn [wait_for_buckets].
    destruct (Z.ltb_spec (Z.of_nat (length bkt_list)) bkt_cnt); [|done].
    destruct r as [l|e]; [|done].
    destruct (Z.ltb_spec timeout now); [done|].
    pose proof (Htimes 0 _ _ eq_refl) as Hfirst.
    apply (IH (base + delay)%Z).
    + lia.
    + intros i r' now' Hi. pose proof (Htimes (S i) _ _ Hi). lia.
    + simpl in Hlen. lia.
Qed.

(** X20: the wait for the buckets comes to an end: when the clock moves on
    by at least [delay] with every turn, as the sleep in the loop makes it,
    then after more turns than three minutes hold delays the loop has
    returned or raised, whatever the bucket lists were. *)
Theorem bucket_wait_ends second bkt_cnt start delay polls :
  (0 < delay)%Z → (0 ≤ second)%Z →
  (∀ i r now, polls !! i = Some (r, now) → (start + delay * Z.of_nat (S i) ≤ now)%Z) →
  (60 * 3 * second < delay * Z.of_nat (length polls))%Z →
  ∃ r, wait_for_creation second bkt_cnt start polls = Some r.
Proof.
  intros Hdelay Hsecond Htimes Hlen. unfold wait_for_creation.
  destruct (wait_for_buckets _ _ _ _) as [r|] eqn:E; [by exists r|].
  exfalso. revert E.
  apply (wait_for_buckets_ends _ _ delay start); [done|lia|done|lia].
Qed.

Section ReadBackFacts.
Context {World : Type} `{!S3TestLib.S3Lib World}.
Variable S3_CLIENT_ERROR : value.
Variable ct_args : value → value → list value.
Variable py_eq : value → value → bool.

(** X21: the loops that read the copied objects back call
    [get_object(bucket=..., key=...)], but the parameters of
    [S3TestLib.get_object] are [bucket_name], [object_name] and [ranges]:
    the first turn raises TypeError before anything reaches the S3 client,
    so the step passes only for an empty [bkt_obj_dict]. *)
Theorem verify_etags_raises put_etag item items (st : S3TestLib.state World) :
  ∃ e, verify_etags S3_CLIENT_ERROR ct_args py_eq put_etag (item :: items) st
       = (Raise e, st)
    ∧ class_of e = TypeError
    ∧ verify_etags S3_CLIENT_ERROR ct_args py_eq put_etag [] st = (Ok (), st).
Proof.
  eexists. split; [|split; [|done]].
  - cbn [verify_etags]. unfold mbind at 1, py_bind at 1, bind at 1.
    unfold call_get_object. vm_compute. reflexivity.
  - done.
Qed.
End ReadBackFacts.

End StepFacts.

(** * The waiting steps at work *)

(** A message with a fourth element, after two that are too short; the
    second copy succeeds. *)
Lemma copy_responses_verdict_witness :
  TestMultiDataPodFailure.check_copy_responses (λ _ _, Ok (true, VStr "etag-2"))
    ([VList []; VList [VStr "etag-0"]]
     ++ VList (VStr "etag-1" :: VDict [("ha-bkt1", VStr "ha-obj1")] :: VList []
               :: [VStr "more"]) :: [])
  = (Ok (VStr "etag-2"), []).
Proof.
  apply (copy_responses_verdict (λ _ _, Ok (true, VStr "etag-2"))
           [VList []; VList [VStr "etag-0"]] (VStr "etag-1")
           [("ha-bkt1", VStr "ha-obj1")] [] [VStr "more"] []).
  repeat constructor.
  - exists []. split; [reflexivity|simpl; lia].
  - exists [VStr "etag-0"]. split; [reflexivity|simpl; lia].
Defined.

(** Both buckets are there at the second turn, after 200 seconds. *)
Lemma bucket_wait_verdict_witness :
  TestMultiDataPodFailure.wait_for_creation 1 2 0
    ([(Ok ["ha-bkt0"], 20%Z)] ++ (Ok ["ha-bkt0"; "ha-bkt1"], 200%Z) :: [])
  = Some (Raise (Py.mkExc Py.AssertionError
                   [VStr "Please check background process logs"])).
Proof.
  apply (bucket_wait_verdict 1 2 0 [(Ok ["ha-bkt0"], 20%Z)] ["ha-bkt0"; "ha-bkt1"]
           200 []).
  - lia.
  - repeat constructor. exists ["ha-bkt0"], 20%Z. split; [reflexivity|simpl; lia].
  - left. simpl. lia.
Defined.

Lemma bucket_wait_ends_witness :
  ∃ r, TestMultiDataPodFailure.wait_for_creation 1 2 0
         [(Ok [], 100%Z); (Ok [], 200%Z)] = Some r.
Proof.
  apply (bucket_wait_ends 1 2 0 100 [(Ok [], 100%Z); (Ok [], 200%Z)]).
  - lia.
  - lia.
  - intros [|[|i]] r now; simpl; intros H; inversion H; lia.
  - simpl. lia.
Defined.

(** * The provisioning library *)

Section Preserves.
Import Py.
Context {St : Type}.

Context (R : relation St) `{!PreOrder R}.

Lemma preserves_bind {A B} (m : Py.M St A) (k : A → Py.M St B) :
  preserves R m → (∀ a, preserves R (k a)) → preserves R (m ≫= k).
Proof using Type*.
  intros Hm Hk st r st'. unfold mbind, py_bind, bind.
  destruct (m st) as [[a|e] st1] eqn:E; intros H.
  - etrans; [by eapply Hm|by eapply Hk].
  - simplify_eq. by eapply Hm.
Qed.

Lemma preserves_ret {A} (a : A) : preserves R (ret a : Py.M St A).
Proof using Type*. intros st r st' [= <- <-]. done. Qed.

Lemma preserves_mret {A} (a : A) : preserves R (mret a : Py.M St A).
Proof using Type*. apply preserves_ret. Qed.

Lemma preserves_raise {A} e : preserves R (raise e : Py.M St A).
Proof using Type*. intros st r st' [= <- <-]. done. Qed.

Lemma preserves_assert_true cond msg : preserves R (assert_true cond msg : Py.M St unit).
Proof using Type*.
  unfold assert_true. destruct cond; [apply preserves_ret|apply preserves_raise].
Qed.
End Preserves.

Section ProvFacts.
Import Py ProvDeployK8sCortxLib.
Context {World : Type} `{!Env World}.

Implicit Types (st : state World) (e : exc).
Local Abbreviation M := (Py.M (state World)).
Local Abbreviation adds := (adds (World:=World)).

Lemma prov_bind_ok {A B} (m : M A) (k : A → M B) st b st' :
  (m ≫= k) st = (Ok b, st') ↔
  ∃ a st1, m st = (Ok a, st1) ∧ k a st1 = (Ok b, st').
Proof.
  unfold mbind, py_bind, bind. destruct (m st) as [[a|e] st1]; split.
  - intros. by exists a, st1.
  - by intros (a' & st1' & [= -> ->] & ?).
  - done.
  - by intros (a' & st1' & [=] & ?).
Qed.

#[local] Instance adds_preorder P : PreOrder (adds P).
Proof.
  split.
  - intros st. exists []. by rewrite app_nil_r.
  - intros st1 st2 st3 (evs1 & E1 & H1) (evs2 & E2 & H2).
    exists (evs1 ++ evs2). rewrite E2, E1, (assoc_L (++)). split; [done|].
    by apply Forall_app.
Qed.

Lemma adds_weaken (P P' : event → Prop) {A} (m : M A) :
  (∀ ev, P ev → P' ev) → preserves (adds P) m → preserves (adds P') m.
Proof.
  intros HP Hm st r st' H. destruct (Hm _ _ _ H) as (evs & E & Hevs).
  exists evs. split; [done|]. by eapply Forall_impl.
Qed.

Lemma adds_on {A} (P : event → Prop) ev (op : World → result exc A * World) :
  P ev → preserves (adds P) (on ev op).
Proof.
  intros HP st r st'. unfold on. destruct (op (world st)). intros [= <- <-].
  exists [ev]. split; [done|]. by constructor.
Qed.

Ltac adds_step :=
  first
    [ apply preserves_bind; [apply _| |intros ?]
    | apply preserves_ret; apply _ | apply preserves_mret; apply _
    | apply preserves_raise; apply _ | apply preserves_assert_true; apply _
    | apply adds_on; reflexivity
    | assumption
    | match goal with
      | |- preserves _ (if ?b then _ else _) => destruct b
      | |- preserves _ (match ?x with _ => _ end) => destruct x
      | |- preserves _ (let _ := _ in _) => cbv zeta
      end ].

Lemma adds_first_line P lines : preserves (adds P) (first_line lines : M string).
Proof. unfold first_line. repeat adds_step. Qed.

Lemma adds_run_cmd n cmd : preserves (adds (on_host (hostname n))) (run_cmd n cmd).
Proof. unfold run_cmd. by apply adds_on. Qed.

Lemma adds_prereq_vm n : preserves (adds (on_host (hostname n))) (prereq_vm n).
Proof.
  unfold prereq_vm.
  repeat first [apply adds_run_cmd|apply adds_first_line|adds_step].
Qed.

Lemma adds_umount_each n resp : preserves (adds (on_host (hostname n))) (umount_each n resp).
Proof.
  induction resp as [|mp rest IH]; simpl; repeat first [apply adds_run_cmd|adds_step].
Qed.

Lemma adds_make_dirs n dirs : preserves (adds (on_host (hostname n))) (make_dirs n dirs).
Proof.
  induction dirs as [|d rest IH]; simpl; repeat adds_step.
Qed.

Lemma adds_prereq_local_path_prov n disk :
  preserves (adds (on_host (hostname n))) (prereq_local_path_prov n disk).
Proof.
  unfold prereq_local_path_prov.
  repeat first [apply adds_run_cmd|apply adds_umount_each|adds_step].
Qed.

Lemma adds_prereq_glusterfs n : preserves (adds (on_host (hostname n))) (prereq_glusterfs n).
Proof.
  unfold prereq_glusterfs. repeat first [apply adds_run_cmd|apply adds_make_dirs|adds_step].
Qed.

Lemma adds_prereq_3rd_party_srv n :
  preserves (adds (on_host (hostname n))) (prereq_3rd_party_srv n).
Proof. apply adds_make_dirs. Qed.

Lemma adds_docker_login n u p : preserves (adds (on_host (hostname n))) (docker_login n u p).
Proof. unfold docker_login. repeat first [apply adds_run_cmd|adds_step]. Qed.

Lemma adds_prereq_git n i t : preserves (adds (on_host (hostname n))) (prereq_git n i t).
Proof. unfold prereq_git. repeat first [apply adds_run_cmd|adds_step]. Qed.

Lemma adds_deploy_cluster n l r :
  preserves (adds (on_host (hostname n))) (deploy_cluster n l r).
Proof.
  unfold deploy_cluster. apply preserves_bind; [apply _| |intros ?].
  { intros st r' st' [= <- <-]. reflexivity. }
  repeat first [apply adds_run_cmd|adds_step].
Qed.

Lemma adds_on_node nodes n {A} (m : M A) :
  n ∈ nodes → preserves (adds (on_host (hostname n))) m → preserves (adds (on_nodes nodes)) m.
Proof. intros Hn. apply adds_weaken. intros ev Hev. by exists n. Qed.

Lemma adds_prepare_workers ws : preserves (adds (on_nodes ws)) (prepare_workers ws).
Proof.
  induction ws as [|w ws IH]; simpl; [apply preserves_ret, _|].
  repeat first
    [ apply (adds_on_node _ w); [by left|];
      first [apply adds_prereq_vm|apply adds_prereq_local_path_prov
            |apply adds_prereq_glusterfs|apply adds_prereq_3rd_party_srv]
    | adds_step ].
  eapply adds_weaken; [|exact IH]. intros ev (n & Hn & Hev). exists n. split; [by right|done].
Qed.

Lemma preserves_bind_ret {A B} (R : relation (state World)) (a : A) (k : A → M B) :
  preserves R (k a) → preserves R (ret a ≫= k).
Proof. intros Hk st r st' H. by eapply Hk. Qed.

Lemma run_cmd_events n cmd st r st' :
  run_cmd n cmd st = (r, st') → events st' = events st ++ [Cmd (hostname n) cmd].
Proof.
  unfold run_cmd, on. destruct (execute_cmd n cmd (world st)). by intros [= <- <-].
Qed.

(** A check of a node that passes has run its four commands. *)
Lemma prereq_vm_true n msg st st' :
  prereq_vm n st = (Ok (true, msg), st') →
  events st' = events st ++ [Cmd (hostname n) (CMD_PING (hostname n));
                             Cmd (hostname n) CMD_LSBLK;
                             Cmd (hostname n) CMD_OS_REL;
                             Cmd (hostname n) CMD_KRNL_VER].
Proof.
  unfold prereq_vm. intros H.
  apply prov_bind_ok in H as (l0 & s0 & H0 & H). apply run_cmd_events in H0.
  apply prov_bind_ok in H as (count & s1 & H1 & H). apply run_cmd_events in H1.
  apply prov_bind_ok in H as (first & s1' & Hf & H).
  assert (s1' = s1) as ->.
  { unfold first_line in Hf. destruct count; [done|]. by injection Hf as _ <-. }
  apply prov_bind_ok in H as (disks & s1' & Hd & H).
  assert (s1' = s1) as ->.
  { destruct (int_of first); [|done]. by injection Hd as _ <-. }
  destruct (disks <? min_disks)%Z; [done|].
  apply prov_bind_ok in H as (lines & s2 & H2 & H). apply run_cmd_events in H2.
  apply prov_bind_ok in H as (line & s2' & Hl & H).
  assert (s2' = s2) as ->.
  { unfold first_line in Hl. destruct lines; [done|]. by injection Hl as _ <-. }
  cbv zeta in H. destruct (negb (in_os_release (strip line))); [done|].
  apply prov_bind_ok in H as (lines' & s3 & H3 & H). apply run_cmd_events in H3.
  apply prov_bind_ok in H as (line' & s3' & Hl' & H).
  assert (s3' = s3) as ->.
  { unfold first_line in Hl'. destruct lines'; [done|]. by injection Hl' as _ <-. }
  cbv zeta in H. destruct (negb (in_kernel (strip line'))); [done|].
  injection H as _ <-. rewrite H3, H2, H1, H0, <-!(assoc_L (++)). done.
Qed.

Lemma prepare_workers_ok ws st st' :
  prepare_workers ws st = (Ok (), st') →
  ∃ evs, events st' = events st ++ evs
    ∧ ∀ w, w ∈ ws → Cmd (hostname w) CMD_KRNL_VER ∈ evs.
Proof.
  revert st. induction ws as [|w ws IH]; intros st; simpl.
  - intros [= <-]. exists []. rewrite app_nil_r. split; [done|].
    intros w Hw. by apply elem_of_nil in Hw.
  - intros H.
    apply prov_bind_ok in H as ([ok msg] & s1 & Hvm & H).
    apply prov_bind_ok in H as ([] & s1' & Ha & H).
    unfold assert_true in Ha. simpl in Ha. destruct ok; [|done]. injection Ha as <-.
    apply prereq_vm_true in Hvm.
    apply prov_bind_ok in H as ([] & s2 & H2 & H).
    apply prov_bind_ok in H as ([] & s3 & H3 & H).
    apply prov_bind_ok in H as ([] & s4 & H4 & H).
    destruct (adds_prereq_local_path_prov _ _ _ _ _ H2) as (e2 & E2 & _).
    destruct (adds_prereq_glusterfs _ _ _ _ H3) as (e3 & E3 & _).
    destruct (adds_prereq_3rd_party_srv _ _ _ _ H4) as (e4 & E4 & _).
    apply IH in H as (evs & E & Hevs).
    eexists. split.
    { rewrite E, E4, E3, E2, Hvm, <-!(assoc_L (++)). reflexivity. }
    intros w' Hw'. apply elem_of_cons in Hw' as [->|Hw'].
    + do 3 apply list_elem_of_further. apply list_elem_of_here.
    + specialize (Hevs w' Hw'). do 4 apply list_elem_of_further.
      rewrite !elem_of_app. auto.
Qed.

(** X22: [deploy_cortx_cluster] reads the solution file first, whatever
    the lists of nodes are; with an empty list it goes no further; else it
    works on the workers and then on the first master alone, and it touches
    that master only when the check of every worker has passed. *)
Theorem deploy_cortx_cluster_order sol ms ws du dp gi gt st r st' :
  deploy_cortx_cluster sol ms ws du dp gi gt st = (r, st') →
  ∃ evw evm, events st' = events st ++ LoadSolution sol :: evw ++ evm
    ∧ Forall (on_nodes ws) evw
    ∧ Forall (on_nodes (take 1 ms)) evm
    ∧ (evm ≠ [] → ∀ w, w ∈ ws → Cmd (hostname w) CMD_KRNL_VER ∈ evw)
    ∧ (ms = [] ∨ ws = [] → evw = [] ∧ evm = [] ∧ ∀ x, r = Ok x → x.1 = false).
Proof.
  unfold deploy_cortx_cluster, mbind at 1, py_bind at 1, bind at 1, on.
  destruct (safe_load sol (world st)) as [[v|e] w1].
  2:{ intros [= <- <-]. exists [], []. simpl. repeat split; try done; try constructor; by intros ? [= <-]. }
  destruct ms as [|m ms]; simpl.
  { intros [= <- <-]. exists [], []. simpl. repeat split; try done; try constructor; by intros ? [= <-]. }
  destruct ws as [|w ws].
  { simpl. intros [= <- <-]. exists [], []. simpl. repeat split; try done; try constructor; by intros ? [= <-]. }
  rewrite bool_decide_eq_false_2 by done.
  unfold mbind at 1, py_bind at 1, bind at 1.
  destruct (prepare_workers (w :: ws) _) as [[[]|e] s2] eqn:Hw.
  2:{ intros [= <- <-]. destruct (adds_prepare_workers _ _ _ _ Hw) as (evw & E & Hevw).
      exists evw, []. simpl in E. rewrite E, app_nil_r, <-(assoc_L (++)).
      split; [done|]. split; [done|]. split; [constructor|]. split; [done|].
      by intros [|]. }
  intros H.
  destruct (adds_prepare_workers _ _ _ _ Hw) as (evw & E & Hevw).
  apply prepare_workers_ok in Hw as (evw' & E' & Hall).
  assert (evw' = evw) as -> by (rewrite E in E'; by apply app_inv_head in E').
  assert (preserves (adds (on_host (hostname m)))
            (docker_login m du dp ≫= λ _,
             ret m ≫= λ master,
             prereq_git master gi gt ≫= λ _,
             ret m ≫= λ master,
             deploy_cluster master sol git_remote_dir ≫= λ resp,
             if (resp.1 : bool)
             then ret m ≫= λ master,
                  on (HealthCheck (hostname master)) (all_cluster_services_online master)
             else ret resp)) as Hm.
  { repeat first
      [ match goal with
        | |- preserves _ (ret _ ≫= _) => apply preserves_bind_ret
        end
      | apply adds_docker_login | apply adds_prereq_git | apply adds_deploy_cluster
      | adds_step ]. }
  destruct (Hm _ _ _ H) as (evm & Em & Hevm).
  exists evw, evm. simpl in E. rewrite Em, E, <-!(assoc_L (++)).
  split; [done|]. split; [done|]. split.
  { eapply Forall_impl; [exact Hevm|]. intros ev Hev. exists m. split; [by left|done]. }
  split; [done|]. by intros [|].
Qed.

Lemma join_cons sep line line' rest :
  join sep (line :: line' :: rest) = line +:+ sep +:+ join sep (line' :: rest).
Proof. done. Qed.

(** X23: [setup_k8s_cluster] starts the Jenkins job only when it has a
    master and a worker, and asks for the master first; of the masters it
    passes the first alone, so that any others change nothing; the job gets
    one line for that master and one for each worker, and the result is
    [True] exactly when the job reports SUCCESS. *)
Theorem setup_k8s_cluster_job ms ws taint st :
  match ms, ws with
  | [], _ => setup_k8s_cluster ms ws taint st = (Ok (false, "Master Node List is empty"), st)
  | _ :: _, [] =>
      setup_k8s_cluster ms ws taint st = (Ok (false, "Worker Node List is empty"), st)
  | m :: _, _ :: _ =>
      setup_k8s_cluster ms ws taint st = setup_k8s_cluster [m] ws taint st
      ∧ ∀ r st', setup_k8s_cluster ms ws taint st = (r, st') →
          events st' = events st
                       ++ [BuildJob job_name (join newline (host_line <$> m :: ws)) taint]
          ∧ ∀ flag res, r = Ok (flag, res) → (flag = true ↔ res = "SUCCESS")
  end.
Proof.
  destruct ms as [|m ms]; [done|]. destruct ws as [|w ws]; [done|].
  split; [done|]. intros r st'. unfold setup_k8s_cluster, mbind, py_bind, bind, on.
  destruct (build_job _ _ _ _ _ _) as [[[url res]|e] w1]; simpl.
  - destruct (String.eqb_spec res "SUCCESS") as [->|Hne]; intros [= <- <-]; simpl.
    + split; [done|]. by intros ?? [= <- <-].
    + split; [done|]. intros ?? [= <- <-]. split; [done|]. intros ->. done.
  - intros [= <- <-]. split; [done|]. done.
Qed.

End ProvFacts.

(** * The provisioning library at work *)

(** The second worker has too few disks: the first is prepared, the second
    is checked up to its disks, and the master is not touched. *)
Lemma deploy_cortx_cluster_order_witness :
  demo_deployed.1
  = Raise (Py.mkExc Py.AssertionError [VStr "Need at least 2 disks for deployment"])
  ∧ ∃ evw evm,
      ProvDeployK8sCortxLib.events demo_deployed.2
      = [] ++ ProvDeployK8sCortxLib.LoadSolution "solution.yaml" :: evw ++ evm
      ∧ Forall (ProvDeployK8sCortxLib.on_nodes [demo_worker "w1"; demo_worker "w2"]) evw
      ∧ Forall (ProvDeployK8sCortxLib.on_nodes (take 1 [demo_master])) evm.
Proof.
  split; [vm_compute; reflexivity|].
  destruct (deploy_cortx_cluster_order "solution.yaml" [demo_master]
              [demo_worker "w1"; demo_worker "w2"] "user" "pswd" "id" "token"
              (ProvDeployK8sCortxLib.mkState () []) demo_deployed.1 demo_deployed.2)
    as (evw & evm & E & Hw & Hm & _).
  - vm_compute. reflexivity.
  - exists evw, evm. split; [exact E|]. split; [exact Hw|exact Hm].
Defined.

(** * The class of the tests is set up *)

Section SetupFacts.
Import Py TestMultiDataPodFailure.
Context {World : Type} `{!Cluster World}.

Implicit Types (st : state World) (cfg : list (string * value)).
Local Abbreviation M := (Py.M (state World)).
Local Abbreviation from_constructor e :=
  (∃ class kwargs w w', construct class kwargs w = (Raise e, w')).

Ltac run_test :=
  unfold update_cls, get_cls, set_cls, setattr, dict_item, getitem, list_append,
    mbind, py_bind, bind, mret, py_ret, ret, modify; cbn [cls world calls self].

Ltac lookup_cls :=
  repeat (first [rewrite lookup_insert_eq | rewrite lookup_insert_ne by done]).

Lemma lookup_snoc_fmap {A B} (f : A → B) (l : list A) (x : B) :
  ((f <$> l) ++ [x]) !! length l = Some x.
Proof.
  rewrite lookup_app_r by (rewrite length_fmap; lia).
  by rewrite length_fmap, Nat.sub_diag.
Qed.

Lemma master_match {A} (t : value) (a b : A) :
  match t with VStr "master" => a | _ => b end
  = if match t with VStr "master" => true | _ => false end then a else b.
Proof.
  destruct t as [| | |s| |]; try done.
  do 7 (destruct s as [|[[] [] [] [] [] [] [] []] s]; try done).
Qed.

Lemma forallb_Forall {A} (f : A → bool) (l : list A) :
  forallb f l = true → Forall (λ x, f x = true) l.
Proof.
  induction l as [|x l IH]; cbn; [constructor|].
  intros [??]%andb_true_iff. constructor; auto.
Qed.

Lemma new_object_run class kwargs obj st :
  new_object class kwargs obj st
  = match construct class kwargs (world st) with
    | (Ok _, w) => (Ok obj, mkState w (calls st ++ [Construct class kwargs]) (cls st) (self st))
    | (Raise e, w) =>
        (Raise e, mkState w (calls st ++ [Construct class kwargs]) (cls st) (self st))
    end.
Proof.
  unfold new_object, lib, mbind, py_bind, bind, mret, py_ret, ret.
  by destruct (construct class kwargs (world st)) as [[[]|e] w].
Qed.

Ltac construct_next :=
  rewrite new_object_run; cbn [cls world calls self];
  match goal with
  | |- context [construct ?c ?k ?w] =>
      let e := fresh "e" in let w' := fresh "w" in let E := fresh "E" in
      destruct (construct c k w) as [[[]|e] w'] eqn:E;
      [cbn [cls world calls self]|by exists c, k, w, w']
  end.

Lemma setup_node_ok done cfg st :
  CMN_CFG_nodes !! length done = Some cfg → has_keys cfg = true →
  setup_inv done (cls st) →
  match setup_node (length done) st with
  | (Ok _, st') =>
      self st' = self st ∧ calls st' = calls st ++ node_calls cfg
      ∧ setup_inv (done ++ [cfg]) (cls st')
      ∧ ∀ k, k ∉ node_lists → cls st' !! k = cls st !! k
  | (Raise e, _) => from_constructor e
  end.
Proof.
  intros Hcfg Hk [I1 I2 I3 I4 I5].
  unfold has_keys in Hk. cbn [forallb] in Hk.
  destruct (vdict_get cfg "hostname") as [h|] eqn:Hh; [|done].
  destruct (vdict_get cfg "username") as [u|] eqn:Hu; [|done].
  destruct (vdict_get cfg "password") as [p|] eqn:Hp; [|done].
  destruct (vdict_get cfg "node_type") as [t|] eqn:Ht; [clear Hk|done].
  unfold setup_node. rewrite Hcfg. run_test.
  repeat (first [rewrite Hh | rewrite Hu | rewrite Hp | rewrite Ht
                | rewrite lookup_insert_eq | rewrite lookup_insert_ne by done
                | rewrite I1 | rewrite I2 | rewrite lookup_snoc_fmap ];
          cbn [cls world calls self]).
  rewrite master_match.
  assert (is_master cfg = match t with VStr "master" => true | _ => false end) as Em.
  { unfold is_master. rewrite Ht. by rewrite (master_match t true false). }
  rewrite <-Em.
  assert (∀ class, node_object class cfg = object class h u p) as Eo.
  { intros. unfold node_object, field. by rewrite Hh, Hu, Hp. }
  assert (field "hostname" cfg = h) as Eh by (unfold field; by rewrite Hh).
  assert (field "username" cfg = u) as Eu by (unfold field; by rewrite Hu).
  assert (field "password" cfg = p) as Ep by (unfold field; by rewrite Hp).
  unfold node_calls. rewrite Eh, Eu, Ep.
  destruct (is_master cfg) eqn:Em'.
  all: construct_next.
  all: repeat (first [rewrite lookup_insert_eq | rewrite lookup_insert_ne by done
                     | rewrite I3 | rewrite I4 | rewrite I5 ];
               cbn [cls world calls self]).
  1: construct_next.
  1: repeat (first [rewrite lookup_insert_eq | rewrite lookup_insert_ne by done
                   | rewrite I3 | rewrite I4 | rewrite I5 ];
             cbn [cls world calls self]).
  all: split; [done|]; split; [by rewrite <-?app_assoc|]; split.
  all: try (split; lookup_cls; unfold masters, workers;
            rewrite ?filter_app, ?fmap_app, ?filter_cons, ?filter_nil, ?Em';
            repeat case_decide; try done; cbn [fmap list_fmap];
            rewrite ?app_nil_r, ?Eo, ?Eu, ?Ep; done).
  all: intros k Hk; unfold node_lists in Hk;
    repeat (rewrite lookup_insert_ne; [|intros <-; apply Hk; set_solver]); done.
Qed.

Lemma setup_nodes_ok todo : ∀ done st,
  CMN_CFG_nodes = done ++ todo → Forall (λ cfg, has_keys cfg = true) todo →
  setup_inv done (cls st) →
  match setup_nodes (seq (length done) (length todo)) st with
  | (Ok _, st') =>
      self st' = self st ∧ calls st' = calls st ++ (todo ≫= node_calls)
      ∧ setup_inv (done ++ todo) (cls st')
      ∧ ∀ k, k ∉ node_lists → cls st' !! k = cls st !! k
  | (Raise e, _) => from_constructor e
  end.
Proof.
  induction todo as [|cfg todo IH]; intros done st Hall Hk Hinv.
  - cbn. by rewrite !app_nil_r.
  - apply Forall_cons in Hk as [Hcfg Hk].
    cbn [length seq setup_nodes]. unfold mbind at 1, py_bind, bind.
    pose proof (setup_node_ok done cfg st) as H1.
    destruct (setup_node (length done) st) as [[[]|e] st1]; [|apply H1; try done].
    2: { rewrite Hall. by apply list_lookup_middle. }
    destruct H1 as (Hs1 & Hc1 & Hinv1 & Hfr1); [|done|done|].
    { rewrite Hall. by apply list_lookup_middle. }
    pose proof (IH (done ++ [cfg]) st1) as H2.
    rewrite length_app, Nat.add_1_r in H2.
    destruct (setup_nodes (seq (S (length done)) (length todo)) st1) as [[[]|e] st2];
      [|apply H2; by rewrite <-?app_assoc].
    destruct H2 as (Hs2 & Hc2 & Hinv2 & Hfr2); [by rewrite <-app_assoc|done|done|].
    split; [congruence|]. split.
    { rewrite Hc2, Hc1, <-app_assoc. done. }
    split; [by rewrite <-app_assoc in Hinv2|].
    intros k Hnk. by rewrite Hfr2, Hfr1.
Qed.

Lemma setup_attributes_ok st :
  match setup_attributes st with
  | (Ok _, st') =>
      self st' = self st
      ∧ calls st' = calls st ++ [Construct "HAK8s" []; Construct "ProvDeployK8sCortxLib" []]
                      ++ [Construct "ManagementOPs" []; Construct "SystemRandom" []]
      ∧ setup_inv [] (cls st')
      ∧ cls st' !! "pod_name_list" = Some (VList [])
      ∧ cls st' !! "pod_dict" = Some (VDict [])
      ∧ cls st' !! "deploy" = Some VNone
  | (Raise e, _) => from_constructor e
  end.
Proof.
  destruct st as [w cs c s]. unfold setup_attributes.
  lazy beta iota zeta delta [set_cls modify mbind py_bind bind mret py_ret ret
                             world calls cls self].
  do 4 (construct_next; lazy beta iota zeta delta [world calls cls self]).
  split; [done|]. split; [by rewrite <-!app_assoc|].
  split; [split|]; repeat split; lookup_cls; done.
Qed.

Lemma setup_libraries_ok st :
  match setup_libraries st with
  | (Ok _, st') =>
      self st' = self st
      ∧ calls st' = calls st ++ [Construct "S3AccountOperations" [];
                                 Construct "S3MultipartTestLib"
                                   [("endpoint_url", S3_CFG_s3_url)]]
      ∧ ∀ k, bool_decide (k ∉ ["rest_obj"; "s3_mp_test_obj"; "test_file"; "test_dir_path"])
             = true → cls st' !! k = cls st !! k
  | (Raise e, _) => from_constructor e
  end.
Proof.
  destruct st as [w cs c s]. unfold setup_libraries.
  lazy beta iota zeta delta [set_cls modify mbind py_bind bind mret py_ret ret
                             world calls cls self].
  do 2 (construct_next; lazy beta iota zeta delta [world calls cls self]).
  split; [done|]. split; [by rewrite <-!app_assoc|].
  intros k Hk%bool_decide_eq_true.
  repeat (rewrite lookup_insert_ne; [|intros <-; apply Hk; set_solver]); done.
Qed.

(** What [setup_class] leaves when it returns, and where an exception
    that it raises comes from. *)
Lemma setup_class_ok st :
  forallb has_keys CMN_CFG_nodes = true →
  match setup_class st with
  | (Ok _, st') =>
      calls st' = calls st ++ setup_calls CMN_CFG_nodes S3_CFG_s3_url
      ∧ self st' = self st
      ∧ cls st' !! "node_master_list"
        = Some (VList (node_object "LogicalNode" <$> masters CMN_CFG_nodes))
      ∧ cls st' !! "hlth_master_list"
        = Some (VList (node_object "Health" <$> masters CMN_CFG_nodes))
      ∧ cls st' !! "node_worker_list"
        = Some (VList (node_object "LogicalNode" <$> workers CMN_CFG_nodes))
      ∧ cls st' !! "pod_name_list" = Some (VList [])
      ∧ cls st' !! "pod_dict" = Some (VDict [])
  | (Raise e, _) => from_constructor e
  end.
Proof.
  intros Hk%forallb_Forall. unfold setup_class.
  unfold mbind at 1, py_bind, bind.
  pose proof (setup_attributes_ok st) as H1.
  destruct (setup_attributes st) as [[[]|e] st1]; [|done].
  destruct H1 as (Hs1 & Hc1 & Hinv1 & Hp1 & Hd1 & _).
  unfold mbind at 1, py_bind, bind.
  pose proof (setup_nodes_ok CMN_CFG_nodes [] st1 eq_refl Hk Hinv1) as H2.
  cbn [length app] in H2.
  destruct (setup_nodes (seq 0 (length CMN_CFG_nodes)) st1) as [[[]|e] st2]; [|done].
  destruct H2 as (Hs2 & Hc2 & [_ _ I3 I4 I5] & Hfr2).
  pose proof (setup_libraries_ok st2) as H3.
  destruct (setup_libraries st2) as [[[]|e] st3]; [|done].
  destruct H3 as (Hs3 & Hc3 & Hfr3).
  assert (∀ k, bool_decide (k ∉ node_lists) = true → cls st2 !! k = cls st1 !! k) as Hfr2'.
  { intros k Hk'. apply Hfr2. by apply bool_decide_eq_true in Hk'. }
  split.
  { rewrite Hc3, Hc2, Hc1. unfold setup_calls. by rewrite <-!app_assoc. }
  split; [congruence|].
  rewrite !Hfr3 by reflexivity.
  rewrite (Hfr2' "pod_name_list"), (Hfr2' "pod_dict") by reflexivity.
  done.
Qed.


(** X25: when [node_master_list] of the class is empty, as [setup_class]
    leaves it on a configuration without a master node, the setup of a
    test on a new instance raises IndexError at [self.node_master_list[0]]:
    it has set [deploy] and [s3_clean] on the instance and has called no
    library. *)
Theorem setup_method_without_master st :
  cls st !! "node_master_list" = Some (VList []) →
  ∃ st', (new_instance;; setup_method) st
         = (Raise (mkExc IndexError [VStr "list index out of range"]), st')
    ∧ calls st' = calls st ∧ world st' = world st ∧ cls st' = cls st
    ∧ self st' = <["s3_clean":=VDict []]> (<["deploy":=VBool false]> ∅).
Proof.
  intros Hml.
  unfold new_instance, setup_method, first_of, getattr. run_test.
  lookup_cls. rewrite lookup_empty, Hml. cbn.
  eexists. split; [reflexivity|]. done.
Qed.

(** On a configuration without a master node [setup_class] leaves
    [node_master_list] empty when it returns. *)
Lemma setup_class_without_master st st' :
  forallb has_keys CMN_CFG_nodes = true → masters CMN_CFG_nodes = [] →
  setup_class st = (Ok (), st') →
  cls st' !! "node_master_list" = Some (VList []).
Proof.
  intros Hk Hm E. pose proof (setup_class_ok st Hk) as H. rewrite E in H.
  destruct H as (_ & _ & H & _). by rewrite Hm in H.
Qed.

End SetupFacts.

(** * The class of the tests at work *)


(** The constructor of [Health] raises at the master node: [setup_class]
    raises what it raised, after the node has been added to
    [node_master_list] and before the worker node is looked at. *)
Example setup_class_constructor_raises :
  ∃ st', @TestMultiDataPodFailure.setup_class unit demo_no_health
           (TestMultiDataPodFailure.mkState () [] ∅ ∅)
         = (Raise (Py.mkExc (Py.OtherException "SSHException") [VStr "no route to host"]),
            st')
    ∧ TestMultiDataPodFailure.calls st'
      = [TestMultiDataPodFailure.Construct "HAK8s" [];
         TestMultiDataPodFailure.Construct "ProvDeployK8sCortxLib" [];
         TestMultiDataPodFailure.Construct "ManagementOPs" [];
         TestMultiDataPodFailure.Construct "SystemRandom" [];
         TestMultiDataPodFailure.Construct "LogicalNode"
           [("hostname", VStr "m1"); ("username", VStr "root"); ("password", VStr "pw")];
         TestMultiDataPodFailure.Construct "Health"
           [("hostname", VStr "m1"); ("username", VStr "root"); ("password", VStr "pw")]]
    ∧ TestMultiDataPodFailure.cls st' !! "node_master_list"
      = Some (VList [TestMultiDataPodFailure.object "LogicalNode"
                       (VStr "m1") (VStr "root") (VStr "pw")])
    ∧ TestMultiDataPodFailure.cls st' !! "hlth_master_list" = Some (VList [])
    ∧ TestMultiDataPodFailure.cls st' !! "node_worker_list" = Some (VList []).
Proof. eexists. split; [vm_compute; reflexivity|]. by vm_compute. Qed.

(** Workers only: the class is set up and the first test cannot be. *)
Lemma setup_method_without_master_witness :
  let st := (@TestMultiDataPodFailure.setup_class unit demo_workers_only
               (TestMultiDataPodFailure.mkState () [] ∅ ∅)).2 in
  ∃ st', (TestMultiDataPodFailure.new_instance;;
          @TestMultiDataPodFailure.setup_method unit demo_workers_only) st
         = (Raise (Py.mkExc Py.IndexError [VStr "list index out of range"]), st')
    ∧ TestMultiDataPodFailure.calls st' = TestMultiDataPodFailure.calls st.
Proof.
  intros st.
  destruct (@setup_method_without_master unit demo_workers_only st)
    as (st' & E & Hc & _).
  - vm_compute. reflexivity.
  - exists st'. split; [exact E|exact Hc].
Defined.
